(** * Conversations history API: hydration, projection and the fetch cache

    A shallow embedding of [main.py], [models.py] and [s3_utils.py]:
    the field projector [filter_nested_fields], the three memoised
    fetch operations that share one [TTLCache], and the CRUD handlers
    that call them.  JSON documents are finite trees, Python
    dictionaries are insertion-ordered association lists, the bucket
    is a finite map from object keys to documents. *)

From stdpp Require Import gmap strings list pretty.
From Stdlib Require Import ZArith Ascii.

Local Open Scope string_scope.
Local Open Scope Z_scope.
Local Open Scope list_scope.

(** ** Python strings *)

Module Str.

(** [s.split(sep)] for a one-character separator: every occurrence
  cuts, empty pieces are kept, and the empty string gives [['']]. *)
Fixpoint split (sep : ascii) (s : string) : list string :=
match s with
| EmptyString => [EmptyString]
| String c s' =>
    if Ascii.eqb c sep then EmptyString :: split sep s'
    else match split sep s' with
         | [] => [String c EmptyString]
         | p :: ps => String c p :: ps
         end
end.

(** [sep.join(parts)]. *)
Definition join (sep : string) (parts : list string) : string :=
String.concat sep parts.

(** [s.startswith(p)]. *)
Definition startswith (p s : string) : bool := String.prefix p s.

(** [needle in hay] on two strings: substring search. *)
Fixpoint contains (needle hay : string) : bool :=
String.prefix needle hay
|| match hay with
   | EmptyString => false
   | String _ hay' => contains needle hay'
   end.

(** truth value of a string: only [''] is false. *)
Definition truthy (s : string) : bool := negb (String.eqb s "").

End Str.

(** ** JSON values

    What [json.loads] returns and [json.dumps] accepts.  Numbers are
    integers (the models only declare [int] fields); a dictionary
    keeps its keys in insertion order. *)

#[local] Unset Elimination Schemes.
Inductive json : Type :=
  | JNull
  | JBool (b : bool)
  | JInt (n : Z)
  | JStr (s : string)
  | JList (items : list json)
  | JDict (entries : list (string * json)).
#[local] Set Elimination Schemes.

(** ** Python dictionaries with string keys *)

Module Dict.

Section Ops.
Context {V : Type}.

Fixpoint get (k : string) (d : list (string * V)) : option V :=
match d with
| [] => None
| (k', v) :: d' => if String.eqb k k' then Some v else get k d'
end.

Definition mem (k : string) (d : list (string * V)) : bool :=
match get k d with Some _ => true | None => false end.

(** [d[k] = v]: an existing key keeps its position. *)
Fixpoint set (k : string) (v : V) (d : list (string * V)) : list (string * V) :=
match d with
| [] => [(k, v)]
| (k', v') :: d' =>
    if String.eqb k k' then (k', v) :: d' else (k', v') :: set k v d'
end.

(** [d.update(other)]. *)
Definition update (d other : list (string * V)) : list (string * V) :=
fold_left (fun acc kv => set (fst kv) (snd kv) acc) other d.

(** [del d[k]] when present. *)
Fixpoint remove (k : string) (d : list (string * V)) : list (string * V) :=
match d with
| [] => []
| (k', v') :: d' =>
    if String.eqb k k' then d' else (k', v') :: remove k d'
end.

Definition keys (d : list (string * V)) : list string := map fst d.
End Ops.

End Dict.

(** ** Exceptions and results *)

(** The status of an [HTTPException]: a number, or the vendor's error
    code when [s3_utils] forwards a [ClientError]. *)
Inductive status : Type :=
  | StatusNum (n : Z)
  | StatusCode (code : string).

Inductive builtin_error : Type :=
  | TypeError
  | AttributeError
  | KeyError
  | ValidationError.

Inductive exn : Type :=
  | HTTPException (status_code : status) (detail : string)
  | Builtin (e : builtin_error).

Inductive result (A : Type) : Type :=
  | Ok (a : A)
  | Raise (e : exn).
Arguments Ok {A} a.
Arguments Raise {A} e.

Definition result_bind {A B} (r : result A) (k : A -> result B) : result B :=
  match r with
  | Ok a => k a
  | Raise e => Raise e
  end.

Definition result_map {A B} (f : A -> B) (r : result A) : result B :=
  result_bind r (fun a => Ok (f a)).

(** A list comprehension whose body may raise: the first exception,
    in list order, aborts it. *)
Fixpoint collect {A} (rs : list (result A)) : result (list A) :=
  match rs with
  | [] => Ok []
  | r :: rs' =>
      result_bind r (fun a => result_map (cons a) (collect rs'))
  end.

(** ** Python sets of strings

    A set is kept as the list of the strings inserted into it; the
    order in which CPython enumerates it depends on hashing and is
    left open: any enumeration without repetition of the strings
    inserted. *)

Class SetOrder : Type := {
  set_iter : list string -> list string;
  set_iter_NoDup : forall l, NoDup (set_iter l);
  set_iter_elem : forall l x, x ∈ set_iter l <-> x ∈ l
}.

(** ** The field projector *)

Definition default_conversation_fields : list string :=
  ["id"; "createdBy"; "createdAt"; "updatedAt"; "status"; "summaryText";
   "summaryType"; "blockIds"].
Definition default_block_fields : list string :=
  ["id"; "inputText"; "responseIds"; "createdBy"; "createdAt"].
Definition default_response_fields : list string :=
  ["id"; "source"; "responseType"; "requestedAt"].

(** The local table [nested_default_fields] of [filter_nested_fields]. *)
Definition nested_default_fields : list (string * list string) :=
  [("blocks", default_block_fields); ("responses", default_response_fields)].

(** [parts[0]] of [field.split('.')]. *)
Definition head_part (field : string) : string :=
  hd "" (Str.split "." field).

(** First loop: [include_fields] after the updates. *)
Definition include_fields `{SetOrder} (default_fields additional_fields : list string)
  : list string :=
  default_fields
  ++ flat_map (fun field =>
                 match Dict.get (head_part field) nested_default_fields with
                 | Some dflt => dflt
                 | None => []
                 end)
              (set_iter additional_fields).

(** One round of the second loop. *)
Definition add_field_part (field_parts : list (string * list string)) (field : string)
  : list (string * list string) :=
  let parts := Str.split "." field in
  let p0 := hd "" parts in
  let fp := if Dict.mem p0 field_parts then field_parts
            else Dict.set p0 [] field_parts in
  if (1 <? List.length parts)%nat then
    match Dict.get p0 fp with
    | Some l => Dict.set p0 (l ++ [Str.join "." (tl parts)]) fp
    | None => fp
    end
  else fp.

Definition field_parts `{SetOrder} (default_fields additional_fields : list string)
  : list (string * list string) :=
  fold_left add_field_part
    (set_iter (include_fields default_fields additional_fields ++ additional_fields))
    [].

(** [key in data] for a value that is not a dictionary. *)
Definition is_str (k : string) (v : json) : bool :=
  match v with
  | JStr s => String.eqb k s
  | _ => false
  end.

Definition is_nil {A} (l : list A) : bool :=
  match l with [] => true | _ => false end.

(** The third loop over a dictionary.  [sub] pairs every value of
    [data] with its recursive projection. *)
Fixpoint project_items
    (sub : list (string * (json * (list string -> list string -> result json))))
    (field_parts : list (string * list string))
    (filtered_data : list (string * json)) : result (list (string * json)) :=
  match field_parts with
  | [] => Ok filtered_data
  | (key, nested_fields) :: rest =>
      match Dict.get key sub with
      | None => project_items sub rest filtered_data
      | Some (value, recurse) =>
          if is_nil nested_fields then
            project_items sub rest (Dict.set key value filtered_data)
          else
            result_bind
              (recurse (default (@nil string) (Dict.get key nested_default_fields))
                       nested_fields)
              (fun r => project_items sub rest (Dict.set key r filtered_data))
      end
  end.

Fixpoint filter_nested_fields `{SetOrder} (data : json)
    (default_fields additional_fields : list string) {struct data} : result json :=
  let fp := field_parts default_fields additional_fields in
  match data with
  | JDict entries =>
      let sub :=
        map (fun kv =>
               (fst kv,
                (snd kv,
                 fun dflt nested =>
                   match snd kv with
                   | JList items =>
                       result_map JList
                         (collect
                            (map (fun item => filter_nested_fields item dflt nested)
                                 items))
                   | _ => filter_nested_fields (snd kv) dflt nested
                   end)))
            entries in
      result_map JDict (project_items sub fp [])
  | JList items =>
      (* a member key reaches [data[key]] on a list *)
      if existsb (fun kn => existsb (is_str (fst kn)) items) fp
      then Raise (Builtin TypeError) else Ok (JDict [])
  | JStr s =>
      (* a key that is a substring reaches [data[key]] on a string *)
      if existsb (fun kn => Str.contains (fst kn) s) fp
      then Raise (Builtin TypeError) else Ok (JDict [])
  | JNull | JBool _ | JInt _ =>
      (* [key in data] itself raises *)
      if is_nil fp then Ok (JDict []) else Raise (Builtin TypeError)
  end.

(** First-insertion order is one possible enumeration. *)
Fixpoint first_seen (seen l : list string) : list string :=
  match l with
  | [] => []
  | x :: l' =>
      if existsb (String.eqb x) seen then first_seen seen l'
      else x :: first_seen (x :: seen) l'
  end.

(** The value a nested request puts under a key: every element of a
    list is projected, anything else is projected itself. *)
Definition recurse `{SetOrder} (value : json) (dflt nested : list string) : result json :=
  match value with
  | JList items =>
      result_map JList
        (collect (map (fun item => filter_nested_fields item dflt nested) items))
  | _ => filter_nested_fields value dflt nested
  end.

Definition sub_of `{SetOrder} (entries : list (string * json))
  : list (string * (json * (list string -> list string -> result json))) :=
  map (fun kv => (fst kv, (snd kv, recurse (snd kv)))) entries.

(** ** Induction on documents *)

Section JsonInd.
Variable P : json -> Prop.
Hypothesis HNull : P JNull.
Hypothesis HBool : forall b, P (JBool b).
Hypothesis HInt : forall n, P (JInt n).
Hypothesis HStr : forall s, P (JStr s).
Hypothesis HList : forall items, Forall P items -> P (JList items).
Hypothesis HDict :
  forall entries, Forall (fun kv => P (snd kv)) entries -> P (JDict entries).

Fixpoint json_ind (j : json) : P j :=
  match j with
  | JNull => HNull
  | JBool b => HBool b
  | JInt n => HInt n
  | JStr s => HStr s
  | JList items =>
      HList items
        ((fix go (l : list json) : Forall P l :=
            match l with
            | [] => Forall_nil_2 P
            | x :: l' => Forall_cons_2 P x l' (json_ind x) (go l')
            end) items)
  | JDict entries =>
      HDict entries
        ((fix go (l : list (string * json)) : Forall (fun kv => P (snd kv)) l :=
            match l with
            | [] => Forall_nil_2 _
            | kv :: l' =>
                Forall_cons_2 (fun kv => P (snd kv)) kv l'
                  (json_ind (snd kv)) (go l')
            end) entries)
  end.
End JsonInd.

#[export] Instance first_seen_order : SetOrder.
Proof.
  refine {| set_iter := first_seen [] |}.
  - assert (G : forall l seen, NoDup (first_seen seen l)
                 /\ forall x, x ∈ first_seen seen l -> x ∉ seen).
    { induction l as [|a l IH]; intros seen; simpl.
      - split; [constructor | intros x Hx; inversion Hx].
      - destruct (existsb (String.eqb a) seen) eqn:E.
        + apply IH.
        + destruct (IH (a :: seen)) as [IH1 IH2]. split.
          * constructor; [|exact IH1].
            intros Hin. apply (IH2 _ Hin). left.
          * intros x Hx. apply elem_of_cons in Hx as [->|Hx].
            -- intros Hin. apply list_elem_of_In in Hin.
               assert (existsb (String.eqb a) seen = true) as E'.
               { apply existsb_exists. exists a. split; [exact Hin|].
                 apply String.eqb_refl. }
               congruence.
            -- intros Hin. apply (IH2 _ Hx). right. exact Hin. }
    intros l. apply G.
  - assert (G : forall l seen x,
                 x ∈ first_seen seen l <-> x ∈ l /\ x ∉ seen).
    { induction l as [|a l IH]; intros seen x; simpl.
      - split; [intros Hx; inversion Hx | intros [Hx _]; inversion Hx].
      - destruct (existsb (String.eqb a) seen) eqn:E.
        + rewrite IH. apply existsb_exists in E as (y & Hy & Hay).
          apply String.eqb_eq in Hay as <-. apply list_elem_of_In in Hy.
          split.
          * intros [H1 H2]. split; [by right | exact H2].
          * intros [H1 H2]. split; [|exact H2].
            apply elem_of_cons in H1 as [->|H1]; [contradiction | exact H1].
        + rewrite elem_of_cons, IH. split.
          * intros [->|[H1 H2]].
            -- split; [by left|]. intros Hin. apply list_elem_of_In in Hin.
               assert (existsb (String.eqb a) seen = true) as E'.
               { apply existsb_exists. exists a. split; [exact Hin|].
                 apply String.eqb_refl. }
               congruence.
            -- split; [by right|]. intros Hin. apply H2. by right.
          * intros [H1 H2]. destruct (decide (x = a)) as [->|Hne]; [by left|].
            right. split.
            -- apply elem_of_cons in H1 as [->|H1]; [contradiction | exact H1].
            -- intros Hin. apply elem_of_cons in Hin as [->|Hin]; contradiction. }
    intros l x. rewrite G. split; [intros [? _]; done | intros ?; split; [done|]].
    intros Hin; inversion Hin.
Defined.

(** ** Deployment

    The directory names come from the process environment; the code
    and message of the vendor's answer for an absent object, and the
    text [str(e)] of the interpreter's own exceptions, come from the
    libraries. *)

Class Deployment : Type := {
  bucket_base_folder : string;
  conversations_dir_name : string;
  blocks_dir_name : string;
  responses_dir_name : string;
  missing_key_code : string;
  missing_key_message : string;
  builtin_text : builtin_error -> string
}.

(** An optional argument: [None] and [''] are both false, and an
    f-string prints [None] as such. *)
Definition opt_truthy (o : option string) : bool :=
  match o with
  | Some s => Str.truthy s
  | None => false
  end.

Definition opt_format (o : option string) : string :=
  match o with
  | Some s => s
  | None => "None"
  end.

Definition get_s3_key `{Deployment} (conversation_id : string)
    (block_id response_id : option string) : string :=
  if opt_truthy response_id then
    bucket_base_folder +:+ "/" +:+ conversations_dir_name +:+ "/" +:+ conversation_id
    +:+ "/" +:+ blocks_dir_name +:+ "/" +:+ opt_format block_id
    +:+ "/" +:+ responses_dir_name +:+ "/" +:+ opt_format response_id +:+ ".json"
  else if opt_truthy block_id then
    bucket_base_folder +:+ "/" +:+ conversations_dir_name +:+ "/" +:+ conversation_id
    +:+ "/" +:+ blocks_dir_name +:+ "/" +:+ opt_format block_id +:+ ".json"
  else
    bucket_base_folder +:+ "/" +:+ conversations_dir_name +:+ "/" +:+ conversation_id
    +:+ ".json".

(** ** The fetch cache

    [hash_key] keeps the positional arguments and the sorted keyword
    arguments of a call, nothing else. *)

Inductive arg : Type :=
  | AStr (s : string)
  | ATuple (ids : list string).

#[export] Instance arg_eq_dec : EqDecision arg.
Proof. solve_decision. Defined.

Definition cache_key : Type := list arg * list (string * arg).

(** [sorted(kwargs.items())]: keyword names are distinct, so the
    names alone decide the order. *)
Fixpoint insert_sorted (kv : string * arg) (l : list (string * arg))
  : list (string * arg) :=
  match l with
  | [] => [kv]
  | kv' :: l' =>
      if String.leb (fst kv) (fst kv') then kv :: l
      else kv' :: insert_sorted kv l'
  end.

Definition sorted (l : list (string * arg)) : list (string * arg) :=
  foldr insert_sorted [] l.

Definition hash_key (args : list arg) (kwargs : list (string * arg)) : cache_key :=
  (args, sorted kwargs).

(** The three decorated functions. *)
Inductive operation : Type := FetchBlocks | FetchBlock | FetchResponses.

#[export] Instance operation_eq_dec : EqDecision operation.
Proof. solve_decision. Defined.

(** A call as Python sees it: which function, with which positional
    and keyword arguments.  [@cached(cache, key=hash_key)] gives the
    three functions the same cache and the same key function. *)
Record call : Type := {
  call_op : operation;
  call_args : list arg;
  call_kwargs : list (string * arg)
}.

Definition key_of_call (c : call) : cache_key :=
  hash_key (call_args c) (call_kwargs c).

(** [TTLCache(maxsize=2048, ttl=300000)], after cachetools: entries
    in order of use, least recently used first, each with the time at
    which it expires. *)
Record cache_entry : Type := {
  entry_key : cache_key;
  entry_value : json;
  entry_expires : Z
}.

Definition maxsize : nat := 2048.
Definition ttl : Z := 300000.

Fixpoint find_entry (k : cache_key) (entries : list cache_entry) : option cache_entry :=
  match entries with
  | [] => None
  | e :: entries' =>
      if decide (entry_key e = k) then Some e else find_entry k entries'
  end.

Definition drop_entry (k : cache_key) (entries : list cache_entry) : list cache_entry :=
  filter (fun e => entry_key e <> k) entries.

(** Entries whose time has passed go first. *)
Definition expire (now : Z) (entries : list cache_entry) : list cache_entry :=
  filter (fun e => now < entry_expires e) entries.

(** ** The world a request runs in *)

(** The bucket, the process-wide cache, and the monotonic timer of
    the cache as the sequence of its readings. *)
Record world : Type := {
  bucket : gmap string json;
  cache : list cache_entry;
  timer : nat -> Z;
  ticks : nat
}.

(** What a run does to the outside, in order: the gateway's requests
    and the calls of the decorated functions. *)
Inductive event : Type :=
  | S3Get (key : string)
  | S3Put (key : string) (data : json)
  | S3Delete (key : string)
  | Fetch (op : operation) (key : cache_key).

Record outcome (A : Type) : Type := {
  value : result A;
  after : world;
  events : list event
}.
Arguments value {A} o.
Arguments after {A} o.
Arguments events {A} o.

Definition M (A : Type) : Type := world -> outcome A.

Definition ret {A} (a : A) : M A :=
  fun w => {| value := Ok a; after := w; events := [] |}.

Definition raise {A} (e : exn) : M A :=
  fun w => {| value := Raise e; after := w; events := [] |}.

Definition bind {A B} (m : M A) (k : A -> M B) : M B :=
  fun w =>
    let o := m w in
    match value o with
    | Ok a =>
        let o' := k a (after o) in
        {| value := value o'; after := after o'; events := events o ++ events o' |}
    | Raise e => {| value := Raise e; after := after o; events := events o |}
    end.

Definition lift {A} (r : result A) : M A :=
  match r with
  | Ok a => ret a
  | Raise e => raise e
  end.

Definition emit (ev : event) : M unit :=
  fun w => {| value := Ok tt; after := w; events := [ev] |}.

Notation "x <- m ;; k" := (bind m (fun x => k))
  (at level 100, m at next level, right associativity).
Notation "m ;;; k" := (bind m (fun _ => k))
  (at level 100, right associativity).

(** [for x in xs: out.append(f(x))]. *)
Fixpoint for_each {A B} (f : A -> M B) (xs : list A) : M (list B) :=
  match xs with
  | [] => ret []
  | x :: xs' =>
      y <- f x ;; ys <- for_each f xs' ;; ret (y :: ys)
  end.

(** [str(e)]; an [HTTPException] prints its status and its detail. *)
Definition status_text (s : status) : string :=
  match s with
  | StatusNum n => pretty n
  | StatusCode c => c
  end.

Definition exn_text `{Deployment} (e : exn) : string :=
  match e with
  | HTTPException s d => status_text s +:+ ": " +:+ d
  | Builtin b => builtin_text b
  end.

(** [try: ... except Exception as e: raise HTTPException(500, str(e))]. *)
Definition except_500 `{Deployment} {A} (m : M A) : M A :=
  fun w =>
    let o := m w in
    match value o with
    | Ok a => o
    | Raise e =>
        {| value := Raise (HTTPException (StatusNum 500) (exn_text e));
           after := after o; events := events o |}
    end.

(** ** The gateway ([s3_utils.py])

    The bucket is taken to be reachable with valid credentials: the
    one failure is [get_object] on an absent key, a [ClientError]
    that is forwarded with the vendor's code as status. *)

(** The exception the gateway raises for an absent key. *)
Definition not_found_error `{Deployment} : exn :=
  HTTPException (StatusCode missing_key_code) missing_key_message.

Definition get_json_from_s3 `{Deployment} (key : string) : M json :=
  fun w =>
    {| value := match bucket w !! key with
                | Some data => Ok data
                | None => Raise not_found_error
                end;
       after := w; events := [S3Get key] |}.

Definition put_json_to_s3 (key : string) (data : json) : M unit :=
  fun w =>
    {| value := Ok tt;
       after := {| bucket := <[key := data]> (bucket w); cache := cache w;
                   timer := timer w; ticks := ticks w |};
       events := [S3Put key data] |}.

Definition delete_json_from_s3 (key : string) : M unit :=
  fun w =>
    {| value := Ok tt;
       after := {| bucket := delete key (bucket w); cache := cache w;
                   timer := timer w; ticks := ticks w |};
       events := [S3Delete key] |}.

(** ** [TTLCache] and [cached] *)

(** [cache[k]]: a present key is marked as used and the timer is read;
    an entry whose time has passed is a miss. *)
Definition cache_getitem (k : cache_key) (w : world) : option json * world :=
  match find_entry k (cache w) with
  | None => (None, w)
  | Some e =>
      let now := timer w (ticks w) in
      let w' := {| bucket := bucket w;
                   cache := drop_entry k (cache w) ++ [e];
                   timer := timer w; ticks := S (ticks w) |} in
      (if now <? entry_expires e then Some (entry_value e) else None, w')
  end.

(** [cache[k] = v]: expired entries go, then the least recently used
    ones while there is no room, and the entry is put last. *)
Definition make_room (k : cache_key) (entries : list cache_entry) : list cache_entry :=
  match find_entry k entries with
  | Some _ => entries
  | None => drop (S (length entries) - maxsize) entries
  end.

Definition cache_setitem (k : cache_key) (v : json) (w : world) : world :=
  let now := timer w (ticks w) in
  let live := make_room k (expire now (cache w)) in
  {| bucket := bucket w;
     cache := drop_entry k live
              ++ [{| entry_key := k; entry_value := v; entry_expires := now + ttl |}];
     timer := timer w; ticks := S (ticks w) |}.

(** The wrapper that [cached] puts around a function. *)
Definition cached (k : cache_key) (body : M json) : M json :=
  fun w =>
    match cache_getitem k w with
    | (Some v, w') => {| value := Ok v; after := w'; events := [] |}
    | (None, w') =>
        let o := body w' in
        match value o with
        | Ok v => {| value := Ok v; after := cache_setitem k v (after o);
                     events := events o |}
        | Raise e => o
        end
    end.

(** ** Reading documents the Python way *)

(** [data.get(key, default)]. *)
Definition py_get (data : json) (key : string) (dflt : json) : result json :=
  match data with
  | JDict entries => Ok (default dflt (Dict.get key entries))
  | _ => Raise (Builtin AttributeError)
  end.

(** [data[key] = v]. *)
Definition py_setitem (data : json) (key : string) (v : json) : result json :=
  match data with
  | JDict entries => Ok (JDict (Dict.set key v entries))
  | _ => Raise (Builtin TypeError)
  end.

(** [tuple(ids)] as a cache key and a list of object names.  Ids are
    strings, as the models declare them; a sequence of anything else
    is outside the embedding and is taken to fail. *)
Fixpoint strings_of (items : list json) : option (list string) :=
  match items with
  | [] => Some []
  | JStr s :: items' => cons s <$> strings_of items'
  | _ :: _ => None
  end.

Definition py_tuple (v : json) : result (list string) :=
  match v with
  | JList items =>
      match strings_of items with
      | Some ids => Ok ids
      | None => Raise (Builtin TypeError)
      end
  | _ => Raise (Builtin TypeError)
  end.

(** [fields.split(',') if fields else []]. *)
Definition requested (fields : option string) : list string :=
  match fields with
  | Some s => if Str.truthy s then Str.split "," s else []
  | None => []
  end.

(** ** The memoised fetches *)

Definition fetch_responses `{Deployment} (conversation_id block_id : string)
    (response_ids : list string) : M json :=
  let k := hash_key [AStr conversation_id; AStr block_id; ATuple response_ids] [] in
  emit (Fetch FetchResponses k) ;;;
  cached k
    (responses <-
       for_each (fun response_id =>
                   get_json_from_s3
                     (get_s3_key conversation_id (Some block_id) (Some response_id)))
                response_ids ;;
     ret (JList responses)).

(** The test of [fetch_block] on [fields]. *)
Definition wants_responses (fields : string) : bool :=
  Str.truthy fields
  && (Str.contains "blocks.responses" fields
      || existsb (Str.startswith "blocks.responses.") (Str.split "," fields)).

Definition fetch_block `{Deployment} (conversation_id block_id fields : string) : M json :=
  let k := hash_key [AStr conversation_id; AStr block_id; AStr fields] [] in
  emit (Fetch FetchBlock k) ;;;
  cached k
    (block <- get_json_from_s3 (get_s3_key conversation_id (Some block_id) None) ;;
     if wants_responses fields then
       ids_v <- lift (py_get block "responseIds" (JList [])) ;;
       ids <- lift (py_tuple ids_v) ;;
       responses <- fetch_responses conversation_id block_id ids ;;
       lift (py_setitem block "responses" responses)
     else ret block).

Definition fetch_blocks `{Deployment} (conversation_id : string)
    (block_ids : list string) (fields : string) : M json :=
  let k := hash_key [AStr conversation_id; ATuple block_ids; AStr fields] [] in
  emit (Fetch FetchBlocks k) ;;;
  cached k
    (blocks <- for_each (fun block_id => fetch_block conversation_id block_id fields)
                        block_ids ;;
     ret (JList blocks)).

(** ** Read handlers

    What the handler function returns, before the framework turns it
    into a response. *)

(** The test of [read_conversation] on [fields]. *)
Definition wants_blocks (fields : option string) : bool :=
  match fields with
  | Some s =>
      Str.truthy s
      && (Str.contains "blocks" s
          || existsb (Str.startswith "blocks.") (Str.split "," s))
  | None => false
  end.

Definition read_conversation `{SetOrder} `{Deployment}
    (conversation_id : string) (fields : option string) : M json :=
  except_500
    (conversation <- get_json_from_s3 (get_s3_key conversation_id None None) ;;
     conversation' <-
       (if wants_blocks fields then
          ids_v <- lift (py_get conversation "blockIds" (JList [])) ;;
          ids <- lift (py_tuple ids_v) ;;
          blocks <- fetch_blocks conversation_id ids (default "" fields) ;;
          lift (py_setitem conversation "blocks" blocks)
        else ret conversation) ;;
     lift (filter_nested_fields conversation' default_conversation_fields
             (requested fields))).

Definition read_block `{SetOrder} `{Deployment}
    (conversation_id block_id : string) (fields : option string) : M json :=
  block <- get_json_from_s3 (get_s3_key conversation_id (Some block_id) None) ;;
  ids_v <- lift (py_get block "responseIds" (JList [])) ;;
  ids <- lift (py_tuple ids_v) ;;
  responses <- fetch_responses conversation_id block_id ids ;;
  block' <- lift (py_setitem block "responses" responses) ;;
  lift (filter_nested_fields block' default_block_fields (requested fields)).

Definition read_response `{SetOrder} `{Deployment}
    (conversation_id block_id response_id : string) (fields : option string) : M json :=
  response <- get_json_from_s3
                (get_s3_key conversation_id (Some block_id) (Some response_id)) ;;
  lift (filter_nested_fields response default_response_fields (requested fields)).

Definition delete_conversation `{Deployment} (conversation_id : string) : M unit :=
  delete_json_from_s3 (get_s3_key conversation_id None None).

Definition delete_block `{Deployment} (conversation_id block_id : string) : M unit :=
  delete_json_from_s3 (get_s3_key conversation_id (Some block_id) None).

Definition delete_response `{Deployment}
    (conversation_id block_id response_id : string) : M unit :=
  delete_json_from_s3 (get_s3_key conversation_id (Some block_id) (Some response_id)).

(** ** The models ([models.py])

    A model is built from a dictionary by validation and turned back
    into one by [dict()], which lists every declared field, [None]
    fields included, in declaration order.  Validation accepts a
    value of the declared JSON type only; the conversions between
    types that the library may add are not part of the embedding.
    Fields the model does not declare are dropped; [Optional] fields
    declared without a default have to be present. *)

Definition parse_str (v : json) : option string :=
  match v with JStr s => Some s | _ => None end.

Definition parse_int (v : json) : option Z :=
  match v with JInt n => Some n | _ => None end.

Definition parse_list {A} (parse : json -> option A) (v : json) : option (list A) :=
  match v with
  | JList items => mapM parse items
  | _ => None
  end.

Definition parse_dict {A} (parse : list (string * json) -> option A) (v : json)
  : option A :=
  match v with
  | JDict entries => parse entries
  | _ => None
  end.

(** A required field. *)
Definition required {A} (parse : json -> option A) (v : option json) : option A :=
  v ≫= parse.

(** [Optional[T]] without a default: present, possibly [None]. *)
Definition nullable {A} (parse : json -> option A) (v : option json)
  : option (option A) :=
  match v with
  | None => None
  | Some JNull => Some None
  | Some j => Some <$> parse j
  end.

(** [Optional[T] = None]. *)
Definition optional {A} (parse : json -> option A) (v : option json)
  : option (option A) :=
  match v with
  | None => Some None
  | Some JNull => Some None
  | Some j => Some <$> parse j
  end.

Definition dump_opt {A} (dump : A -> json) (o : option A) : json :=
  match o with
  | Some a => dump a
  | None => JNull
  end.

Definition validated {A} (o : option A) : result A :=
  match o with
  | Some a => Ok a
  | None => Raise (Builtin ValidationError)
  end.

Module User.
Record t : Type := {
  id : string;
  email : string;
  displayName : option string
}.

Definition dict (u : t) : list (string * json) :=
  [("id", JStr (id u)); ("email", JStr (email u));
   ("displayName", dump_opt JStr (displayName u))].

Definition parse (d : list (string * json)) : option t :=
  i ← required parse_str (Dict.get "id" d);
  e ← required parse_str (Dict.get "email" d);
  n ← optional parse_str (Dict.get "displayName" d);
  Some {| id := i; email := e; displayName := n |}.
End User.

Module Response.
Record t : Type := {
  id : string;
  source : string;
  responseType : string;
  payload : json;
  requestedAt : option Z;
  respondedAt : option Z
}.

Definition dict (r : t) : list (string * json) :=
  [("id", JStr (id r)); ("source", JStr (source r));
   ("responseType", JStr (responseType r)); ("payload", payload r);
   ("requestedAt", dump_opt JInt (requestedAt r));
   ("respondedAt", dump_opt JInt (respondedAt r))].

Definition parse (d : list (string * json)) : option t :=
  i ← required parse_str (Dict.get "id" d);
  s ← required parse_str (Dict.get "source" d);
  ty ← required parse_str (Dict.get "responseType" d);
  p ← Dict.get "payload" d;
  rq ← optional parse_int (Dict.get "requestedAt" d);
  rs ← optional parse_int (Dict.get "respondedAt" d);
  Some {| id := i; source := s; responseType := ty; payload := p;
          requestedAt := rq; respondedAt := rs |}.

(** [Response] built from the keywords of a dictionary. *)
Definition validate (d : list (string * json)) : result t := validated (parse d).
End Response.

Module Block.
Record t : Type := {
  id : string;
  inputText : string;
  responseIds : list string;
  createdBy : User.t;
  createdAt : Z;
  responses : option (list Response.t)
}.

Definition dict (b : t) : list (string * json) :=
  [("id", JStr (id b)); ("inputText", JStr (inputText b));
   ("responseIds", JList (map JStr (responseIds b)));
   ("createdBy", JDict (User.dict (createdBy b)));
   ("createdAt", JInt (createdAt b));
   ("responses",
    dump_opt (fun rs => JList (map (fun r => JDict (Response.dict r)) rs))
             (responses b))].

Definition parse (d : list (string * json)) : option t :=
  i ← required parse_str (Dict.get "id" d);
  txt ← required parse_str (Dict.get "inputText" d);
  ids ← required (parse_list parse_str) (Dict.get "responseIds" d);
  u ← required (parse_dict User.parse) (Dict.get "createdBy" d);
  at_ ← required parse_int (Dict.get "createdAt" d);
  rs ← optional (parse_list (parse_dict Response.parse)) (Dict.get "responses" d);
  Some {| id := i; inputText := txt; responseIds := ids; createdBy := u;
          createdAt := at_; responses := rs |}.

(** [Block] built from the keywords of [data], which has to be a mapping. *)
Definition validate (data : json) : result t :=
  match data with
  | JDict d => validated (parse d)
  | _ => Raise (Builtin TypeError)
  end.

(** [block.responseIds.append(response_id)]. *)
Definition append_response (response_id : string) (b : t) : t :=
  {| id := id b; inputText := inputText b;
     responseIds := responseIds b ++ [response_id];
     createdBy := createdBy b; createdAt := createdAt b;
     responses := responses b |}.
End Block.

Module Conversation.
Record t : Type := {
  id : string;
  createdBy : User.t;
  createdAt : Z;
  updatedAt : Z;
  status : string;
  summaryText : option string;
  summaryType : option string;
  blockIds : list string;
  blocks : option (list Block.t)
}.

Definition dict (c : t) : list (string * json) :=
  [("id", JStr (id c));
   ("createdBy", JDict (User.dict (createdBy c)));
   ("createdAt", JInt (createdAt c)); ("updatedAt", JInt (updatedAt c));
   ("status", JStr (status c));
   ("summaryText", dump_opt JStr (summaryText c));
   ("summaryType", dump_opt JStr (summaryType c));
   ("blockIds", JList (map JStr (blockIds c)));
   ("blocks",
    dump_opt (fun bs => JList (map (fun b => JDict (Block.dict b)) bs))
             (blocks c))].

Definition parse (d : list (string * json)) : option t :=
  i ← required parse_str (Dict.get "id" d);
  u ← required (parse_dict User.parse) (Dict.get "createdBy" d);
  c_at ← required parse_int (Dict.get "createdAt" d);
  u_at ← required parse_int (Dict.get "updatedAt" d);
  st ← required parse_str (Dict.get "status" d);
  txt ← nullable parse_str (Dict.get "summaryText" d);
  ty ← nullable parse_str (Dict.get "summaryType" d);
  ids ← required (parse_list parse_str) (Dict.get "blockIds" d);
  bs ← optional (parse_list (parse_dict Block.parse)) (Dict.get "blocks" d);
  Some {| id := i; createdBy := u; createdAt := c_at; updatedAt := u_at;
          status := st; summaryText := txt; summaryType := ty;
          blockIds := ids; blocks := bs |}.

(** [Conversation] built from the keywords of a dictionary. *)
Definition validate (d : list (string * json)) : result t := validated (parse d).

(** [conversation.blockIds.append(block_id)]. *)
Definition append_block (block_id : string) (c : t) : t :=
  {| id := id c; createdBy := createdBy c; createdAt := createdAt c;
     updatedAt := updatedAt c; status := status c;
     summaryText := summaryText c; summaryType := summaryType c;
     blockIds := blockIds c ++ [block_id]; blocks := blocks c |}.
End Conversation.

(** A field of a request body that the caller may leave out: [None]
    when it was not set, otherwise the value given, which may itself
    be [None]. *)
Definition set_field {A} (name : string) (dump : A -> json)
    (f : option (option A)) : list (string * json) :=
  match f with
  | None => []
  | Some v => [(name, dump_opt dump v)]
  end.

Module PartialConversation.
Record t : Type := {
  createdBy : User.t;
  status : option (option string);
  summaryText : option (option string);
  summaryType : option (option string);
  blockIds : option (option (list string));
  users : option (option (list json));
  session : option (option json);
  blocks : option (option (list json))
}.

(** [partial_conversation.dict(exclude_unset=True)]. *)
Definition dict_exclude_unset (p : t) : list (string * json) :=
  [("createdBy", JDict (User.dict (createdBy p)))]
  ++ set_field "status" JStr (status p)
  ++ set_field "summaryText" JStr (summaryText p)
  ++ set_field "summaryType" JStr (summaryType p)
  ++ set_field "blockIds" (fun ids => JList (map JStr ids)) (blockIds p)
  ++ set_field "users" JList (users p)
  ++ set_field "session" (fun v => v) (session p)
  ++ set_field "blocks" JList (blocks p).
End PartialConversation.

Module PartialResponse.
Record t : Type := {
  source : string;
  responseType : string;
  payload : option json;
  requestedAt : option (option Z);
  respondedAt : option (option Z)
}.

(** [partial_response.dict(exclude_unset=True)]. *)
Definition dict_exclude_unset (p : t) : list (string * json) :=
  [("source", JStr (source p)); ("responseType", JStr (responseType p))]
  ++ match payload p with Some v => [("payload", v)] | None => [] end
  ++ set_field "requestedAt" JInt (requestedAt p)
  ++ set_field "respondedAt" JInt (respondedAt p).
End PartialResponse.

(** Modelled from the spec: [main.py] imports [PartialBlock] from
    [models], which does not declare it.  By the spec a block is
    created from generated fields merged with the caller's overrides;
    [create_block] reads [createdBy] and [dict(exclude_unset=True)]
    of it, and nothing else. *)
Module PartialBlock.
Record t : Type := {
  createdBy : option User.t;
  dict_exclude_unset : list (string * json)
}.
End PartialBlock.

(** ** Write handlers

    [uuid.uuid4()] and [time.time()] are inputs: the fresh ids and
    the epoch second of the call. *)

Definition create_conversation `{Deployment} (query : string)
    (partial_conversation : PartialConversation.t)
    (new_id new_block_id : string) (epoch_time : Z) : M Conversation.t :=
  except_500
    (let conversation_data :=
       Dict.update
         [("id", JStr new_id); ("status", JStr "OPEN"); ("summaryText", JStr query);
          ("summaryType", JStr "UNKNOWN"); ("createdAt", JInt epoch_time);
          ("updatedAt", JInt epoch_time); ("blockIds", JList [])]
         (PartialConversation.dict_exclude_unset partial_conversation) in
     conversation <- lift (Conversation.validate conversation_data) ;;
     let new_block :=
       {| Block.id := new_block_id; Block.inputText := query;
          Block.responseIds := []; Block.createdAt := epoch_time;
          Block.createdBy := Conversation.createdBy conversation;
          Block.responses := None |} in
     let conversation := Conversation.append_block (Block.id new_block) conversation in
     put_json_to_s3 (get_s3_key (Conversation.id conversation) None None)
                    (JDict (Conversation.dict conversation)) ;;;
     put_json_to_s3 (get_s3_key (Conversation.id conversation)
                                (Some (Block.id new_block)) None)
                    (JDict (Block.dict new_block)) ;;;
     ret conversation).

Definition update_conversation `{Deployment} (conversation_id : string)
    (conversation : Conversation.t) : M Conversation.t :=
  put_json_to_s3 (get_s3_key conversation_id None None)
                 (JDict (Conversation.dict conversation)) ;;;
  ret conversation.

(** [data[key]]. *)
Definition py_getitem (data : json) (key : string) : result json :=
  match data with
  | JDict entries =>
      match Dict.get key entries with
      | Some v => Ok v
      | None => Raise (Builtin KeyError)
      end
  | _ => Raise (Builtin TypeError)
  end.

(** The truth value of a document. *)
Definition py_truthy (v : json) : bool :=
  match v with
  | JNull => false
  | JBool b => b
  | JInt n => negb (n =? 0)
  | JStr s => Str.truthy s
  | JList items => negb (is_nil items)
  | JDict entries => negb (is_nil entries)
  end.

(** [v.append(x)]. *)
Definition py_append (v x : json) : result json :=
  match v with
  | JList items => Ok (JList (items ++ [x]))
  | _ => Raise (Builtin AttributeError)
  end.

Definition default_creator : User.t :=
  {| User.id := "himanshu@bruviti_com"; User.email := "himanshu@bruviti.com";
     User.displayName := Some "Himanshu" |}.

Definition create_block `{Deployment} (conversation_id : string)
    (partial_block : PartialBlock.t) (new_id : string) (epoch_time : Z) : M Block.t :=
  let block_data :=
    Dict.update
      [("id", JStr new_id); ("createdAt", JInt epoch_time); ("responseIds", JList []);
       ("createdBy",
        JDict (User.dict (default default_creator (PartialBlock.createdBy partial_block))))]
      (PartialBlock.dict_exclude_unset partial_block) in
  block <- lift (Block.validate (JDict block_data)) ;;
  put_json_to_s3 (get_s3_key conversation_id (Some (Block.id block)) None)
                 (JDict (Block.dict block)) ;;;
  let key := get_s3_key conversation_id None None in
  conversation <- get_json_from_s3 key ;;
  ids <- lift (py_getitem conversation "blockIds") ;;
  let ids := if py_truthy ids then ids else JList [] in
  ids <- lift (py_append ids (JStr (Block.id block))) ;;
  conversation <- lift (py_setitem conversation "blockIds" ids) ;;
  put_json_to_s3 key conversation ;;;
  ret block.

Definition update_block `{Deployment} (conversation_id block_id : string)
    (block : Block.t) : M Block.t :=
  put_json_to_s3 (get_s3_key conversation_id (Some block_id) None)
                 (JDict (Block.dict block)) ;;;
  ret block.

Definition create_response `{Deployment} (conversation_id block_id : string)
    (partial_response : PartialResponse.t) (new_id : string) (epoch_time : Z)
  : M Response.t :=
  let response_data :=
    Dict.update [("id", JStr new_id); ("respondedAt", JInt epoch_time)]
                (PartialResponse.dict_exclude_unset partial_response) in
  response <- lift (Response.validate response_data) ;;
  put_json_to_s3 (get_s3_key conversation_id (Some block_id) (Some (Response.id response)))
                 (JDict (Response.dict response)) ;;;
  cached_block <- fetch_block conversation_id block_id "" ;;
  block <- lift (Block.validate cached_block) ;;
  let block := Block.append_response (Response.id response) block in
  put_json_to_s3 (get_s3_key conversation_id (Some block_id) None)
                 (JDict (Block.dict block)) ;;;
  ret response.

Definition update_response `{Deployment} (conversation_id block_id response_id : string)
    (response : Response.t) : M Response.t :=
  put_json_to_s3 (get_s3_key conversation_id (Some block_id) (Some response_id))
                 (JDict (Response.dict response)) ;;;
  ret response.

(** ** A deployment to run examples in *)

Definition local_deployment : Deployment :=
  {| bucket_base_folder := "history";
     conversations_dir_name := "conversations";
     blocks_dir_name := "blocks";
     responses_dir_name := "responses";
     missing_key_code := "NoSuchKey";
     missing_key_message := "The specified key does not exist.";
     builtin_text := fun e =>
       match e with
       | TypeError => "TypeError"
       | AttributeError => "AttributeError"
       | KeyError => "KeyError"
       | ValidationError => "ValidationError"
       end |}.

Definition start (b : gmap string json) : world :=
  {| bucket := b; cache := []; timer := fun n => Z.of_nat n; ticks := 0 |}.

(** ** What the bucket holds, read without the cache

    The tree a fetch returns when every document is read from the
    bucket as it is now.  The memoised fetches are compared with
    these. *)

Definition stored_doc `{Deployment} (b : gmap string json) (key : string) : result json :=
  match b !! key with
  | Some data => Ok data
  | None => Raise not_found_error
  end.

Definition stored_responses `{Deployment} (b : gmap string json)
    (conversation_id block_id : string) (response_ids : list string) : result json :=
  result_map JList
    (collect (map (fun response_id =>
                     stored_doc b (get_s3_key conversation_id (Some block_id)
                                              (Some response_id)))
                  response_ids)).

Definition stored_block `{Deployment} (b : gmap string json)
    (conversation_id block_id fields : string) : result json :=
  result_bind (stored_doc b (get_s3_key conversation_id (Some block_id) None))
    (fun block =>
       if wants_responses fields then
         result_bind (py_get block "responseIds" (JList [])) (fun ids_v =>
         result_bind (py_tuple ids_v) (fun ids =>
         result_bind (stored_responses b conversation_id block_id ids) (fun responses =>
         py_setitem block "responses" responses)))
       else Ok block).

Definition stored_blocks `{Deployment} (b : gmap string json)
    (conversation_id : string) (block_ids : list string) (fields : string) : result json :=
  result_map JList
    (collect (map (fun block_id => stored_block b conversation_id block_id fields)
                  block_ids)).

(** The call a key stands for, at the shapes the program calls the
    fetches with, and what that call returns on the bucket. *)
Definition key_meaning `{Deployment} (b : gmap string json) (k : cache_key)
  : option (result json) :=
  match k with
  | ([AStr c; AStr bl; ATuple ids], []) => Some (stored_responses b c bl ids)
  | ([AStr c; AStr bl; AStr f], []) => Some (stored_block b c bl f)
  | ([AStr c; ATuple ids; AStr f], []) => Some (stored_blocks b c ids f)
  | _ => None
  end.

(** Every entry of the cache holds what its call returns on the
    bucket as it is now: nothing was written or deleted under it. *)
Definition coherent `{Deployment} (w : world) : Prop :=
  forall e r,
    e ∈ cache w -> key_meaning (bucket w) (entry_key e) = Some r ->
    r = Ok (entry_value e).

(** A memoised computation agrees with a reading of the bucket. *)
Definition agrees {A} `{Deployment} (m : M A) (r : gmap string json -> result A) : Prop :=
  forall w,
    coherent w ->
    value (m w) = r (bucket w)
    /\ bucket (after (m w)) = bucket w
    /\ coherent (after (m w)).

(** Read requests, to fill the cache in any order. *)
Inductive read_request : Type :=
  | ReadConversation (conversation_id : string) (fields : option string)
  | ReadBlock (conversation_id block_id : string) (fields : option string)
  | ReadResponse (conversation_id block_id response_id : string) (fields : option string).

Definition serve `{SetOrder} `{Deployment} (rq : read_request) : M json :=
  match rq with
  | ReadConversation c f => read_conversation c f
  | ReadBlock c b f => read_block c b f
  | ReadResponse c b r f => read_response c b r f
  end.

(** The world after a list of read requests, whatever they answered. *)
Definition after_reads `{SetOrder} `{Deployment} (rqs : list read_request) (w : world)
  : world :=
  fold_left (fun w rq => after (serve rq w)) rqs w.

(** The handler's wrapping, on a result. *)
Definition wrap_500 `{Deployment} {A} (r : result A) : result A :=
  match r with
  | Ok a => Ok a
  | Raise e => Raise (HTTPException (StatusNum 500) (exn_text e))
  end.

(** [read_conversation] on the bucket alone. *)
Definition stored_conversation `{SetOrder} `{Deployment} (b : gmap string json)
    (conversation_id : string) (fields : option string) : result json :=
  wrap_500
    (result_bind (stored_doc b (get_s3_key conversation_id None None))
       (fun conversation =>
          result_bind
            (if wants_blocks fields then
               result_bind (py_get conversation "blockIds" (JList [])) (fun ids_v =>
               result_bind (py_tuple ids_v) (fun ids =>
               result_bind (stored_blocks b conversation_id ids (default "" fields))
                 (fun blocks => py_setitem conversation "blocks" blocks)))
             else Ok conversation)
            (fun conversation' =>
               filter_nested_fields conversation' default_conversation_fields
                 (requested fields)))).

(** [read_block] and [read_response] on the bucket alone. *)
Definition stored_block_read `{SetOrder} `{Deployment} (b : gmap string json)
    (conversation_id block_id : string) (fields : option string) : result json :=
  result_bind (stored_doc b (get_s3_key conversation_id (Some block_id) None)) (fun block =>
  result_bind (py_get block "responseIds" (JList [])) (fun ids_v =>
  result_bind (py_tuple ids_v) (fun ids =>
  result_bind (stored_responses b conversation_id block_id ids) (fun responses =>
  result_bind (py_setitem block "responses" responses) (fun block' =>
  filter_nested_fields block' default_block_fields (requested fields)))))).

Definition stored_response_read `{SetOrder} `{Deployment} (b : gmap string json)
    (conversation_id block_id response_id : string) (fields : option string)
  : result json :=
  result_bind
    (stored_doc b (get_s3_key conversation_id (Some block_id) (Some response_id)))
    (fun response =>
       filter_nested_fields response default_response_fields (requested fields)).

(** A small bucket: one conversation, two blocks, three responses. *)
Definition sample_user : User.t :=
  {| User.id := "u1"; User.email := "u1@example.org"; User.displayName := None |}.

Definition sample_response (id : string) : Response.t :=
  {| Response.id := id; Response.source := "agent"; Response.responseType := "text";
     Response.payload := JDict []; Response.requestedAt := None;
     Response.respondedAt := Some 7 |}.

Definition sample_block (id : string) (response_ids : list string) : Block.t :=
  {| Block.id := id; Block.inputText := "hello"; Block.responseIds := response_ids;
     Block.createdBy := sample_user; Block.createdAt := 5; Block.responses := None |}.

Definition sample_conversation : Conversation.t :=
  {| Conversation.id := "c1"; Conversation.createdBy := sample_user;
     Conversation.createdAt := 5; Conversation.updatedAt := 5;
     Conversation.status := "OPEN"; Conversation.summaryText := Some "hello";
     Conversation.summaryType := Some "UNKNOWN";
     Conversation.blockIds := ["b1"; "b2"]; Conversation.blocks := None |}.

Definition sample_bucket : gmap string json :=
  list_to_map
    [("history/conversations/c1.json", JDict (Conversation.dict sample_conversation));
     ("history/conversations/c1/blocks/b1.json",
      JDict (Block.dict (sample_block "b1" ["r1"; "r2"])));
     ("history/conversations/c1/blocks/b2.json",
      JDict (Block.dict (sample_block "b2" ["r3"])));
     ("history/conversations/c1/blocks/b1/responses/r1.json",
      JDict (Response.dict (sample_response "r1")));
     ("history/conversations/c1/blocks/b1/responses/r2.json",
      JDict (Response.dict (sample_response "r2")));
     ("history/conversations/c1/blocks/b2/responses/r3.json",
      JDict (Response.dict (sample_response "r3")))].

(** The test on a selection in the words of the specification: some
    requested path is [blocks] or begins with [blocks.]. *)
Definition path_names_blocks (fields : string) : bool :=
  existsb (fun path => String.eqb path "blocks" || Str.startswith "blocks." path)
          (Str.split "," fields).

(** The calls the program makes, with the arguments it passes
    positionally: [read_conversation] and [fetch_blocks] itself pass
    three, [list_conversations] leaves [fields] to its default. *)
Inductive program_call : Type :=
  | CallFetchBlocks (conversation_id : string) (block_ids : list string) (fields : string)
  | CallFetchBlocksDefault (conversation_id : string) (block_ids : list string)
  | CallFetchBlock (conversation_id block_id fields : string)
  | CallFetchResponses (conversation_id block_id : string) (response_ids : list string).

Definition call_of (p : program_call) : call :=
  match p with
  | CallFetchBlocks c ids f =>
      {| call_op := FetchBlocks; call_args := [AStr c; ATuple ids; AStr f];
         call_kwargs := [] |}
  | CallFetchBlocksDefault c ids =>
      {| call_op := FetchBlocks; call_args := [AStr c; ATuple ids]; call_kwargs := [] |}
  | CallFetchBlock c b f =>
      {| call_op := FetchBlock; call_args := [AStr c; AStr b; AStr f];
         call_kwargs := [] |}
  | CallFetchResponses c b ids =>
      {| call_op := FetchResponses; call_args := [AStr c; AStr b; ATuple ids];
         call_kwargs := [] |}
  end.

(** The sample conversation with its first block and that block's
    first response attached, as hydration leaves them. *)
Definition sample_tree : json :=
  JDict
    (Dict.set "blocks"
       (JList
          [JDict (Dict.set "responses"
                    (JList [JDict (Response.dict (sample_response "r1"))])
                    (Block.dict (sample_block "b1" ["r1"])))])
       (Conversation.dict sample_conversation)).

(** Request bodies that set nothing beyond what is required. *)
Definition sample_partial_conversation : PartialConversation.t :=
  {| PartialConversation.createdBy := sample_user;
     PartialConversation.status := None;
     PartialConversation.summaryText := None;
     PartialConversation.summaryType := None;
     PartialConversation.blockIds := None;
     PartialConversation.users := None;
     PartialConversation.session := None;
     PartialConversation.blocks := None |}.

Definition sample_partial_response : PartialResponse.t :=
  {| PartialResponse.source := "agent"; PartialResponse.responseType := "text";
     PartialResponse.payload := Some (JDict []);
     PartialResponse.requestedAt := None; PartialResponse.respondedAt := None |}.

(** A conversation is created and its block is given a first
    response: the world after that. *)
Definition after_first_response `{Deployment} : world :=
  after (create_response "c1" "b1" sample_partial_response "r1" 101
           (after (create_conversation "hello" sample_partial_conversation
                     "c1" "b1" 100 (start ∅)))).

(** ** Notions the properties are stated with *)

(** A field name without dots. *)
Definition dot_free (field : string) : Prop := Str.split "." field = [field].

(** The three entities and their default fields. *)
Inductive entity : Type := EConversation | EBlock | EResponse.

Definition default_fields_of (e : entity) : list string :=
  match e with
  | EConversation => default_conversation_fields
  | EBlock => default_block_fields
  | EResponse => default_response_fields
  end.

(** What one pair of [field_parts] adds to [filtered_data]. *)
Definition project_one
    (sub : list (string * (json * (list string -> list string -> result json))))
    (kn : string * list string) : result (list (string * json)) :=
  match Dict.get (fst kn) sub with
  | None => Ok []
  | Some (value, rec) =>
      if is_nil (snd kn) then Ok [(fst kn, value)]
      else result_map (fun r => [(fst kn, r)])
             (rec (default (@nil string) (Dict.get (fst kn) nested_default_fields))
                  (snd kn))
  end.

(** Projecting the result of a projection again changes nothing. *)
Definition idempotent_at `{SetOrder} (data : json) : Prop :=
  forall D A r,
    filter_nested_fields data D A = Ok r -> filter_nested_fields r D A = Ok r.

(** A request body for a block that sets its text only. *)
Definition sample_partial_block : PartialBlock.t :=
  {| PartialBlock.createdBy := None;
     PartialBlock.dict_exclude_unset := [("inputText", JStr "again")] |}.

(** The world after the sample conversation was created, and the
    block that was created with it. *)
Definition after_create `{Deployment} : world :=
  after (create_conversation "hello" sample_partial_conversation "c1" "b1" 100 (start ∅)).

Definition first_block : Block.t :=
  {| Block.id := "b1"; Block.inputText := "hello"; Block.responseIds := [];
     Block.createdBy := sample_user; Block.createdAt := 100; Block.responses := None |}.

Definition response_at (id : string) (time : Z) : Response.t :=
  {| Response.id := id; Response.source := "agent"; Response.responseType := "text";
     Response.payload := JDict []; Response.requestedAt := None;
     Response.respondedAt := Some time |}.

(** The keys a loop of gateway reads asks for: those of the list, in
    order, up to the first one that is not stored. *)
Fixpoint asked (b : gmap string json) (keys : list string) : list string :=
  match keys with
  | [] => []
  | key :: keys' =>
      key :: match b !! key with
             | Some _ => asked b keys'
             | None => []
             end
  end.

(** ** Listing conversations

    More of Python's strings, for the test on a listed key. *)

Module PyStr.

(** [s.endswith(p)]: some suffix of [s] is [p]. *)
Fixpoint endswith (p s : string) : bool :=
  String.eqb p s
  || match s with
     | EmptyString => false
     | String _ s' => endswith p s'
     end.

(** [s] without the prefix [p], when it starts with it. *)
Fixpoint strip_prefix (p s : string) : option string :=
  match p, s with
  | EmptyString, _ => Some s
  | String a p', String b s' => if Ascii.eqb a b then strip_prefix p' s' else None
  | String _ _, EmptyString => None
  end.

(** [s.removeprefix(p)]. *)
Definition removeprefix (p s : string) : string := default s (strip_prefix p s).

(** [s.count(c)] for a one-character [c]. *)
Fixpoint count (c : ascii) (s : string) : nat :=
  match s with
  | EmptyString => 0%nat
  | String a s' => ((if Ascii.eqb a c then 1 else 0) + count c s')%nat
  end.

End PyStr.

(** The test of [list_conversations] on a listed key. *)
Definition is_conversation_key `{Deployment} (key : string) : bool :=
  PyStr.endswith ".json" key
  && Nat.eqb
       (PyStr.count "/"
          (PyStr.removeprefix
             (bucket_base_folder +:+ "/" +:+ conversations_dir_name +:+ "/") key))
       0.

(** [fetch_blocks(conversation_id, block_ids)]: two positional
    arguments reach [hash_key], and [fields] takes its default. *)
Definition fetch_blocks_default `{Deployment} (conversation_id : string)
    (block_ids : list string) : M json :=
  let k := hash_key [AStr conversation_id; ATuple block_ids] [] in
  emit (Fetch FetchBlocks k) ;;;
  cached k
    (blocks <- for_each (fun block_id => fetch_block conversation_id block_id "")
                        block_ids ;;
     ret (JList blocks)).

(** An id read from a document.  Ids are strings, as the models
    declare them; anything else is outside the embedding and is taken
    to fail. *)
Definition py_id (v : json) : result string :=
  match v with
  | JStr s => Ok s
  | _ => Raise (Builtin TypeError)
  end.

(** The loop of [list_conversations] over the listed keys. *)
Fixpoint list_loop `{SetOrder} `{Deployment} (fields : option string)
    (keys : list string) (conversations : list json) : M (list json) :=
  match keys with
  | [] => ret conversations
  | key :: keys' =>
      if is_conversation_key key then
        conversation <- get_json_from_s3 key ;;
        id_v <- lift (py_getitem conversation "id") ;;
        conversation_id <- lift (py_id id_v) ;;
        ids_v <- lift (py_get conversation "blockIds" (JList [])) ;;
        ids <- lift (py_tuple ids_v) ;;
        blocks <- fetch_blocks_default conversation_id ids ;;
        conversation' <- lift (py_setitem conversation "blocks" blocks) ;;
        filtered <- lift (filter_nested_fields conversation' default_conversation_fields
                            (requested fields)) ;;
        list_loop fields keys' (conversations ++ [filtered])
      else list_loop fields keys' conversations
  end.

(** [contents] is what the bucket's listing under the conversations
    prefix answers: the keys of its [Contents], or none when the
    answer has no [Contents]. *)
Definition list_conversations `{SetOrder} `{Deployment}
    (contents : option (list string)) (fields : option string) : M json :=
  except_500
    (match contents with
     | Some keys => conversations <- list_loop fields keys [] ;; ret (JList conversations)
     | None => ret (JList [])
     end).

(** ** Every call of the API *)

Inductive api_call : Type :=
  | CreateConversation (query : string) (body : PartialConversation.t)
      (new_id new_block_id : string) (epoch_time : Z)
  | GetConversation (conversation_id : string) (fields : option string)
  | PutConversation (conversation_id : string) (body : Conversation.t)
  | DeleteConversation (conversation_id : string)
  | ListConversations (contents : option (list string)) (fields : option string)
  | CreateBlock (conversation_id : string) (body : PartialBlock.t)
      (new_id : string) (epoch_time : Z)
  | GetBlock (conversation_id block_id : string) (fields : option string)
  | PutBlock (conversation_id block_id : string) (body : Block.t)
  | DeleteBlock (conversation_id block_id : string)
  | CreateResponse (conversation_id block_id : string) (body : PartialResponse.t)
      (new_id : string) (epoch_time : Z)
  | GetResponse (conversation_id block_id response_id : string) (fields : option string)
  | PutResponse (conversation_id block_id response_id : string) (body : Response.t)
  | DeleteResponse (conversation_id block_id response_id : string).

(** A handler run for what it does, its answer forgotten. *)
Definition forget {A} (m : M A) : M unit :=
  fun w =>
    let o := m w in
    {| value := result_map (fun _ => tt) (value o); after := after o;
       events := events o |}.

Definition handle `{SetOrder} `{Deployment} (c : api_call) : M unit :=
  match c with
  | CreateConversation q body i j t => forget (create_conversation q body i j t)
  | GetConversation c f => forget (read_conversation c f)
  | PutConversation c body => forget (update_conversation c body)
  | DeleteConversation c => delete_conversation c
  | ListConversations keys f => forget (list_conversations keys f)
  | CreateBlock c body i t => forget (create_block c body i t)
  | GetBlock c b f => forget (read_block c b f)
  | PutBlock c b body => forget (update_block c b body)
  | DeleteBlock c b => delete_block c b
  | CreateResponse c b body i t => forget (create_response c b body i t)
  | GetResponse c b r f => forget (read_response c b r f)
  | PutResponse c b r body => forget (update_response c b r body)
  | DeleteResponse c b r => delete_response c b r
  end.

(** The world after a list of calls, whatever they answered. *)
Definition world_after_all `{SetOrder} `{Deployment} (calls : list api_call) (w : world)
  : world :=
  fold_left (fun w c => after (handle c w)) calls w.

(** The calls that are [GET] requests. *)
Definition is_read_call (c : api_call) : bool :=
  match c with
  | GetConversation _ _ | ListConversations _ _ | GetBlock _ _ _ | GetResponse _ _ _ _ =>
      true
  | _ => false
  end.

(** What a handler that only reads may do to the outside. *)
Definition is_read_event (ev : event) : bool :=
  match ev with
  | S3Get _ | Fetch _ _ => true
  | S3Put _ _ | S3Delete _ => false
  end.

Definition is_responses_fetch (ev : event) : bool :=
  match ev with
  | Fetch FetchResponses _ => true
  | _ => false
  end.

(** The bounds [TTLCache] keeps: at most [maxsize] entries, no key
    twice. *)
Definition cache_ok (entries : list cache_entry) : Prop :=
  (length entries <= maxsize)%nat /\ NoDup (entry_key <$> entries).

(** A computation keeps [R] between the world it starts in and the
    one it leaves, and does nothing to the outside but [P]. *)
Definition keeps {A} (R : world -> world -> Prop) (P : event -> Prop) (m : M A) : Prop :=
  forall w, R w (after (m w)) /\ Forall P (events (m w)).

Definition same_bucket (w w' : world) : Prop := bucket w' = bucket w.

Definition cache_stays_ok (w w' : world) : Prop :=
  cache_ok (cache w) -> cache_ok (cache w').

(** Every exception of a projection is a [TypeError]. *)
Definition raises_type_error `{SetOrder} (data : json) : Prop :=
  forall D A e, filter_nested_fields data D A = Raise e -> e = Builtin TypeError.

(** ** When the cache has no answer *)






(** ** Where the documents of a run come from *)

(** The events of a list of calls served one after the other. *)
Fixpoint run_events `{SetOrder} `{Deployment} (calls : list api_call) (w : world)
  : list event :=
  match calls with
  | [] => []
  | c :: calls' => events (handle c w) ++ run_events calls' (after (handle c w))
  end.

(** A document the bucket has held under a key: there at the start,
    or put since. *)
Definition seen (b0 : gmap string json) (evs : list event)
    (key : string) (doc : json) : Prop :=
  b0 !! key = Some doc \/ S3Put key doc ∈ evs.

Section From.
Context `{Deployment} (S : string -> json -> Prop).

(** One response per id, in the order of the ids, each a document
    held under the key of its id. *)
Definition responses_from (c b : string) (ids : list string) (v : json) : Prop :=
  exists rs,
    v = JList rs
    /\ Forall2 (fun id r => S (get_s3_key c (Some b) (Some id)) r) ids rs.

(** A document held under the key of the block, as it is or, when
    the selection asks for responses, with the responses of its own
    [responseIds] put under [responses]. *)
Definition block_from (c b f : string) (v : json) : Prop :=
  exists doc,
    S (get_s3_key c (Some b) None) doc
    /\ if wants_responses f then
         exists ids_v ids rs,
           py_get doc "responseIds" (JList []) = Ok ids_v
           /\ py_tuple ids_v = Ok ids
           /\ responses_from c b ids rs
           /\ py_setitem doc "responses" rs = Ok v
       else v = doc.

(** One block per id, in the order of the ids. *)
Definition blocks_from (c : string) (ids : list string) (f : string) (v : json) : Prop :=
  exists blks,
    v = JList blks /\ Forall2 (fun id blk => block_from c id f blk) ids blks.

(** What an entry of the cache holds, by the shape of its key. *)
Definition entry_from (k : cache_key) (v : json) : Prop :=
  match k with
  | ([AStr c; AStr b; ATuple ids], []) => responses_from c b ids v
  | ([AStr c; AStr b; AStr f], []) => block_from c b f v
  | ([AStr c; ATuple ids; AStr f], []) => blocks_from c ids f v
  | ([AStr c; ATuple ids], []) => blocks_from c ids "" v
  | _ => True
  end.

(** Every document of the bucket is in [S], and every entry of the
    cache is made of documents of [S], in the order of the ids of
    its key. *)
Definition sound (w : world) : Prop :=
  (forall key doc, bucket w !! key = Some doc -> S key doc)
  /\ forall e, e ∈ cache w -> entry_from (entry_key e) (entry_value e).

(** A computation keeps the world sound, provided what it puts is in
    [S], and what it returns has [Q]. *)
Definition tracks {A} (m : M A) (Q : A -> Prop) : Prop :=
  forall w,
    sound w ->
    (forall key doc, S3Put key doc ∈ events (m w) -> S key doc) ->
    sound (after (m w)) /\ forall a, value (m w) = Ok a -> Q a.
End From.

(** Two runs on the small bucket: one that reads, turns the order of
    the blocks of the conversation and reads a block; one that reads
    and turns the order of the responses of a block. *)
Definition sample_turned_conversation : Conversation.t :=
  {| Conversation.id := "c1"; Conversation.createdBy := sample_user;
     Conversation.createdAt := 5; Conversation.updatedAt := 5;
     Conversation.status := "OPEN"; Conversation.summaryText := Some "hello";
     Conversation.summaryType := Some "UNKNOWN";
     Conversation.blockIds := ["b2"; "b1"]; Conversation.blocks := None |}.

Definition sample_run_blocks_turned : list api_call :=
  [GetConversation "c1" (Some "blocks.responses");
   PutConversation "c1" sample_turned_conversation;
   GetBlock "c1" "b2" None].

Definition sample_run_responses_turned : list api_call :=
  [GetConversation "c1" (Some "blocks.responses");
   PutBlock "c1" "b1" (sample_block "b1" ["r2"; "r1"])].

(** * Properties *)

Lemma filter_nested_fields_dict `{SetOrder} entries D A :
  filter_nested_fields (JDict entries) D A
  = result_map JDict (project_items (sub_of entries) (field_parts D A) []).
Proof. reflexivity. Qed.

(** ** Dictionaries *)

Section DictFacts.
Context {V : Type}.
Implicit Types (d : list (string * V)) (k : string) (v : V).

Lemma get_set k k' v d :
  Dict.get k (Dict.set k' v d)
  = if String.eqb k k' then Some v else Dict.get k d.
Proof.
  induction d as [|[k0 v0] d IH]; simpl.
  - reflexivity.
  - destruct (String.eqb k' k0) eqn:E'; simpl.
    + apply String.eqb_eq in E' as ->.
      destruct (String.eqb k k0); reflexivity.
    + rewrite IH. destruct (String.eqb k k0) eqn:E; [|reflexivity].
      apply String.eqb_eq in E as ->.
      rewrite String.eqb_sym, E'. reflexivity.
Qed.

Lemma get_Some_keys k v d : Dict.get k d = Some v -> k ∈ Dict.keys d.
Proof.
  induction d as [|[k0 v0] d IH]; simpl; [discriminate|].
  destruct (String.eqb k k0) eqn:E.
  - apply String.eqb_eq in E as ->. intros _. left.
  - intros Hg. right. auto.
Qed.

Lemma get_None_keys k d : Dict.get k d = None <-> k ∉ Dict.keys d.
Proof.
  induction d as [|[k0 v0] d IH]; simpl.
  - split; [intros _ Hin; inversion Hin | reflexivity].
  - destruct (String.eqb k k0) eqn:E.
    + apply String.eqb_eq in E as ->. split; [discriminate|].
      intros Hn. exfalso. apply Hn. left.
    + apply String.eqb_neq in E. rewrite IH, not_elem_of_cons. tauto.
Qed.

Lemma set_fresh k v d : Dict.get k d = None -> Dict.set k v d = d ++ [(k, v)].
Proof.
  induction d as [|[k0 v0] d IH]; simpl; [reflexivity|].
  destruct (String.eqb k k0); [discriminate|].
  intros Hg. rewrite IH by exact Hg. reflexivity.
Qed.

Lemma keys_set k v d :
  Dict.keys (Dict.set k v d)
  = if Dict.mem k d then Dict.keys d else Dict.keys d ++ [k].
Proof.
  unfold Dict.mem, Dict.keys.
  induction d as [|[k0 v0] d IH]; simpl; [reflexivity|].
  destruct (String.eqb k k0) eqn:E; simpl; [reflexivity|].
  rewrite IH. destruct (Dict.get k d); reflexivity.
Qed.

Lemma NoDup_keys_set k v d :
  NoDup (Dict.keys d) -> NoDup (Dict.keys (Dict.set k v d)).
Proof.
  intros Hnd. rewrite keys_set. unfold Dict.mem.
  destruct (Dict.get k d) eqn:E; [exact Hnd|].
  apply NoDup_app. split; [exact Hnd|]. split.
  - intros x Hx Hx'. apply list_elem_of_singleton in Hx' as ->.
    apply get_None_keys in E. contradiction.
  - apply NoDup_singleton.
Qed.

Lemma get_app k d d' :
  Dict.get k (d ++ d')
  = match Dict.get k d with Some v => Some v | None => Dict.get k d' end.
Proof.
  induction d as [|[k0 v0] d IH]; simpl; [reflexivity|].
  destruct (String.eqb k k0); [reflexivity | exact IH].
Qed.
End DictFacts.

Lemma get_sub_of `{SetOrder} k entries :
  Dict.get k (sub_of entries)
  = (fun v => (v, recurse v)) <$> Dict.get k entries.
Proof.
  unfold sub_of. induction entries as [|[k0 v0] entries IH]; simpl.
  - reflexivity.
  - destruct (String.eqb k k0); [reflexivity | exact IH].
Qed.

(** ** Field lists without dotted paths *)

Lemma set_iter_elem_1 `{SetOrder} l x : x ∈ set_iter l -> x ∈ l.
Proof. apply set_iter_elem. Qed.

Lemma set_iter_elem_2 `{SetOrder} l x : x ∈ l -> x ∈ set_iter l.
Proof. apply set_iter_elem. Qed.

Lemma set_iter_nil `{SetOrder} : set_iter [] = [].
Proof.
  destruct (set_iter []) as [|x l] eqn:E; [reflexivity|].
  assert (x ∈ set_iter []) as Hx by (rewrite E; left).
  apply set_iter_elem_1 in Hx. inversion Hx.
Qed.

Lemma add_field_part_dot_free fp field :
  dot_free field -> Dict.get field fp = None ->
  add_field_part fp field = fp ++ [(field, [])].
Proof.
  intros Hd Hg. unfold add_field_part. rewrite Hd. simpl.
  unfold Dict.mem. rewrite Hg. apply set_fresh, Hg.
Qed.

Lemma fold_add_field_part_dot_free L : forall fp,
  Forall dot_free L -> NoDup L -> (forall f, f ∈ L -> Dict.get f fp = None) ->
  fold_left add_field_part L fp = fp ++ map (fun f => (f, [])) L.
Proof.
  induction L as [|f L IH]; intros fp HL Hnd Hfp; simpl.
  - by rewrite app_nil_r.
  - apply Forall_cons in HL as [Hf HL]. apply NoDup_cons in Hnd as [Hnf Hnd].
    rewrite add_field_part_dot_free by (auto; apply Hfp; left).
    rewrite IH; [by rewrite <- app_assoc | exact HL | exact Hnd |].
    intros g Hg. rewrite get_app, Hfp by (by right). simpl.
    destruct (String.eqb g f) eqn:E; [|reflexivity].
    apply String.eqb_eq in E as ->. contradiction.
Qed.

Lemma field_parts_defaults `{SetOrder} D :
  Forall dot_free D ->
  field_parts D [] = map (fun f => (f, [])) (set_iter (D ++ [])).
Proof.
  intros HD. unfold field_parts, include_fields.
  rewrite set_iter_nil. simpl. rewrite app_nil_r.
  rewrite fold_add_field_part_dot_free; try done.
  - apply Forall_forall. intros f Hf. apply set_iter_elem_1 in Hf.
    rewrite app_nil_r in Hf. rewrite Forall_forall in HD. by apply HD.
  - apply set_iter_NoDup.
Qed.

(** With no nested request every kept value is copied as it is. *)
Lemma project_items_verbatim sub L : forall acc,
  project_items sub (map (fun f => (f, [])) L) acc
  = Ok (fold_left
          (fun acc f =>
             match Dict.get f sub with
             | Some vr => Dict.set f (fst vr) acc
             | None => acc
             end) L acc).
Proof.
  induction L as [|f L IH]; intros acc; simpl; [reflexivity|].
  destruct (Dict.get f sub) as [[v r]|]; simpl; apply IH.
Qed.

Lemma get_fold_verbatim {R} (sub : list (string * (json * R))) k L : forall acc,
  Dict.get k
    (fold_left
       (fun acc f =>
          match Dict.get f sub with
          | Some vr => Dict.set f (fst vr) acc
          | None => acc
          end) L acc)
  = if decide (k ∈ L) then
      match Dict.get k sub with
      | Some vr => Some (fst vr)
      | None => Dict.get k acc
      end
    else Dict.get k acc.
Proof.
  induction L as [|f L IH]; intros acc; simpl.
  - destruct (decide (k ∈ [])) as [Hin|]; [inversion Hin | reflexivity].
  - rewrite IH. destruct (decide (k = f)) as [->|Hne].
    + rewrite (decide_True (P := f ∈ f :: L)) by left.
      destruct (Dict.get f sub) as [vr|] eqn:E.
      * destruct (decide (f ∈ L)); [reflexivity|].
        by rewrite get_set, String.eqb_refl.
      * by destruct (decide (f ∈ L)).
    + assert (Dict.get k (match Dict.get f sub with
                          | Some vr => Dict.set f (fst vr) acc
                          | None => acc end) = Dict.get k acc) as ->.
      { destruct (Dict.get f sub); [|reflexivity].
        rewrite get_set. apply String.eqb_neq in Hne. by rewrite Hne. }
      destruct (decide (k ∈ L)) as [Hin|Hnin].
      * by rewrite (decide_True (P := k ∈ f :: L)) by (by right).
      * rewrite (decide_False (P := k ∈ f :: L)); [reflexivity|].
        rewrite not_elem_of_cons. done.
Qed.

Lemma NoDup_fold_verbatim {R} (sub : list (string * (json * R))) L : forall acc,
  NoDup (Dict.keys acc) ->
  NoDup (Dict.keys
           (fold_left
              (fun acc f =>
                 match Dict.get f sub with
                 | Some vr => Dict.set f (fst vr) acc
                 | None => acc
                 end) L acc)).
Proof.
  induction L as [|f L IH]; intros acc Hnd; simpl; [exact Hnd|].
  apply IH. destruct (Dict.get f sub); [by apply NoDup_keys_set | exact Hnd].
Qed.

(** ** Default projection *)

Lemma default_fields_dot_free e : Forall dot_free (default_fields_of e).
Proof. destruct e; repeat constructor. Qed.

Lemma default_projection `{SetOrder} D entries :
  Forall dot_free D ->
  exists out,
    filter_nested_fields (JDict entries) D [] = Ok (JDict out)
    /\ NoDup (Dict.keys out)
    /\ forall k, Dict.get k out
                 = if decide (k ∈ D) then Dict.get k entries else None.
Proof.
  intros HD. rewrite filter_nested_fields_dict, field_parts_defaults by exact HD.
  rewrite project_items_verbatim. eexists. split; [reflexivity|]. split.
  - apply NoDup_fold_verbatim. constructor.
  - intros k. rewrite get_fold_verbatim, get_sub_of. simpl.
    destruct (decide (k ∈ set_iter (D ++ []))) as [Hin|Hnin].
    + apply set_iter_elem_1 in Hin. rewrite app_nil_r in Hin.
      rewrite decide_True by exact Hin.
      by destruct (Dict.get k entries).
    + rewrite decide_False; [reflexivity|]. intros Hin. apply Hnin.
      apply set_iter_elem_2. by rewrite app_nil_r.
Qed.

(** ** The third loop, key by key *)

Lemma project_items_collect sub fp : forall acc,
  NoDup (Dict.keys fp) ->
  (forall k, k ∈ Dict.keys fp -> Dict.get k acc = None) ->
  project_items sub fp acc
  = result_map (fun ls => acc ++ concat ls) (collect (map (project_one sub) fp)).
Proof.
  induction fp as [|[key nested] fp IH]; intros acc Hnd Hacc; simpl.
  - by rewrite app_nil_r.
  - simpl in Hnd. apply NoDup_cons in Hnd as [Hk Hnd].
    assert (forall v k, k ∈ Dict.keys fp ->
                        Dict.get k (Dict.set key v acc) = None) as Hacc'.
    { intros v k Hin. rewrite get_set.
      destruct (String.eqb k key) eqn:E.
      - apply String.eqb_eq in E as ->. contradiction.
      - apply Hacc. by right. }
    unfold project_one at 1. simpl.
    destruct (Dict.get key sub) as [[value rec]|]; simpl.
    + destruct (is_nil nested); simpl.
      * rewrite IH by auto. rewrite set_fresh by (apply Hacc; left).
        destruct (collect (map (project_one sub) fp)); simpl; [|reflexivity].
        by rewrite <- app_assoc.
      * destruct (rec _ nested) as [r|e]; simpl; [|reflexivity].
        rewrite IH by auto. rewrite set_fresh by (apply Hacc; left).
        destruct (collect (map (project_one sub) fp)); simpl; [|reflexivity].
        by rewrite <- app_assoc.
    + rewrite IH by (auto; intros; apply Hacc; by right).
      by destruct (collect (map (project_one sub) fp)).
Qed.

Lemma collect_Ok {A} (rs : list (result A)) xs :
  collect rs = Ok xs <-> Forall2 (fun r x => r = Ok x) rs xs.
Proof.
  revert xs. induction rs as [|r rs IH]; intros xs; simpl.
  - split.
    + intros [= <-]. constructor.
    + intros Hf. by inversion Hf.
  - destruct r as [a|e]; simpl.
    + destruct (collect rs) as [ys|e] eqn:E; simpl.
      * split.
        -- intros [= <-]. constructor; [reflexivity | by apply IH].
        -- intros Hf. inversion Hf as [|? x ? xs' Hx Hxs]; subst.
           apply IH in Hxs. by simplify_eq.
      * split; [discriminate|]. intros Hf.
        inversion Hf as [|? x ? xs' Hx Hxs]; subst.
        apply IH in Hxs. discriminate.
    + split; [discriminate|]. intros Hf. by inversion Hf.
Qed.

Lemma NoDup_keys_add_field_part fp field :
  NoDup (Dict.keys fp) -> NoDup (Dict.keys (add_field_part fp field)).
Proof.
  intros Hnd. unfold add_field_part.
  set (fp' := if Dict.mem _ fp then fp else Dict.set _ [] fp).
  assert (NoDup (Dict.keys fp')) as Hnd'.
  { unfold fp'. destruct (Dict.mem _ fp); [exact Hnd | by apply NoDup_keys_set]. }
  destruct (1 <? _)%nat; [|exact Hnd'].
  destruct (Dict.get _ fp'); [by apply NoDup_keys_set | exact Hnd'].
Qed.

Lemma NoDup_keys_field_parts `{SetOrder} D A : NoDup (Dict.keys (field_parts D A)).
Proof.
  unfold field_parts.
  assert (forall L fp, NoDup (Dict.keys fp) ->
                       NoDup (Dict.keys (fold_left add_field_part L fp))) as G.
  { induction L as [|f L IH]; intros fp Hfp; simpl; [exact Hfp|].
    apply IH. by apply NoDup_keys_add_field_part. }
  apply G. constructor.
Qed.

Lemma filter_nested_fields_collect `{SetOrder} entries D A :
  filter_nested_fields (JDict entries) D A
  = result_map (fun ls => JDict (concat ls))
      (collect (map (project_one (sub_of entries)) (field_parts D A))).
Proof.
  rewrite filter_nested_fields_dict, project_items_collect.
  - by destruct (collect _).
  - apply NoDup_keys_field_parts.
  - reflexivity.
Qed.

Lemma filter_nested_fields_is_dict `{SetOrder} data D A r :
  filter_nested_fields data D A = Ok r -> exists out, r = JDict out.
Proof.
  destruct data; simpl.
  1-3: destruct (is_nil _); intros [= <-]; eauto.
  1-2: destruct (existsb _ _); intros [= <-]; eauto.
  destruct (project_items _ _ _); simpl; intros [= <-]; eauto.
Qed.

(** ** Idempotence of the projector *)

Lemma project_items_no_entries `{SetOrder} fp : forall acc,
  project_items (sub_of []) fp acc = Ok acc.
Proof. induction fp as [|[k n] fp IH]; intros acc; simpl; [reflexivity | apply IH]. Qed.

Lemma filter_nested_fields_empty_dict `{SetOrder} D A :
  filter_nested_fields (JDict []) D A = Ok (JDict []).
Proof. by rewrite filter_nested_fields_dict, project_items_no_entries. Qed.

Lemma idempotent_at_scalar `{SetOrder} data :
  match data with JDict _ => False | _ => True end -> idempotent_at data.
Proof.
  intros Hd D A r Hr.
  assert (r = JDict []) as ->; [|apply filter_nested_fields_empty_dict].
  destruct data; simpl in Hr; try contradiction.
  1-3: destruct (is_nil _); by simplify_eq.
  1-2: destruct (existsb _ _); by simplify_eq.
Qed.

Lemma project_one_shape sub kn l :
  project_one sub kn = Ok l -> l = [] \/ exists r, l = [(fst kn, r)].
Proof.
  unfold project_one. destruct (Dict.get (fst kn) sub) as [[v rec]|].
  - destruct (is_nil (snd kn)).
    + intros [= <-]. eauto.
    + destruct (rec _ _); simpl; intros [= <-]. eauto.
  - intros [= <-]. by left.
Qed.

Lemma get_concat_projected (fp : list (string * list string))
    (ls : list (list (string * json))) :
  Forall2 (fun kn l => l = [] \/ exists r, l = [(fst kn, r)]) fp ls ->
  forall pre,
    NoDup (Dict.keys fp) ->
    (forall k, k ∈ Dict.keys fp -> Dict.get k pre = None) ->
    Forall2 (fun kn l =>
               Dict.get (fst kn) (pre ++ concat ls)
               = match l with [] => None | kr :: _ => Some (snd kr) end)
            fp ls.
Proof.
  induction 1 as [|kn l fp ls Hl Hrest IH]; intros pre Hnd Hpre; [constructor|].
  simpl in Hnd. apply NoDup_cons in Hnd as [Hk Hnd].
  assert (forall k, k ∈ Dict.keys fp -> Dict.get k (pre ++ l) = None) as Hpre'.
  { intros k Hin. rewrite get_app, Hpre by (by right).
    destruct Hl as [->|[r ->]]; [reflexivity|]. simpl.
    destruct (String.eqb k (fst kn)) eqn:E; [|reflexivity].
    apply String.eqb_eq in E as ->. contradiction. }
  constructor.
  - simpl. rewrite get_app, Hpre by left. rewrite get_app.
    destruct Hl as [->|[r ->]]; simpl.
    + specialize (IH (pre ++ []) Hnd).
      destruct (Dict.get (fst kn) (concat ls)) as [v|] eqn:E; [|reflexivity].
      exfalso. apply get_Some_keys in E. clear IH Hpre Hpre'.
      induction Hrest as [|kn' l' fp ls Hl' Hrest IH']; [inversion E|].
      simpl in *. apply not_elem_of_cons in Hk as [Hne Hk].
      apply NoDup_cons in Hnd as [_ Hnd].
      unfold Dict.keys in E. rewrite map_app in E.
      apply elem_of_app in E as [E|E]; [|by apply IH'].
      destruct Hl' as [->|[r ->]]; [inversion E|].
      simpl in E. apply list_elem_of_singleton in E. congruence.
    + by rewrite String.eqb_refl.
  - simpl. specialize (IH (pre ++ l) Hnd Hpre').
    eapply Forall2_impl; [exact IH|]. intros kn' l'. simpl.
    by rewrite <- app_assoc.
Qed.

Lemma Forall2_conj {A B} (P Q : A -> B -> Prop) xs ys :
  Forall2 P xs ys -> Forall2 Q xs ys -> Forall2 (fun x y => P x y /\ Q x y) xs ys.
Proof.
  intros HP. induction HP; intros HQ; inversion HQ; subst; constructor; auto.
Qed.

Lemma recurse_not_list `{SetOrder} value D A :
  match value with JList _ => False | _ => True end ->
  recurse value D A = filter_nested_fields value D A.
Proof. by destruct value. Qed.

Lemma recurse_idempotent `{SetOrder} value D A r :
  idempotent_at value ->
  match value with JList items => Forall idempotent_at items | _ => True end ->
  recurse value D A = Ok r -> recurse r D A = Ok r.
Proof.
  intros Hv Hitems Hr.
  destruct value as [| | | |items|entries].
  1-4,6: rewrite recurse_not_list in Hr by exact I;
         destruct (filter_nested_fields_is_dict _ _ _ _ Hr) as [out ->];
         by apply Hv in Hr.
  simpl in Hr.
  destruct (collect _) as [items'|] eqn:E; simpl in Hr; [|discriminate].
  injection Hr as <-. simpl.
  apply collect_Ok, Forall2_fmap_l in E.
  assert (collect (map (fun item => filter_nested_fields item D A) items')
          = Ok items') as ->; [|reflexivity].
  apply collect_Ok, Forall2_fmap_l.
  clear Hv. induction E as [|item item' items items' Hi E IH].
  - constructor.
  - apply Forall_cons in Hitems as [Hit Hitems]. constructor; [|by apply IH].
    by apply Hit.
Qed.

Lemma filter_nested_fields_idempotent `{SetOrder} data : idempotent_at data.
Proof.
  cut (idempotent_at data
       /\ match data with JList items => Forall idempotent_at items | _ => True end).
  { tauto. }
  induction data as [| | | |items IH|entries IH] using json_ind.
  1-4: split; [by apply idempotent_at_scalar | exact I].
  - split; [by apply idempotent_at_scalar|].
    eapply Forall_impl; [exact IH|]. simpl. tauto.
  - split; [|exact I]. intros D A r.
    rewrite filter_nested_fields_collect.
    destruct (collect _) as [ls|] eqn:E; simpl; [|discriminate].
    intros [= <-]. rewrite filter_nested_fields_collect.
    assert (collect (map (project_one (sub_of (concat ls))) (field_parts D A))
            = Ok ls) as ->; [|reflexivity].
    apply collect_Ok, Forall2_fmap_l in E.
    apply collect_Ok, Forall2_fmap_l.
    assert (Forall2 (fun kn l => l = [] \/ exists r, l = [(fst kn, r)])
              (field_parts D A) ls) as Hshape.
    { eapply Forall2_impl; [exact E|]. intros kn l. apply project_one_shape. }
    pose proof (get_concat_projected _ _ Hshape []
                  (NoDup_keys_field_parts D A) (fun _ _ => eq_refl)) as Hget.
    simpl in Hget.
    eapply Forall2_impl; [exact (Forall2_conj _ _ _ _ E Hget)|].
    intros [key nested] l [H1 H2]. simpl in *.
    unfold project_one in *. simpl in *.
    rewrite get_sub_of in *. rewrite H2.
    destruct (Dict.get key entries) as [value|] eqn:Ev; simpl in H1.
    + assert (idempotent_at value
              /\ match value with
                 | JList items => Forall idempotent_at items
                 | _ => True
                 end) as [Hv Hitems].
      { rewrite Forall_forall in IH.
        assert ((key, value) ∈ entries) as Hin.
        { clear -Ev. induction entries as [|[k0 v0] entries IHe]; [discriminate|].
          simpl in Ev. destruct (String.eqb key k0) eqn:E.
          - apply String.eqb_eq in E as ->. injection Ev as ->. left.
          - right. auto. }
        apply (IH _ Hin). }
      destruct (is_nil nested).
      * injection H1 as <-. reflexivity.
      * destruct (recurse value _ nested) as [r|] eqn:Er; simpl in H1; [|discriminate].
        injection H1 as <-. simpl.
        by rewrite (recurse_idempotent _ _ _ _ Hv Hitems Er).
    + injection H1 as <-. reflexivity.
Qed.

Arguments filter_nested_fields : simpl never.

(** ** The cache under a bucket that does not change *)

Lemma find_entry_Some k entries e :
  find_entry k entries = Some e -> e ∈ entries /\ entry_key e = k.
Proof.
  induction entries as [|e0 entries IH]; simpl; [discriminate|].
  destruct (decide (entry_key e0 = k)) as [Hk|Hk].
  - intros [= <-]. split; [left | exact Hk].
  - intros Hf. destruct (IH Hf). split; [by right | done].
Qed.

Lemma find_entry_None k entries :
  find_entry k entries = None <-> forall e, e ∈ entries -> entry_key e <> k.
Proof.
  induction entries as [|e0 entries IH]; simpl.
  - split; [intros _ e He; inversion He | reflexivity].
  - destruct (decide (entry_key e0 = k)) as [Hk|Hk].
    + split; [discriminate|]. intros Hall. exfalso. apply (Hall e0); [left | exact Hk].
    + rewrite IH. split.
      * intros Hall e He. apply elem_of_cons in He as [->|He]; auto.
      * intros Hall e He. apply Hall. by right.
Qed.

Lemma elem_of_drop_entry k entries e : e ∈ drop_entry k entries -> e ∈ entries.
Proof. unfold drop_entry. rewrite list_elem_of_filter. tauto. Qed.

Lemma elem_of_make_room k entries e : e ∈ make_room k entries -> e ∈ entries.
Proof.
  unfold make_room. destruct (find_entry k entries); [done|].
  apply subseteq_drop.
Qed.

Lemma elem_of_expire now entries e : e ∈ expire now entries -> e ∈ entries.
Proof. unfold expire. rewrite list_elem_of_filter. tauto. Qed.

Lemma cache_getitem_spec k w :
  bucket (snd (cache_getitem k w)) = bucket w
  /\ (forall e, e ∈ cache (snd (cache_getitem k w)) -> e ∈ cache w)
  /\ (forall v, fst (cache_getitem k w) = Some v ->
                exists e, e ∈ cache w /\ entry_key e = k /\ entry_value e = v).
Proof.
  unfold cache_getitem. destruct (find_entry k (cache w)) as [e|] eqn:E; simpl.
  - apply find_entry_Some in E as [He Hk]. split; [reflexivity|]. split.
    + intros e' He'. apply elem_of_app in He' as [He'|He'].
      * by apply elem_of_drop_entry in He'.
      * by apply list_elem_of_singleton in He' as ->.
    + intros v. destruct (_ <? _); [|discriminate]. intros [= <-]. eauto.
  - split; [reflexivity|]. split; [done | discriminate].
Qed.

Lemma cache_setitem_spec k v w :
  bucket (cache_setitem k v w) = bucket w
  /\ forall e, e ∈ cache (cache_setitem k v w) ->
               e ∈ cache w \/ (entry_key e = k /\ entry_value e = v).
Proof.
  unfold cache_setitem. simpl. split; [reflexivity|].
  intros e He. apply elem_of_app in He as [He|He].
  - left. by apply elem_of_drop_entry, elem_of_make_room, elem_of_expire in He.
  - apply list_elem_of_singleton in He as ->. by right.
Qed.

Section Agreement.
Context `{Deployment}.

Lemma coherent_getitem k w : coherent w -> coherent (snd (cache_getitem k w)).
Proof.
  intros Hc e r He. destruct (cache_getitem_spec k w) as (Hb & Hsub & _).
  rewrite Hb. apply Hc. by apply Hsub.
Qed.

Lemma coherent_setitem k v w r :
  coherent w -> key_meaning (bucket w) k = Some r -> r = Ok v ->
  coherent (cache_setitem k v w).
Proof.
  intros Hc Hk Hr e r' He. destruct (cache_setitem_spec k v w) as (Hb & Hsub).
  rewrite Hb. apply Hsub in He as [He|[-> ->]].
  - by apply Hc.
  - rewrite Hk. intros [= <-]. exact Hr.
Qed.

Lemma agrees_ret {A} (a : A) : agrees (ret a) (fun _ => Ok a).
Proof. intros w Hc. done. Qed.

Lemma agrees_lift {A} (r : result A) : agrees (lift r) (fun _ => r).
Proof. intros w Hc. by destruct r. Qed.

Lemma agrees_emit ev : agrees (emit ev) (fun _ => Ok tt).
Proof. intros w Hc. done. Qed.

Lemma agrees_bind {A B} (m : M A) (k : A -> M B) r r' :
  agrees m r -> (forall a, agrees (k a) (r' a)) ->
  agrees (bind m k) (fun b => result_bind (r b) (fun a => r' a b)).
Proof.
  intros Hm Hk w Hc. destruct (Hm w Hc) as (Hv & Hb & Hc').
  unfold bind. rewrite Hv. destruct (r (bucket w)) as [a|e]; simpl.
  - destruct (Hk a _ Hc') as (Hv' & Hb' & Hc''). rewrite Hb in *. done.
  - done.
Qed.

Lemma agrees_ext {A} (m : M A) r r' :
  (forall b, r b = r' b) -> agrees m r -> agrees m r'.
Proof. intros Hext Hm w Hc. rewrite <- Hext. by apply Hm. Qed.

Lemma agrees_get key : agrees (get_json_from_s3 key) (fun b => stored_doc b key).
Proof. intros w Hc. done. Qed.

Lemma agrees_for_each {A B} (f : A -> M B) r xs :
  (forall x, agrees (f x) (r x)) ->
  agrees (for_each f xs) (fun b => collect (map (fun x => r x b) xs)).
Proof.
  intros Hf. induction xs as [|x xs IH]; simpl.
  - apply agrees_ret.
  - eapply agrees_ext; [|apply agrees_bind; [apply Hf|]; intros y;
                          apply agrees_bind; [apply IH|]; intros ys;
                          apply agrees_ret].
    intros b. simpl. destruct (r x b); simpl; [|reflexivity].
    by destruct (collect _).
Qed.

Lemma agrees_cached k body r :
  (forall b, key_meaning b k = Some (r b)) ->
  agrees body r -> agrees (cached k body) r.
Proof.
  intros Hk Hbody w Hc. unfold cached.
  destruct (cache_getitem_spec k w) as (Hb & Hsub & Hhit).
  pose proof (coherent_getitem k w Hc) as Hc'.
  destruct (cache_getitem k w) as [[v|] w']; simpl in *.
  - destruct (Hhit v eq_refl) as (e & He & Hek & Hev).
    split; [|done]. symmetry. rewrite <- Hev. apply (Hc e); [done|].
    by rewrite Hek.
  - destruct (Hbody w' Hc') as (Hv & Hb' & Hc'').
    destruct (value (body w')) as [v|e] eqn:E; simpl.
    + split; [by rewrite <- Hb|]. split; [congruence|].
      eapply coherent_setitem; [done | apply Hk|]. by rewrite Hb'.
    + rewrite E. split; [by rewrite <- Hb|]. split; [congruence | done].
Qed.

Lemma agrees_except_500 {A} (m : M A) r :
  agrees m r -> agrees (except_500 m) (fun b => wrap_500 (r b)).
Proof.
  intros Hm w Hc. destruct (Hm w Hc) as (Hv & Hb & Hc').
  unfold except_500. rewrite <- Hv.
  destruct (value (m w)) as [a|e] eqn:E; simpl; [by rewrite E | done].
Qed.

Lemma agrees_fetch_responses c bl ids :
  agrees (fetch_responses c bl ids) (fun b => stored_responses b c bl ids).
Proof.
  unfold fetch_responses.
  eapply agrees_ext; [|apply agrees_bind; [apply agrees_emit|]; intros ?;
                        apply agrees_cached with (r := fun b => stored_responses b c bl ids);
                        [reflexivity|]].
  - reflexivity.
  - eapply agrees_ext; [|apply agrees_bind;
                          [apply agrees_for_each; intros x; apply agrees_get|];
                          intros rs; apply agrees_ret].
    reflexivity.
Qed.

Lemma agrees_fetch_block c bl f :
  agrees (fetch_block c bl f) (fun b => stored_block b c bl f).
Proof.
  unfold fetch_block.
  eapply agrees_ext; [|apply agrees_bind; [apply agrees_emit|]; intros ?;
                        apply agrees_cached with (r := fun b => stored_block b c bl f);
                        [reflexivity|]].
  - reflexivity.
  - unfold stored_block. apply agrees_bind; [apply agrees_get|].
    intros block. destruct (wants_responses f); [|apply agrees_ret].
    apply agrees_bind; [apply agrees_lift|]. intros ids_v.
    apply agrees_bind; [apply agrees_lift|]. intros ids.
    apply agrees_bind; [apply agrees_fetch_responses|]. intros rs.
    apply agrees_lift.
Qed.

Lemma agrees_fetch_blocks c ids f :
  agrees (fetch_blocks c ids f) (fun b => stored_blocks b c ids f).
Proof.
  unfold fetch_blocks.
  eapply agrees_ext; [|apply agrees_bind; [apply agrees_emit|]; intros ?;
                        apply agrees_cached with (r := fun b => stored_blocks b c ids f);
                        [reflexivity|]].
  - reflexivity.
  - eapply agrees_ext; [|apply agrees_bind;
                          [apply agrees_for_each; intros x; apply agrees_fetch_block|];
                          intros rs; apply agrees_ret].
    reflexivity.
Qed.

Context `{SetOrder}.

Lemma agrees_read_conversation c fields :
  agrees (read_conversation c fields) (fun b => stored_conversation b c fields).
Proof.
  unfold read_conversation, stored_conversation.
  apply agrees_except_500.
  apply agrees_bind; [apply agrees_get|]. intros conversation.
  apply agrees_bind; [|intros conversation'; apply agrees_lift].
  destruct (wants_blocks fields); [|apply agrees_ret].
  apply agrees_bind; [apply agrees_lift|]. intros ids_v.
  apply agrees_bind; [apply agrees_lift|]. intros ids.
  apply agrees_bind; [apply agrees_fetch_blocks|]. intros blocks.
  apply agrees_lift.
Qed.

Lemma agrees_read_block c bl fields :
  agrees (read_block c bl fields) (fun b => stored_block_read b c bl fields).
Proof.
  unfold read_block, stored_block_read.
  apply agrees_bind; [apply agrees_get|]. intros block.
  apply agrees_bind; [apply agrees_lift|]. intros ids_v.
  apply agrees_bind; [apply agrees_lift|]. intros ids.
  apply agrees_bind; [apply agrees_fetch_responses|]. intros rs.
  apply agrees_bind; [apply agrees_lift|]. intros block'.
  apply agrees_lift.
Qed.

Lemma agrees_read_response c bl r fields :
  agrees (read_response c bl r fields)
         (fun b => stored_response_read b c bl r fields).
Proof.
  unfold read_response, stored_response_read.
  apply agrees_bind; [apply agrees_get|]. intros response.
  apply agrees_lift.
Qed.

Lemma coherent_serve rq w : coherent w ->
  coherent (after (serve rq w)) /\ bucket (after (serve rq w)) = bucket w.
Proof.
  intros Hc. destruct rq as [c f|c bl f|c bl r f]; simpl.
  - destruct (agrees_read_conversation c f w Hc) as (_ & ? & ?). done.
  - destruct (agrees_read_block c bl f w Hc) as (_ & ? & ?). done.
  - destruct (agrees_read_response c bl r f w Hc) as (_ & ? & ?). done.
Qed.

Lemma coherent_after_reads rqs : forall w,
  coherent w ->
  coherent (after_reads rqs w) /\ bucket (after_reads rqs w) = bucket w.
Proof.
  induction rqs as [|rq rqs IH]; intros w Hc; simpl; [done|].
  destruct (coherent_serve rq w Hc) as [Hc' Hb].
  destruct (IH _ Hc') as [Hc'' Hb']. split; [done | congruence].
Qed.

Lemma coherent_cold w : cache w = [] -> coherent w.
Proof. intros Hc e r He. rewrite Hc in He. inversion He. Qed.
End Agreement.

(** ** Strings: prefixes, pieces and substrings *)

Lemma prefix_nil s : String.prefix "" s = true.
Proof. by destruct s. Qed.

Lemma prefix_cons a p b s :
  String.prefix (String a p) (String b s) = true <-> a = b /\ String.prefix p s = true.
Proof.
  simpl. destruct (Ascii.ascii_dec a b) as [->|Hne].
  - tauto.
  - split; [discriminate | intros [? _]; contradiction].
Qed.

Lemma prefix_trans p q s :
  String.prefix p q = true -> String.prefix q s = true -> String.prefix p s = true.
Proof.
  revert q s. induction p as [|a p IH]; intros q s Hpq Hqs; [apply prefix_nil|].
  destruct q as [|b q]; [discriminate|]. destruct s as [|c s]; [discriminate|].
  apply prefix_cons in Hpq as [-> Hpq]. apply prefix_cons in Hqs as [-> Hqs].
  apply prefix_cons. eauto.
Qed.

Lemma contains_prefix p s : String.prefix p s = true -> Str.contains p s = true.
Proof. intros Hp. destruct s; simpl in *; by rewrite Hp. Qed.

Lemma contains_cons p a s : Str.contains p s = true -> Str.contains p (String a s) = true.
Proof. intros Hp. cbn [Str.contains]. rewrite Hp. apply orb_true_r. Qed.

Lemma contains_prefix_trans p q s :
  String.prefix p q = true -> Str.contains q s = true -> Str.contains p s = true.
Proof.
  intros Hpq. induction s as [|a s IH]; cbn [Str.contains]; intros Hq.
  - rewrite orb_false_r in *. rewrite (prefix_trans _ _ _ Hpq Hq). reflexivity.
  - apply orb_true_iff in Hq as [Hq|Hq].
    + by rewrite (prefix_trans _ _ _ Hpq Hq).
    + rewrite (IH Hq). apply orb_true_r.
Qed.

Lemma split_nonempty sep s : Str.split sep s <> [].
Proof.
  destruct s as [|c s]; simpl; [discriminate|].
  destruct (Ascii.eqb c sep); [discriminate|].
  by destruct (Str.split sep s).
Qed.

(** The first piece is a prefix of the string. *)
Lemma split_head_prefix sep s : String.prefix (hd "" (Str.split sep s)) s = true.
Proof.
  induction s as [|c s IH]; simpl; [reflexivity|].
  destruct (Ascii.eqb c sep); simpl; [reflexivity|].
  destruct (Str.split sep s) as [|p ps] eqn:E; simpl in *.
  - by destruct (split_nonempty sep s).
  - apply prefix_cons. done.
Qed.

(** What starts a piece occurs in the string. *)
Lemma split_piece_contains sep p s piece :
  piece ∈ Str.split sep s -> String.prefix p piece = true -> Str.contains p s = true.
Proof.
  revert piece. induction s as [|c s IH]; intros piece; simpl Str.split.
  - intros Hin Hp. apply list_elem_of_singleton in Hin as ->.
    by apply contains_prefix.
  - destruct (Ascii.eqb c sep).
    + intros Hin Hp. apply elem_of_cons in Hin as [->|Hin].
      * destruct p; [|discriminate]. apply contains_prefix, prefix_nil.
      * apply contains_cons. eauto.
    + pose proof (split_head_prefix sep s) as Hhd.
      destruct (Str.split sep s) as [|p0 ps] eqn:E.
      { by destruct (split_nonempty sep s). }
      simpl in Hhd. intros Hin Hp. apply elem_of_cons in Hin as [->|Hin].
      * apply contains_prefix. eapply prefix_trans; [exact Hp|].
        apply prefix_cons. done.
      * apply contains_cons. apply (IH piece); [by right | done].
Qed.

Lemma head_part_prefix field : String.prefix (head_part field) field = true.
Proof. apply split_head_prefix. Qed.

(** The test of [read_conversation] is a substring test: the second
    disjunct never adds anything. *)
Lemma wants_blocks_contains fields :
  wants_blocks (Some fields) = Str.contains "blocks" fields.
Proof.
  unfold wants_blocks. destruct (Str.contains "blocks" fields) eqn:E.
  - rewrite orb_true_l, andb_true_r. unfold Str.truthy.
    destruct fields; [discriminate | reflexivity].
  - rewrite orb_false_l.
    destruct (existsb _ _) eqn:Ex; [|apply andb_false_r].
    apply existsb_exists in Ex as (piece & Hin & Hp).
    apply list_elem_of_In in Hin.
    assert (Str.contains "blocks" fields = true); [|congruence].
    eapply split_piece_contains; [exact Hin|].
    eapply prefix_trans; [|exact Hp]. reflexivity.
Qed.

Lemma wants_responses_contains fields :
  wants_responses fields
  = Str.contains "blocks.responses" fields
    || existsb (Str.startswith "blocks.responses.") (Str.split "," fields).
Proof.
  unfold wants_responses. destruct fields; [reflexivity|]. reflexivity.
Qed.

(** ** What the projector keeps under a key *)

Lemma keys_set_incl {V} k (v : V) d k' :
  k' ∈ Dict.keys d -> k' ∈ Dict.keys (Dict.set k v d).
Proof.
  rewrite keys_set. destruct (Dict.mem k d); [done|].
  intros Hin. apply elem_of_app. by left.
Qed.

Lemma keys_set_self {V} k (v : V) d : k ∈ Dict.keys (Dict.set k v d).
Proof.
  rewrite keys_set. unfold Dict.mem. destruct (Dict.get k d) eqn:E.
  - by apply get_Some_keys in E.
  - apply elem_of_app. right. left.
Qed.

Lemma keys_add_field_part fp field :
  head_part field ∈ Dict.keys (add_field_part fp field)
  /\ forall k, k ∈ Dict.keys fp -> k ∈ Dict.keys (add_field_part fp field).
Proof.
  unfold add_field_part, head_part.
  set (p0 := hd "" (Str.split "." field)).
  set (fp' := if Dict.mem p0 fp then fp else Dict.set p0 [] fp).
  assert (p0 ∈ Dict.keys fp' /\ forall k, k ∈ Dict.keys fp -> k ∈ Dict.keys fp')
    as [H1 H2].
  { unfold fp', Dict.mem. destruct (Dict.get p0 fp) eqn:E.
    - split; [by apply get_Some_keys in E | done].
    - split; [apply keys_set_self | intros k; apply keys_set_incl]. }
  destruct (1 <? _)%nat; [|done].
  destruct (Dict.get p0 fp'); [|done]. split.
  - apply keys_set_self.
  - intros k Hk. by apply keys_set_incl, H2.
Qed.

Lemma keys_fold_add_field_part L : forall fp f,
  f ∈ L -> head_part f ∈ Dict.keys (fold_left add_field_part L fp).
Proof.
  assert (forall L fp k, k ∈ Dict.keys fp ->
                         k ∈ Dict.keys (fold_left add_field_part L fp)) as Hincl.
  { induction L0 as [|g L0 IH]; intros fp k Hk; simpl; [done|].
    apply IH. by apply keys_add_field_part. }
  induction L as [|g L IH]; intros fp f Hf; simpl; [inversion Hf|].
  apply elem_of_cons in Hf as [->|Hf].
  - apply Hincl. apply (proj1 (keys_add_field_part fp g)).
  - by apply IH.
Qed.

Lemma field_parts_requested `{SetOrder} D A field :
  field ∈ A -> exists nested, Dict.get (head_part field) (field_parts D A) = Some nested.
Proof.
  intros Hin. unfold field_parts.
  destruct (Dict.get _ _) as [nested|] eqn:E; [eauto|].
  apply get_None_keys in E. exfalso. apply E.
  apply keys_fold_add_field_part, set_iter_elem_2, elem_of_app. by right.
Qed.

Lemma get_Some_lookup {V} k (v : V) d :
  Dict.get k d = Some v -> exists i, d !! i = Some (k, v).
Proof.
  induction d as [|[k0 v0] d IH]; simpl; [discriminate|].
  destruct (String.eqb k k0) eqn:E.
  - apply String.eqb_eq in E as ->. intros [= <-]. by exists 0%nat.
  - intros Hg. destruct (IH Hg) as [i Hi]. by exists (S i).
Qed.

Lemma projected_lookups `{SetOrder} entries D A out :
  filter_nested_fields (JDict entries) D A = Ok (JDict out) ->
  exists ls,
    out = concat ls
    /\ Forall2 (fun kn l =>
                  project_one (sub_of entries) kn = Ok l
                  /\ Dict.get (fst kn) out
                     = match l with [] => None | kr :: _ => Some (snd kr) end)
               (field_parts D A) ls.
Proof.
  rewrite filter_nested_fields_collect.
  destruct (collect _) as [ls|] eqn:E; simpl; [|discriminate].
  intros [= <-]. exists ls. split; [reflexivity|].
  apply collect_Ok, Forall2_fmap_l in E.
  assert (Forall2 (fun kn l => l = [] \/ exists r, l = [(fst kn, r)])
            (field_parts D A) ls) as Hshape.
  { eapply Forall2_impl; [exact E|]. intros kn l. apply project_one_shape. }
  pose proof (get_concat_projected _ _ Hshape []
                (NoDup_keys_field_parts D A) (fun _ _ => eq_refl)) as Hget.
  by apply Forall2_conj.
Qed.

Lemma filter_nested_fields_lookup `{SetOrder} entries D A out key nested value :
  filter_nested_fields (JDict entries) D A = Ok (JDict out) ->
  Dict.get key (field_parts D A) = Some nested ->
  Dict.get key entries = Some value ->
  exists v,
    Dict.get key out = Some v
    /\ (if is_nil nested then Ok value
        else recurse value (default (@nil string) (Dict.get key nested_default_fields))
                     nested) = Ok v.
Proof.
  intros Hf Hfp Hv. destruct (projected_lookups _ _ _ _ Hf) as (ls & -> & Hall).
  apply get_Some_lookup in Hfp as [i Hi].
  destruct (Forall2_lookup_l _ _ _ _ _ Hall Hi) as (l & Hl & Hone & Hget).
  simpl in *. rewrite Hget. unfold project_one in Hone. simpl in Hone.
  rewrite get_sub_of, Hv in Hone. simpl in Hone.
  destruct (is_nil nested).
  - injection Hone as <-. eauto.
  - destruct (recurse value _ nested) as [r|]; simpl in Hone; [|discriminate].
    injection Hone as <-. eauto.
Qed.

Lemma get_concat_Some {V} k (v : V) (ls : list (list (string * V))) :
  Dict.get k (concat ls) = Some v -> exists i l, ls !! i = Some l /\ k ∈ Dict.keys l.
Proof.
  induction ls as [|l ls IH]; simpl; [discriminate|].
  rewrite get_app. destruct (Dict.get k l) eqn:E.
  - intros _. exists 0%nat, l. split; [done|]. by apply get_Some_keys in E.
  - intros Hg. destruct (IH Hg) as (i & l' & Hi & Hk). by exists (S i), l'.
Qed.

Lemma filter_nested_fields_source `{SetOrder} entries D A out k v :
  filter_nested_fields (JDict entries) D A = Ok (JDict out) ->
  Dict.get k out = Some v ->
  exists value,
    Dict.get k entries = Some value
    /\ (v = value \/ exists D' A', recurse value D' A' = Ok v).
Proof.
  intros Hf Hv. destruct (projected_lookups _ _ _ _ Hf) as (ls & -> & Hall).
  destruct (get_concat_Some _ _ _ Hv) as (i & l & Hi & Hk).
  destruct (Forall2_lookup_r _ _ _ _ _ Hall Hi) as ([key nested] & Hfp & Hone & Hget).
  simpl in *. unfold project_one in Hone. simpl in Hone. rewrite get_sub_of in Hone.
  destruct (Dict.get key entries) as [value|] eqn:Ev; simpl in Hone.
  - destruct (is_nil nested).
    + injection Hone as <-. simpl in Hk. apply list_elem_of_singleton in Hk as ->.
      simpl in Hget. exists value. split; [done|]. left. congruence.
    + destruct (recurse value _ nested) as [r|] eqn:Er; simpl in Hone; [|discriminate].
      injection Hone as <-. simpl in Hk. apply list_elem_of_singleton in Hk as ->.
      simpl in Hget. exists value. split; [done|]. right.
      assert (v = r) as -> by congruence. eauto.
  - injection Hone as <-. inversion Hk.
Qed.

Lemma recurse_list `{SetOrder} items D A v :
  recurse (JList items) D A = Ok v ->
  exists items',
    v = JList items'
    /\ Forall2 (fun item item' => filter_nested_fields item D A = Ok item') items items'.
Proof.
  simpl. destruct (collect _) as [items'|] eqn:E; simpl; [|discriminate].
  intros [= <-]. exists items'. split; [reflexivity|].
  by apply collect_Ok, Forall2_fmap_l in E.
Qed.

(** Projection keeps every list it finds, element by element and in
    the order of the source. *)
Lemma filter_nested_fields_keeps_order `{SetOrder} entries D A out k items v :
  filter_nested_fields (JDict entries) D A = Ok (JDict out) ->
  Dict.get k entries = Some (JList items) ->
  Dict.get k out = Some v ->
  exists items',
    v = JList items'
    /\ Forall2 (fun item item' =>
                  item' = item
                  \/ exists D' A', filter_nested_fields item D' A' = Ok item')
               items items'.
Proof.
  intros Hf Hk Hv.
  destruct (filter_nested_fields_source _ _ _ _ _ _ Hf Hv) as (value & Hvalue & Hcase).
  rewrite Hk in Hvalue. injection Hvalue as <-.
  destruct Hcase as [->|(D' & A' & Hr)].
  - exists items. split; [reflexivity|].
    clear. induction items; constructor; auto.
  - destruct (recurse_list _ _ _ _ Hr) as (items' & -> & Hall).
    exists items'. split; [reflexivity|].
    eapply Forall2_impl; [exact Hall|]. intros item item' Hi. right.
    exists D', A'. exact Hi.
Qed.

(** ** The stored tree, level by level *)

Section StoredTree.
Context `{Deployment}.

Lemma stored_doc_Ok b key v : stored_doc b key = Ok v <-> b !! key = Some v.
Proof.
  unfold stored_doc. destruct (b !! key); split; intros; by simplify_eq.
Qed.

Lemma stored_responses_Ok b c bl ids v :
  stored_responses b c bl ids = Ok v ->
  exists rs,
    v = JList rs
    /\ Forall2 (fun rid r => b !! get_s3_key c (Some bl) (Some rid) = Some r) ids rs.
Proof.
  unfold stored_responses. destruct (collect _) as [rs|] eqn:E; simpl; [|discriminate].
  intros [= <-]. exists rs. split; [reflexivity|].
  apply collect_Ok, Forall2_fmap_l in E.
  eapply Forall2_impl; [exact E|]. intros rid r. apply stored_doc_Ok.
Qed.

Lemma stored_blocks_Ok b c ids f v :
  stored_blocks b c ids f = Ok v ->
  exists blocks,
    v = JList blocks
    /\ Forall2 (fun bid blk => stored_block b c bid f = Ok blk) ids blocks.
Proof.
  unfold stored_blocks. destruct (collect _) as [bs|] eqn:E; simpl; [|discriminate].
  intros [= <-]. exists bs. split; [reflexivity|].
  by apply collect_Ok, Forall2_fmap_l in E.
Qed.

(** A block that was given its responses has them in the order of
    its [responseIds]. *)
Lemma stored_block_responses b c bl f blk :
  wants_responses f = true ->
  stored_block b c bl f = Ok blk ->
  exists entries rids rs,
    b !! get_s3_key c (Some bl) None = Some (JDict entries)
    /\ py_tuple (default (JList []) (Dict.get "responseIds" entries)) = Ok rids
    /\ blk = JDict (Dict.set "responses" (JList rs) entries)
    /\ Forall2 (fun rid r => b !! get_s3_key c (Some bl) (Some rid) = Some r) rids rs.
Proof.
  intros Hw. unfold stored_block. rewrite Hw.
  destruct (stored_doc b _) as [doc|] eqn:Ed; simpl; [|discriminate].
  apply stored_doc_Ok in Ed.
  destruct doc as [| | | | |entries]; simpl; try discriminate.
  destruct (py_tuple _) as [rids|] eqn:Et; simpl; [|discriminate].
  destruct (stored_responses b c bl rids) as [rv|] eqn:Er; simpl; [|discriminate].
  destruct (stored_responses_Ok _ _ _ _ _ Er) as (rs & -> & Hall).
  intros [= <-]. exists entries, rids, rs. done.
Qed.

Lemma stored_block_plain b c bl f blk :
  wants_responses f = false ->
  stored_block b c bl f = Ok blk <-> b !! get_s3_key c (Some bl) None = Some blk.
Proof.
  intros Hw. unfold stored_block. rewrite Hw.
  destruct (stored_doc b _) as [doc|] eqn:Ed; simpl.
  - apply stored_doc_Ok in Ed. rewrite Ed. split; intros; by simplify_eq.
  - unfold stored_doc in Ed. destruct (b !! _); [discriminate|].
    split; discriminate.
Qed.
End StoredTree.

Lemma requests_wants_blocks fields path :
  path ∈ Str.split "," fields -> head_part path = "blocks" ->
  wants_blocks (Some fields) = true.
Proof.
  intros Hin Hhd. rewrite wants_blocks_contains.
  eapply split_piece_contains; [exact Hin|]. rewrite <- Hhd. apply head_part_prefix.
Qed.

Lemma wants_blocks_requested fields :
  wants_blocks (Some fields) = true -> requested (Some fields) = Str.split "," fields.
Proof.
  unfold wants_blocks, requested. destruct (Str.truthy fields); [done | discriminate].
Qed.

(** ** Order of hydrated and projected children *)

(** Take any bucket, a cold cache, and any list of read requests
    that fill the cache in whatever order, the bucket unchanged.  A conversation read whose
    selection names a path under [blocks] then returns, under the key
    [blocks], one element per id of the stored [blockIds], in that
    order: the element at the place of an id is the block stored
    under that id, as it is or projected; a block that was given its
    responses has one per id of its [responseIds], in that order.
    And whatever list the projector finds under a key of a document,
    it returns a list of the same elements, each as it is or
    projected, in the same order. *)
Lemma children_on_an_unchanged_bucket `{SetOrder} `{Deployment}
    (rqs : list read_request) (w0 : world)
    (conversation_id fields : string) (entries : list (string * json))
    (block_ids : list string) (out : json) :
  cache w0 = [] ->
  bucket w0 !! get_s3_key conversation_id None None = Some (JDict entries) ->
  py_tuple (default (JList []) (Dict.get "blockIds" entries)) = Ok block_ids ->
  (exists path, path ∈ Str.split "," fields /\ head_part path = "blocks") ->
  value (read_conversation conversation_id (Some fields) (after_reads rqs w0)) = Ok out ->
  (exists blocks,
     py_getitem out "blocks" = Ok (JList blocks)
     /\ Forall2
          (fun block_id v =>
             exists blk,
               stored_block (bucket w0) conversation_id block_id fields = Ok blk
               /\ (v = blk
                   \/ exists nested,
                       filter_nested_fields blk default_block_fields nested = Ok v)
               /\ (wants_responses fields = true ->
                   exists doc response_ids responses,
                     bucket w0 !! get_s3_key conversation_id (Some block_id) None
                     = Some (JDict doc)
                     /\ py_tuple (default (JList []) (Dict.get "responseIds" doc))
                        = Ok response_ids
                     /\ py_getitem blk "responses" = Ok (JList responses)
                     /\ Forall2
                          (fun response_id r =>
                             bucket w0 !! get_s3_key conversation_id (Some block_id)
                                                     (Some response_id) = Some r)
                          response_ids responses))
          block_ids blocks)
  /\ (forall data D A projected k items v,
        filter_nested_fields (JDict data) D A = Ok (JDict projected) ->
        Dict.get k data = Some (JList items) ->
        Dict.get k projected = Some v ->
        exists items',
          v = JList items'
          /\ Forall2 (fun item item' =>
                        item' = item
                        \/ exists D' A', filter_nested_fields item D' A' = Ok item')
                     items items').
Proof.
  intros Hcold Hconv Hids (path & Hpath & Hhead) Hread.
  split; [|intros; by eapply filter_nested_fields_keeps_order].
  destruct (coherent_after_reads rqs w0 (coherent_cold w0 Hcold)) as [Hc Hb].
  destruct (agrees_read_conversation conversation_id (Some fields) _ Hc) as (Hv & _ & _).
  rewrite Hread, Hb in Hv. clear Hread Hc Hb. symmetry in Hv.
  pose proof (requests_wants_blocks _ _ Hpath Hhead) as Hw.
  unfold stored_conversation in Hv.
  rewrite (wants_blocks_requested _ Hw), Hw in Hv.
  rewrite (proj2 (stored_doc_Ok _ _ _) Hconv) in Hv. simpl in Hv.
  rewrite Hids in Hv. simpl in Hv.
  destruct (stored_blocks _ _ _ _) as [bv|] eqn:Eb; simpl in Hv; [|discriminate].
  destruct (stored_blocks_Ok _ _ _ _ _ Eb) as (blks & -> & Hblks).
  destruct (filter_nested_fields _ _ _) as [o|] eqn:Ef; simpl in Hv; [|discriminate].
  injection Hv as ->.
  destruct (filter_nested_fields_is_dict _ _ _ _ Ef) as [o ->].
  destruct (field_parts_requested default_conversation_fields _ _ Hpath)
    as [nested Hnested].
  rewrite Hhead in Hnested.
  destruct (filter_nested_fields_lookup _ _ _ _ "blocks" nested (JList blks) Ef Hnested)
    as (v & Hv & Hcase).
  { by rewrite get_set, String.eqb_refl. }
  assert (forall bid blk,
            stored_block (bucket w0) conversation_id bid fields = Ok blk ->
            wants_responses fields = true ->
            exists doc response_ids responses,
              bucket w0 !! get_s3_key conversation_id (Some bid) None = Some (JDict doc)
              /\ py_tuple (default (JList []) (Dict.get "responseIds" doc))
                 = Ok response_ids
              /\ py_getitem blk "responses" = Ok (JList responses)
              /\ Forall2
                   (fun response_id r =>
                      bucket w0 !! get_s3_key conversation_id (Some bid)
                                              (Some response_id) = Some r)
                   response_ids responses) as Hresp.
  { intros bid blk Hblk Hwr.
    destruct (stored_block_responses _ _ _ _ _ Hwr Hblk)
      as (doc & rids & rs & Hdoc & Hrids & -> & Hall).
    exists doc, rids, rs. repeat split; try done.
    simpl. by rewrite get_set, String.eqb_refl. }
  destruct (is_nil nested).
  - injection Hcase as <-. exists blks. split; [simpl; by rewrite Hv|].
    eapply Forall2_impl; [exact Hblks|]. intros bid blk Hblk.
    exists blk. split; [done|]. split; [by left | by apply Hresp].
  - destruct (recurse_list _ _ _ _ Hcase) as (items' & -> & Hall).
    exists items'. split; [simpl; by rewrite Hv|].
    clear -Hblks Hall Hresp. revert items' Hall.
    induction Hblks as [|bid blk ids blks Hblk Hblks IH]; intros items' Hall.
    + inversion Hall. constructor.
    + inversion Hall as [|? item' ? items'' Hitem Hrest]; subst.
      constructor; [|by apply IH].
      exists blk. split; [done|]. split; [|by apply Hresp].
      right. eexists. exact Hitem.
Qed.

(** ** Missing children *)

Lemma collect_Raise {A} (rs : list (result A)) e :
  Forall (fun r => (exists a, r = Ok a) \/ r = Raise e) rs ->
  Exists (fun r => r = Raise e) rs ->
  collect rs = Raise e.
Proof.
  induction 1 as [|r rs Hr Hrs IH]; intros Hex; [inversion Hex|].
  simpl. destruct Hr as [[a ->]| ->]; simpl; [|reflexivity].
  apply Exists_cons in Hex as [Hex|Hex]; [discriminate|].
  by rewrite IH.
Qed.

Section MissingChildren.
Context `{Deployment}.

Lemma stored_doc_cases b key :
  (exists v, stored_doc b key = Ok v) \/ stored_doc b key = Raise not_found_error.
Proof. unfold stored_doc. destruct (b !! key); eauto. Qed.

Lemma stored_doc_missing b key : b !! key = None -> stored_doc b key = Raise not_found_error.
Proof. unfold stored_doc. by intros ->. Qed.

Lemma stored_responses_cases b c bl ids :
  (exists v, stored_responses b c bl ids = Ok v)
  \/ stored_responses b c bl ids = Raise not_found_error.
Proof.
  unfold stored_responses. induction ids as [|rid ids IH]; simpl; [eauto|].
  destruct (stored_doc_cases b (get_s3_key c (Some bl) (Some rid))) as [[v ->]| ->];
    simpl; [|by right].
  destruct (collect _); simpl in *; [eauto|].
  destruct IH as [[v' Hv']|IH]; [discriminate|]. right. congruence.
Qed.

Lemma stored_responses_missing b c bl ids rid :
  rid ∈ ids -> b !! get_s3_key c (Some bl) (Some rid) = None ->
  stored_responses b c bl ids = Raise not_found_error.
Proof.
  intros Hin Hmiss. unfold stored_responses.
  rewrite (collect_Raise _ not_found_error); [reflexivity| |].
  - apply Forall_fmap, Forall_forall. intros x _. simpl. apply stored_doc_cases.
  - apply Exists_fmap, Exists_exists. exists rid. split; [done|].
    by apply stored_doc_missing.
Qed.

(** A stored block is well formed when it is a dictionary whose
    [responseIds], if any, is a list of strings. *)
Lemma stored_block_cases b c bl f :
  (wants_responses f = true ->
   forall doc, b !! get_s3_key c (Some bl) None = Some doc ->
               exists d rids,
                 doc = JDict d
                 /\ py_tuple (default (JList []) (Dict.get "responseIds" d)) = Ok rids) ->
  (exists v, stored_block b c bl f = Ok v)
  \/ stored_block b c bl f = Raise not_found_error.
Proof.
  intros Hshape. unfold stored_block, stored_doc.
  destruct (b !! get_s3_key c (Some bl) None) as [doc|] eqn:Ed; simpl; [|by right].
  destruct (wants_responses f); [|eauto].
  destruct (Hshape eq_refl doc eq_refl) as (d & rids & -> & Hrids). simpl.
  rewrite Hrids. simpl.
  destruct (stored_responses_cases b c bl rids) as [[v ->]| ->]; simpl; eauto.
Qed.

Lemma stored_blocks_missing b c ids f :
  (wants_responses f = true ->
   forall bid doc, bid ∈ ids -> b !! get_s3_key c (Some bid) None = Some doc ->
                   exists d rids,
                     doc = JDict d
                     /\ py_tuple (default (JList []) (Dict.get "responseIds" d)) = Ok rids) ->
  (exists bid, bid ∈ ids /\ stored_block b c bid f = Raise not_found_error) ->
  stored_blocks b c ids f = Raise not_found_error.
Proof.
  intros Hshape (bid & Hin & Hbid). unfold stored_blocks.
  rewrite (collect_Raise _ not_found_error); [reflexivity| |].
  - apply Forall_fmap, Forall_forall. intros x Hx. simpl.
    apply stored_block_cases. intros Hw doc Hdoc. by apply (Hshape Hw x).
  - apply Exists_fmap, Exists_exists. by exists bid.
Qed.
End MissingChildren.

(** When every cache entry holds what the bucket
    holds now and the stored blocks are well formed, a conversation
    read that hydrates blocks fails as a whole as soon as one id of
    [blockIds] has no stored document, or, when responses are
    hydrated too, one id of a block's [responseIds] has none: the
    handler raises status 500 with the text of the gateway's
    not-found exception, and returns no tree. *)
Lemma missing_child_on_a_coherent_cache `{SetOrder} `{Deployment}
    (w : world) (conversation_id fields : string)
    (entries : list (string * json)) (block_ids : list string) :
  coherent w ->
  bucket w !! get_s3_key conversation_id None None = Some (JDict entries) ->
  py_tuple (default (JList []) (Dict.get "blockIds" entries)) = Ok block_ids ->
  wants_blocks (Some fields) = true ->
  (wants_responses fields = true ->
   forall bid doc,
     bid ∈ block_ids ->
     bucket w !! get_s3_key conversation_id (Some bid) None = Some doc ->
     exists d rids,
       doc = JDict d
       /\ py_tuple (default (JList []) (Dict.get "responseIds" d)) = Ok rids) ->
  (exists bid,
     bid ∈ block_ids
     /\ (bucket w !! get_s3_key conversation_id (Some bid) None = None
         \/ (wants_responses fields = true
             /\ exists d rids rid,
                  bucket w !! get_s3_key conversation_id (Some bid) None = Some (JDict d)
                  /\ py_tuple (default (JList []) (Dict.get "responseIds" d)) = Ok rids
                  /\ rid ∈ rids
                  /\ bucket w !! get_s3_key conversation_id (Some bid) (Some rid)
                     = None))) ->
  value (read_conversation conversation_id (Some fields) w)
  = Raise (HTTPException (StatusNum 500) (exn_text not_found_error)).
Proof.
  intros Hc Hconv Hids Hw Hshape (bid & Hin & Hmiss).
  destruct (agrees_read_conversation conversation_id (Some fields) w Hc) as (-> & _ & _).
  unfold stored_conversation. rewrite Hw.
  rewrite (proj2 (stored_doc_Ok _ _ _) Hconv). simpl. rewrite Hids. simpl.
  rewrite stored_blocks_missing; [reflexivity | exact Hshape |].
  exists bid. split; [exact Hin|].
  destruct Hmiss as [Hmiss|(Hwr & d & rids & rid & Hdoc & Hrids & Hrid & Hmiss)].
  - unfold stored_block. by rewrite stored_doc_missing.
  - unfold stored_block. rewrite (proj2 (stored_doc_Ok _ _ _) Hdoc), Hwr. simpl.
    rewrite Hrids. simpl. by rewrite (stored_responses_missing _ _ _ _ rid).
Qed.

(** ** What a run emits *)

Lemma events_bind_l {A B} (m : M A) (k : A -> M B) w ev :
  ev ∈ events (m w) -> ev ∈ events (bind m k w).
Proof.
  intros Hev. unfold bind. destruct (value (m w)); simpl; [|done].
  apply elem_of_app. by left.
Qed.

Lemma events_bind_r {A B} (m : M A) (k : A -> M B) w a ev :
  value (m w) = Ok a -> ev ∈ events (k a (after (m w))) -> ev ∈ events (bind m k w).
Proof.
  intros Hv Hev. unfold bind. rewrite Hv. simpl. apply elem_of_app. by right.
Qed.

Lemma events_bind_inv {A B} (m : M A) (k : A -> M B) w ev :
  ev ∈ events (bind m k w) ->
  ev ∈ events (m w)
  \/ exists a, value (m w) = Ok a /\ ev ∈ events (k a (after (m w))).
Proof.
  unfold bind. destruct (value (m w)) as [a|e]; simpl; [|by left].
  intros Hev. apply elem_of_app in Hev as [Hev|Hev]; [by left|]. right. eauto.
Qed.

Lemma events_lift {A} (r : result A) w : events (lift r w) = [].
Proof. by destruct r. Qed.

Lemma after_lift {A} (r : result A) w : after (lift r w) = w.
Proof. by destruct r. Qed.

Lemma value_lift {A} (r : result A) w : value (lift r w) = r.
Proof. by destruct r. Qed.

Lemma events_except_500 `{Deployment} {A} (m : M A) w :
  events (except_500 m w) = events (m w).
Proof. unfold except_500. by destruct (value (m w)). Qed.

Section FetchEvents.
Context `{Deployment}.

Lemma fetch_blocks_emits c ids f w :
  Fetch FetchBlocks (hash_key [AStr c; ATuple ids; AStr f] [])
  ∈ events (fetch_blocks c ids f w).
Proof. unfold fetch_blocks. apply events_bind_l. left. Qed.

Lemma fetch_responses_emits c bl ids w :
  Fetch FetchResponses (hash_key [AStr c; AStr bl; ATuple ids] [])
  ∈ events (fetch_responses c bl ids w).
Proof. unfold fetch_responses. apply events_bind_l. left. Qed.
End FetchEvents.

(** ** When a conversation read fetches blocks *)

(** C3, as amended.  A conversation read calls the fetch of the
    blocks of [blockIds] exactly when the selection string contains
    [blocks] somewhere, as a substring; with any other selection the
    run asks the gateway for the conversation and does nothing else
    to the outside. *)
Theorem C3_blocks_fetched_iff_substring `{SetOrder} `{Deployment}
    (w : world) (conversation_id fields : string)
    (entries : list (string * json)) (block_ids : list string) :
  bucket w !! get_s3_key conversation_id None None = Some (JDict entries) ->
  py_tuple (default (JList []) (Dict.get "blockIds" entries)) = Ok block_ids ->
  (Fetch FetchBlocks (hash_key [AStr conversation_id; ATuple block_ids; AStr fields] [])
   ∈ events (read_conversation conversation_id (Some fields) w)
   <-> Str.contains "blocks" fields = true)
  /\ (Str.contains "blocks" fields = false ->
      events (read_conversation conversation_id (Some fields) w)
      = [S3Get (get_s3_key conversation_id None None)]).
Proof.
  intros Hconv Hids.
  assert (Str.contains "blocks" fields = false ->
          events (read_conversation conversation_id (Some fields) w)
          = [S3Get (get_s3_key conversation_id None None)]) as Hquiet.
  { intros Hno. unfold read_conversation. rewrite events_except_500.
    rewrite wants_blocks_contains, Hno.
    unfold bind, get_json_from_s3. simpl. rewrite Hconv. simpl.
    rewrite events_lift. reflexivity. }
  split; [|exact Hquiet].
  destruct (Str.contains "blocks" fields) eqn:E.
  - split; [done|]. intros _.
    unfold read_conversation. rewrite events_except_500.
    rewrite wants_blocks_contains, E.
    eapply events_bind_r.
    { unfold get_json_from_s3. simpl. by rewrite Hconv. }
    apply events_bind_l.
    eapply events_bind_r; [reflexivity|].
    eapply events_bind_r; [rewrite value_lift; exact Hids|].
    apply events_bind_l. apply fetch_blocks_emits.
  - split; [|discriminate]. rewrite (Hquiet eq_refl).
    intros Hin. apply list_elem_of_singleton in Hin. discriminate.
Qed.

Lemma C3_blocks_fetched_iff_substring_witness :
  Fetch FetchBlocks (hash_key [AStr "c1"; ATuple ["b1"; "b2"]; AStr "id,blocks.inputText"] [])
  ∈ events (@read_conversation first_seen_order local_deployment "c1"
              (Some "id,blocks.inputText") (start sample_bucket)).
Proof.
  edestruct (@C3_blocks_fetched_iff_substring first_seen_order local_deployment
               (start sample_bucket) "c1" "id,blocks.inputText"
               (Conversation.dict sample_conversation) ["b1"; "b2"])
    as [[_ Hfetch] _].
  - vm_compute; reflexivity.
  - vm_compute; reflexivity.
  - apply Hfetch. vm_compute; reflexivity.
Defined.

(** C3 as stated fails: [blocksize] is a single path that is neither
    [blocks] nor begins with [blocks.], and the read fetches the
    blocks all the same. *)
Lemma C3_counterexample :
  ~ (forall (w : world) (conversation_id fields : string)
            (entries : list (string * json)) (block_ids : list string),
       fields <> "" ->
       bucket w !! @get_s3_key local_deployment conversation_id None None
       = Some (JDict entries) ->
       py_tuple (default (JList []) (Dict.get "blockIds" entries)) = Ok block_ids ->
       (Fetch FetchBlocks
          (hash_key [AStr conversation_id; ATuple block_ids; AStr fields] [])
        ∈ events (@read_conversation first_seen_order local_deployment
                    conversation_id (Some fields) w)
        <-> path_names_blocks fields = true)).
Proof.
  intros Hclaim.
  destruct (Hclaim (start sample_bucket) "c1" "blocksize"
                   (Conversation.dict sample_conversation) ["b1"; "b2"])
    as [Hfetch _].
  - discriminate.
  - vm_compute; reflexivity.
  - vm_compute; reflexivity.
  - assert (path_names_blocks "blocksize" = true) as Habs; [|discriminate Habs].
    apply Hfetch. apply list_elem_of_In. vm_compute. tauto.
Qed.

(** ** Responses of a block: the single read and the batch fetch *)

Lemma value_bind_Ok {A B} (m : M A) (k : A -> M B) w a :
  value (m w) = Ok a -> value (bind m k w) = value (k a (after (m w))).
Proof. intros Hv. unfold bind. by rewrite Hv. Qed.

Lemma value_bind_Raise {A B} (m : M A) (k : A -> M B) w e :
  value (m w) = Raise e -> value (bind m k w) = Raise e.
Proof. intros Hv. unfold bind. by rewrite Hv. Qed.

Lemma events_bind_Ok {A B} (m : M A) (k : A -> M B) w a :
  value (m w) = Ok a ->
  events (bind m k w) = events (m w) ++ events (k a (after (m w))).
Proof. intros Hv. unfold bind. by rewrite Hv. Qed.

Lemma events_bind_Raise {A B} (m : M A) (k : A -> M B) w e :
  value (m w) = Raise e -> events (bind m k w) = events (m w).
Proof. intros Hv. unfold bind. by rewrite Hv. Qed.

Lemma after_bind_Ok {A B} (m : M A) (k : A -> M B) w a :
  value (m w) = Ok a -> after (bind m k w) = after (k a (after (m w))).
Proof. intros Hv. unfold bind. by rewrite Hv. Qed.

Lemma value_get `{Deployment} key w d :
  bucket w !! key = Some d -> value (get_json_from_s3 key w) = Ok d.
Proof. intros Hd. unfold get_json_from_s3. simpl. by rewrite Hd. Qed.

Lemma after_get `{Deployment} key w : after (get_json_from_s3 key w) = w.
Proof. reflexivity. Qed.

(** C4.  For a stored block with well-formed [responseIds]:
    [read_block] calls the fetch of its responses whatever the
    selection is, and what it projects is the block with those
    responses put under [responses]; [fetch_block], when the cache
    does not answer for it, calls the fetch of the responses exactly
    when the selection string contains [blocks.responses] or one of
    its comma-separated paths starts with [blocks.responses.], and
    what it returns is then the block with the responses attached,
    and the stored block as it is otherwise. *)
Theorem C4_single_read_always_batch_on_request `{SetOrder} `{Deployment}
    (w : world) (conversation_id block_id : string)
    (doc : list (string * json)) (response_ids : list string) :
  bucket w !! get_s3_key conversation_id (Some block_id) None = Some (JDict doc) ->
  py_tuple (default (JList []) (Dict.get "responseIds" doc)) = Ok response_ids ->
  let responses_call :=
    Fetch FetchResponses
      (hash_key [AStr conversation_id; AStr block_id; ATuple response_ids] []) in
  let on_request fields :=
    Str.contains "blocks.responses" fields
    || existsb (Str.startswith "blocks.responses.") (Str.split "," fields) in
  (forall fields : option string,
     responses_call ∈ events (read_block conversation_id block_id fields w)
     /\ value (read_block conversation_id block_id fields w)
        = result_bind
            (value (fetch_responses conversation_id block_id response_ids w))
            (fun responses =>
               filter_nested_fields (JDict (Dict.set "responses" responses doc))
                 default_block_fields (requested fields)))
  /\ (forall fields : string,
        fst (cache_getitem
               (hash_key [AStr conversation_id; AStr block_id; AStr fields] []) w)
        = None ->
        let w' := snd (cache_getitem
                         (hash_key [AStr conversation_id; AStr block_id; AStr fields] [])
                         w) in
        (responses_call ∈ events (fetch_block conversation_id block_id fields w)
         <-> on_request fields = true)
        /\ value (fetch_block conversation_id block_id fields w)
           = if on_request fields then
               result_map (fun responses => JDict (Dict.set "responses" responses doc))
                 (value (fetch_responses conversation_id block_id response_ids w'))
             else Ok (JDict doc)).
Proof.
  intros Hdoc Hids responses_call on_request. split.
  - intros fields. unfold read_block.
    pose proof (value_get _ _ _ Hdoc) as Hget. split.
    + eapply events_bind_r; [exact Hget|]. cbv beta. rewrite after_get.
      eapply events_bind_r; [rewrite value_lift; reflexivity|].
      rewrite after_lift.
      eapply events_bind_r; [rewrite value_lift; exact Hids|].
      apply events_bind_l. rewrite after_lift. apply fetch_responses_emits.
    + rewrite (value_bind_Ok _ _ _ _ Hget). rewrite after_get.
      rewrite (value_bind_Ok _ _ _ (default (JList []) (Dict.get "responseIds" doc)))
        by (by rewrite value_lift).
      rewrite after_lift.
      rewrite (value_bind_Ok _ _ _ response_ids) by (by rewrite value_lift).
      rewrite after_lift.
      destruct (value (fetch_responses conversation_id block_id response_ids w))
        as [rs|e] eqn:Er; cbn [result_bind].
      * rewrite (value_bind_Ok _ _ _ _ Er).
        rewrite (value_bind_Ok _ _ _ (JDict (Dict.set "responses" rs doc)))
          by (by rewrite value_lift).
        by rewrite value_lift.
      * by rewrite (value_bind_Raise _ _ _ _ Er).
  - intros fields Hmiss w'.
    assert (bucket w' = bucket w) as Hb by apply cache_getitem_spec.
    assert (wants_responses fields = on_request fields) as Hon
      by apply wants_responses_contains.
    set (k := hash_key [AStr conversation_id; AStr block_id; AStr fields] []) in *.
    set (body :=
           (block <- get_json_from_s3 (get_s3_key conversation_id (Some block_id) None) ;;
            if wants_responses fields then
              ids_v <- lift (py_get block "responseIds" (JList [])) ;;
              ids <- lift (py_tuple ids_v) ;;
              responses <- fetch_responses conversation_id block_id ids ;;
              lift (py_setitem block "responses" responses)
            else ret block)).
    assert (fetch_block conversation_id block_id fields w
            = bind (emit (Fetch FetchBlock k)) (fun _ => cached k body) w) as ->
      by reflexivity.
    assert (cached k body w
            = let o := body w' in
              match value o with
              | Ok v => {| value := Ok v; after := cache_setitem k v (after o);
                           events := events o |}
              | Raise e => o
              end) as Hcached.
    { unfold cached, w'. destruct (cache_getitem k w) as [hit w'']. simpl in *.
      by rewrite Hmiss. }
    assert (value (cached k body w) = value (body w')
            /\ events (cached k body w) = events (body w')) as [Hcv Hce].
    { rewrite Hcached. cbv zeta. destruct (value (body w')) eqn:Ev; simpl; auto. }
    assert (bucket w' !! get_s3_key conversation_id (Some block_id) None
            = Some (JDict doc)) as Hdoc' by (by rewrite Hb).
    pose proof (value_get _ _ _ Hdoc') as Hget.
    assert (value (body w')
            = (if on_request fields then
                 result_map (fun responses => JDict (Dict.set "responses" responses doc))
                   (value (fetch_responses conversation_id block_id response_ids w'))
               else Ok (JDict doc))
            /\ (responses_call ∈ events (body w') <-> on_request fields = true))
      as [Hbv Hbe].
    { unfold body. rewrite (value_bind_Ok _ _ _ _ Hget), (events_bind_Ok _ _ _ _ Hget).
      rewrite Hon, after_get. destruct (on_request fields).
      - rewrite (value_bind_Ok _ _ _ (default (JList []) (Dict.get "responseIds" doc)))
          by (by rewrite value_lift).
        rewrite (events_bind_Ok _ _ _ (default (JList []) (Dict.get "responseIds" doc)))
          by (by rewrite value_lift).
        rewrite events_lift, after_lift.
        rewrite (value_bind_Ok _ _ _ response_ids) by (by rewrite value_lift).
        rewrite (events_bind_Ok _ _ _ response_ids) by (by rewrite value_lift).
        rewrite events_lift, after_lift. split.
        + destruct (value (fetch_responses conversation_id block_id response_ids w'))
            as [rs|e] eqn:Er; cbn [result_map result_bind].
          * rewrite (value_bind_Ok _ _ _ _ Er). by rewrite value_lift.
          * by rewrite (value_bind_Raise _ _ _ _ Er).
        + split; [done|]. intros _. right.
          apply events_bind_l, fetch_responses_emits.
      - split; [reflexivity|]. split; [|discriminate].
        intros Hin. apply list_elem_of_singleton in Hin. discriminate. }
    rewrite (value_bind_Ok _ _ _ tt) by reflexivity.
    rewrite (events_bind_Ok _ _ _ tt) by reflexivity.
    change (after (emit (Fetch FetchBlock k) w)) with w.
    change (events (emit (Fetch FetchBlock k) w)) with [Fetch FetchBlock k].
    rewrite Hcv, Hce, Hbv. split; [|reflexivity].
    rewrite <- Hbe. split.
    + intros Hin. apply elem_of_cons in Hin as [Hin|Hin]; [discriminate | done].
    + intros Hin. by right.
Qed.

Lemma C4_single_read_always_batch_on_request_witness :
  Fetch FetchResponses (hash_key [AStr "c1"; AStr "b1"; ATuple ["r1"; "r2"]] [])
  ∈ events (@read_block first_seen_order local_deployment "c1" "b1" None
              (start sample_bucket)).
Proof.
  edestruct (@C4_single_read_always_batch_on_request first_seen_order local_deployment
               (start sample_bucket) "c1" "b1"
               (Block.dict (sample_block "b1" ["r1"; "r2"])) ["r1"; "r2"])
    as [Hread _].
  - vm_compute; reflexivity.
  - vm_compute; reflexivity.
  - exact (proj1 (Hread None)).
Defined.

(** ** Projection: the two laws *)

(** C6.  Whenever projecting a document succeeds, projecting the
    result again with the same default fields and the same requested
    paths succeeds and returns that same result. *)
Theorem C6_projection_idempotent `{SetOrder} (data : json)
    (default_fields additional_fields : list string) (r : json) :
  filter_nested_fields data default_fields additional_fields = Ok r ->
  filter_nested_fields r default_fields additional_fields = Ok r.
Proof. apply filter_nested_fields_idempotent. Qed.

Lemma C6_projection_idempotent_witness :
  exists r,
    @filter_nested_fields first_seen_order sample_tree
      default_conversation_fields ["blocks.responses.payload"; "status"] = Ok r
    /\ @filter_nested_fields first_seen_order r
         default_conversation_fields ["blocks.responses.payload"; "status"] = Ok r.
Proof.
  eexists. split; [vm_compute; reflexivity|].
  apply (@C6_projection_idempotent first_seen_order sample_tree).
  vm_compute; reflexivity.
Defined.

(** C7.  With nothing requested, projecting a document of an entity
    on that entity's default fields succeeds; the result has no key
    twice, and a key is bound in it exactly when it is a default
    field bound in the document, to the value the document gives it. *)
Theorem C7_default_projection `{SetOrder} (e : entity) (entries : list (string * json)) :
  exists out,
    filter_nested_fields (JDict entries) (default_fields_of e) [] = Ok (JDict out)
    /\ NoDup (Dict.keys out)
    /\ forall k,
         Dict.get k out
         = if decide (k ∈ default_fields_of e) then Dict.get k entries else None.
Proof. apply default_projection, default_fields_dot_free. Qed.

(** ** Keys of the fetch cache *)

(** C2, as amended.  Two calls have the same cache key exactly when
    their positional arguments are equal and their keyword arguments
    are equal once sorted: the operation is no part of the key.
    Among the calls the program makes, equal keys do imply the same
    operation with the same arguments, because the operations differ
    in where they take a string and where a tuple; and two tuples of
    ids that differ, be it only in order, give different keys. *)
Theorem C2_cache_key_is_arguments_only :
  (forall c1 c2 : call,
     key_of_call c1 = key_of_call c2
     <-> call_args c1 = call_args c2
         /\ sorted (call_kwargs c1) = sorted (call_kwargs c2))
  /\ (forall p1 p2 : program_call,
        key_of_call (call_of p1) = key_of_call (call_of p2) <-> p1 = p2)
  /\ (forall c f ids ids',
        ids <> ids' ->
        key_of_call (call_of (CallFetchBlocks c ids f))
        <> key_of_call (call_of (CallFetchBlocks c ids' f)))
  /\ (forall c b ids ids',
        ids <> ids' ->
        key_of_call (call_of (CallFetchResponses c b ids))
        <> key_of_call (call_of (CallFetchResponses c b ids'))).
Proof.
  split; [|split; [|split]].
  - intros c1 c2. unfold key_of_call, hash_key. split.
    + intros [= H1 H2]. done.
    + intros [-> ->]. reflexivity.
  - intros p1 p2. split; [|by intros ->].
    destruct p1, p2; unfold key_of_call, hash_key; simpl; intros Heq;
      by simplify_eq.
  - intros c f ids ids' Hne. unfold key_of_call, hash_key. simpl.
    intros Heq. by simplify_eq.
  - intros c b ids ids' Hne. unfold key_of_call, hash_key. simpl.
    intros Heq. by simplify_eq.
Qed.

(** C2 as stated fails: the key does not name the operation.  A call
    of [fetch_block] and a call of [fetch_responses] with the same
    arguments have one key, and so one entry of the one cache. *)
Lemma C2_counterexample :
  ~ (forall c1 c2 : call,
       key_of_call c1 = key_of_call c2
       <-> call_op c1 = call_op c2
           /\ call_args c1 = call_args c2
           /\ call_kwargs c1 = call_kwargs c2).
Proof.
  intros Hclaim.
  destruct (Hclaim
              {| call_op := FetchBlock;
                 call_args := [AStr "c1"; AStr "b1"; ATuple []]; call_kwargs := [] |}
              {| call_op := FetchResponses;
                 call_args := [AStr "c1"; AStr "b1"; ATuple []]; call_kwargs := [] |})
    as [Hkey _].
  destruct (Hkey eq_refl) as [Hop _]. discriminate Hop.
Qed.

(** ** Models: [dict()] and validation *)

Lemma mapM_roundtrip {A} (parse : json -> option A) (dump : A -> json) (l : list A) :
  (forall a, parse (dump a) = Some a) ->
  mapM parse (map dump l) = Some l.
Proof.
  intros Hrt. apply mapM_Some. induction l; constructor; auto.
Qed.

Lemma optional_roundtrip {A} (parse : json -> option A) (dump : A -> json) (o : option A) :
  (forall a, parse (dump a) = Some a) ->
  (forall a, dump a <> JNull) ->
  optional parse (Some (dump_opt dump o)) = Some o.
Proof.
  intros Hrt Hnn. destruct o as [a|]; simpl; [|reflexivity].
  specialize (Hnn a). destruct (dump a) eqn:E; try contradiction;
    by rewrite <- E, Hrt.
Qed.

Lemma nullable_roundtrip {A} (parse : json -> option A) (dump : A -> json) (o : option A) :
  (forall a, parse (dump a) = Some a) ->
  (forall a, dump a <> JNull) ->
  nullable parse (Some (dump_opt dump o)) = Some o.
Proof.
  intros Hrt Hnn. destruct o as [a|]; simpl; [|reflexivity].
  specialize (Hnn a). destruct (dump a) eqn:E; try contradiction;
    by rewrite <- E, Hrt.
Qed.

Lemma User_parse_dict u : User.parse (User.dict u) = Some u.
Proof.
  destruct u as [i e n]. unfold User.parse, User.dict. simpl.
  by destruct n.
Qed.

Lemma Response_parse_dict r : Response.parse (Response.dict r) = Some r.
Proof.
  destruct r as [i s t p rq rs]. unfold Response.parse, Response.dict. simpl.
  by destruct rq, rs.
Qed.

Lemma Block_parse_dict b : Block.parse (Block.dict b) = Some b.
Proof.
  destruct b as [i txt ids u c rs]. unfold Block.parse, Block.dict. simpl.
  rewrite (mapM_roundtrip parse_str JStr) by done. simpl.
  rewrite User_parse_dict. simpl.
  destruct rs as [rs|]; simpl; [|reflexivity].
  rewrite (mapM_roundtrip (parse_dict Response.parse)
             (fun r => JDict (Response.dict r))); [reflexivity|].
  intros r. simpl. apply Response_parse_dict.
Qed.

Lemma Conversation_parse_dict c : Conversation.parse (Conversation.dict c) = Some c.
Proof.
  destruct c as [i u ca ua st txt ty ids bs].
  unfold Conversation.parse, Conversation.dict. simpl.
  rewrite User_parse_dict. simpl.
  rewrite (mapM_roundtrip parse_str JStr) by done.
  destruct txt, ty; simpl;
    (destruct bs as [bs|]; simpl; [|reflexivity];
     rewrite (mapM_roundtrip (parse_dict Block.parse)
                (fun b => JDict (Block.dict b))); [reflexivity|];
     intros b; simpl; apply Block_parse_dict).
Qed.

(** ** Merging the caller's overrides *)

Lemma get_update_notin {V} k (other : list (string * V)) : forall d,
  k ∉ Dict.keys other -> Dict.get k (Dict.update d other) = Dict.get k d.
Proof.
  unfold Dict.update.
  induction other as [|[k' v'] other IH]; intros d Hk; simpl; [reflexivity|].
  simpl in Hk. apply not_elem_of_cons in Hk as [Hne Hk].
  rewrite IH by exact Hk. rewrite get_set.
  apply String.eqb_neq in Hne. by rewrite Hne.
Qed.

Lemma keys_app {V} (d d' : list (string * V)) :
  Dict.keys (d ++ d') = Dict.keys d ++ Dict.keys d'.
Proof. unfold Dict.keys. apply map_app. Qed.

Lemma elem_of_keys_set_field {A} k name (dump : A -> json) f :
  k ∈ Dict.keys (set_field name dump f) -> k = name /\ f <> None.
Proof.
  destruct f as [v|]; simpl; [|intros Hin; inversion Hin].
  intros Hin. apply list_elem_of_singleton in Hin. done.
Qed.

Lemma keys_partial_conversation k p :
  k ∈ Dict.keys (PartialConversation.dict_exclude_unset p) ->
  k = "createdBy"
  \/ (k = "status" /\ PartialConversation.status p <> None)
  \/ (k = "summaryText" /\ PartialConversation.summaryText p <> None)
  \/ (k = "summaryType" /\ PartialConversation.summaryType p <> None)
  \/ (k = "blockIds" /\ PartialConversation.blockIds p <> None)
  \/ (k = "users" /\ PartialConversation.users p <> None)
  \/ (k = "session" /\ PartialConversation.session p <> None)
  \/ (k = "blocks" /\ PartialConversation.blocks p <> None).
Proof.
  unfold PartialConversation.dict_exclude_unset.
  rewrite !keys_app, !elem_of_app. simpl.
  intros [Hk|[Hk|[Hk|[Hk|[Hk|[Hk|[Hk|Hk]]]]]]].
  - apply list_elem_of_singleton in Hk. by left.
  - apply elem_of_keys_set_field in Hk. tauto.
  - apply elem_of_keys_set_field in Hk. tauto.
  - apply elem_of_keys_set_field in Hk. tauto.
  - apply elem_of_keys_set_field in Hk. tauto.
  - apply elem_of_keys_set_field in Hk. tauto.
  - apply elem_of_keys_set_field in Hk. tauto.
  - apply elem_of_keys_set_field in Hk. tauto.
Qed.

Lemma Conversation_parse_fields d c :
  Conversation.parse d = Some c ->
  required parse_str (Dict.get "id" d) = Some (Conversation.id c)
  /\ required parse_str (Dict.get "status" d) = Some (Conversation.status c)
  /\ nullable parse_str (Dict.get "summaryType" d) = Some (Conversation.summaryType c)
  /\ required (parse_list parse_str) (Dict.get "blockIds" d)
     = Some (Conversation.blockIds c).
Proof.
  unfold Conversation.parse. intros Hp.
  destruct (required parse_str (Dict.get "id" d)); simpl in Hp; [|discriminate].
  destruct (required (parse_dict User.parse) _); simpl in Hp; [|discriminate].
  destruct (required parse_int (Dict.get "createdAt" d)); simpl in Hp; [|discriminate].
  destruct (required parse_int (Dict.get "updatedAt" d)); simpl in Hp; [|discriminate].
  destruct (required parse_str (Dict.get "status" d)); simpl in Hp; [|discriminate].
  destruct (nullable parse_str (Dict.get "summaryText" d)); simpl in Hp; [|discriminate].
  destruct (nullable parse_str (Dict.get "summaryType" d)); simpl in Hp; [|discriminate].
  destruct (required (parse_list parse_str) (Dict.get "blockIds" d));
    simpl in Hp; [|discriminate].
  destruct (optional _ (Dict.get "blocks" d)); simpl in Hp; [|discriminate].
  by injection Hp as <-.
Qed.

(** ** Creating a conversation *)

Section CreateConversation.
Context `{Deployment}.
Variables (query : string) (partial_conversation : PartialConversation.t)
          (new_id new_block_id : string) (epoch_time : Z).

Let conversation_data : list (string * json) :=
  Dict.update
    [("id", JStr new_id); ("status", JStr "OPEN"); ("summaryText", JStr query);
     ("summaryType", JStr "UNKNOWN"); ("createdAt", JInt epoch_time);
     ("updatedAt", JInt epoch_time); ("blockIds", JList [])]
    (PartialConversation.dict_exclude_unset partial_conversation).

Lemma create_conversation_Ok w conversation :
  value (create_conversation query partial_conversation new_id new_block_id
           epoch_time w) = Ok conversation ->
  exists c0,
    Conversation.parse conversation_data = Some c0
    /\ Conversation.id c0 = new_id
    /\ conversation = Conversation.append_block new_block_id c0
    /\ let new_block :=
         {| Block.id := new_block_id; Block.inputText := query;
            Block.responseIds := []; Block.createdAt := epoch_time;
            Block.createdBy := Conversation.createdBy c0;
            Block.responses := None |} in
       events (create_conversation query partial_conversation new_id new_block_id
                 epoch_time w)
       = [S3Put (get_s3_key new_id None None) (JDict (Conversation.dict conversation));
          S3Put (get_s3_key new_id (Some new_block_id) None)
                (JDict (Block.dict new_block))]
       /\ bucket (after (create_conversation query partial_conversation new_id
                           new_block_id epoch_time w))
          = <[get_s3_key new_id (Some new_block_id) None
              := JDict (Block.dict new_block)]>
              (<[get_s3_key new_id None None
                 := JDict (Conversation.dict conversation)]> (bucket w)).
Proof.
  unfold create_conversation. fold conversation_data.
  unfold Conversation.validate.
  destruct (Conversation.parse conversation_data) as [c0|] eqn:Ep;
    [|simpl; discriminate].
  assert (Conversation.id c0 = new_id) as Hid.
  { destruct (Conversation_parse_fields _ _ Ep) as (Hi & _).
    unfold conversation_data in Hi. rewrite get_update_notin in Hi.
    - simpl in Hi. congruence.
    - intros Hin. apply keys_partial_conversation in Hin.
      destruct Hin as [?|[[? _]|[[? _]|[[? _]|[[? _]|[[? _]|[[? _]|[? _]]]]]]]];
        discriminate. }
  simpl. rewrite Hid. intros [= <-]. exists c0. done.
Qed.
End CreateConversation.

(** C9.  When the caller sets none of [status], [summaryType] and
    [blockIds], a conversation that [create_conversation] returns has
    status [OPEN], summary type [UNKNOWN] and exactly one block id,
    the fresh one.  The call wrote two documents and no more: the
    conversation under its own key, then, under the key derived from
    the conversation id and that block id, a block whose [inputText]
    is the query; that block is in the bucket afterwards. *)
Theorem C9_create_conversation_defaults `{Deployment}
    (query : string) (partial_conversation : PartialConversation.t)
    (new_id new_block_id : string) (epoch_time : Z)
    (w : world) (conversation : Conversation.t) :
  PartialConversation.status partial_conversation = None ->
  PartialConversation.summaryType partial_conversation = None ->
  PartialConversation.blockIds partial_conversation = None ->
  value (create_conversation query partial_conversation new_id new_block_id
           epoch_time w) = Ok conversation ->
  Conversation.status conversation = "OPEN"
  /\ Conversation.summaryType conversation = Some "UNKNOWN"
  /\ Conversation.blockIds conversation = [new_block_id]
  /\ exists block,
       Block.id block = new_block_id
       /\ Block.inputText block = query
       /\ events (create_conversation query partial_conversation new_id new_block_id
                    epoch_time w)
          = [S3Put (get_s3_key (Conversation.id conversation) None None)
                   (JDict (Conversation.dict conversation));
             S3Put (get_s3_key (Conversation.id conversation) (Some new_block_id) None)
                   (JDict (Block.dict block))]
       /\ bucket (after (create_conversation query partial_conversation new_id
                           new_block_id epoch_time w))
          !! get_s3_key (Conversation.id conversation) (Some new_block_id) None
          = Some (JDict (Block.dict block)).
Proof.
  intros Hstatus Htype Hids Hv.
  destruct (create_conversation_Ok _ _ _ _ _ _ _ Hv)
    as (c0 & Hp & Hid & -> & Hev & Hb).
  destruct (Conversation_parse_fields _ _ Hp) as (_ & Hs & Ht & Hi).
  assert (forall k,
            k = "status" \/ k = "summaryType" \/ k = "blockIds" ->
            k ∉ Dict.keys (PartialConversation.dict_exclude_unset partial_conversation))
    as Hnot.
  { intros k Hk Hin. apply keys_partial_conversation in Hin.
    destruct Hin as [->|[[-> ?]|[[-> ?]|[[-> ?]|[[-> ?]|[[-> ?]|[[-> ?]|[-> ?]]]]]]]];
      try done; destruct Hk as [?|[?|?]]; discriminate. }
  rewrite get_update_notin in Hs by (apply Hnot; auto).
  rewrite get_update_notin in Ht by (apply Hnot; auto).
  rewrite get_update_notin in Hi by (apply Hnot; auto).
  simpl in Hs, Ht, Hi. injection Hs as Hs. injection Ht as Ht. injection Hi as Hi.
  simpl. rewrite <- Hs, <- Ht, <- Hi, Hid. repeat split.
  eexists. split; [|split; [|split; [exact Hev|]]]; [reflexivity | reflexivity |].
  rewrite Hb. apply lookup_insert_eq.
Qed.

Lemma C9_create_conversation_defaults_witness :
  exists conversation,
    value (@create_conversation local_deployment "hello"
             {| PartialConversation.createdBy := sample_user;
                PartialConversation.status := None;
                PartialConversation.summaryText := None;
                PartialConversation.summaryType := None;
                PartialConversation.blockIds := None;
                PartialConversation.users := None;
                PartialConversation.session := None;
                PartialConversation.blocks := None |}
             "c9" "b9" 11 (start ∅)) = Ok conversation
    /\ Conversation.status conversation = "OPEN"
    /\ Conversation.blockIds conversation = ["b9"].
Proof.
  eexists. split; [vm_compute; reflexivity|].
  edestruct (@C9_create_conversation_defaults local_deployment "hello"
               {| PartialConversation.createdBy := sample_user;
                  PartialConversation.status := None;
                  PartialConversation.summaryText := None;
                  PartialConversation.summaryType := None;
                  PartialConversation.blockIds := None;
                  PartialConversation.users := None;
                  PartialConversation.session := None;
                  PartialConversation.blocks := None |}
               "c9" "b9" 11 (start ∅)) as (Hs & _ & Hi & _).
  - reflexivity.
  - reflexivity.
  - reflexivity.
  - vm_compute; reflexivity.
  - split; [exact Hs | exact Hi].
Defined.

(** ** Hits of the cache *)

Lemma cache_getitem_hit k w e :
  find_entry k (cache w) = Some e ->
  timer w (ticks w) < entry_expires e ->
  fst (cache_getitem k w) = Some (entry_value e)
  /\ bucket (snd (cache_getitem k w)) = bucket w.
Proof.
  intros Hf Hlt. unfold cache_getitem. rewrite Hf. simpl.
  apply Z.ltb_lt in Hlt. by rewrite Hlt.
Qed.

Lemma cached_hit k body w e :
  find_entry k (cache w) = Some e ->
  timer w (ticks w) < entry_expires e ->
  value (cached k body w) = Ok (entry_value e)
  /\ events (cached k body w) = []
  /\ bucket (after (cached k body w)) = bucket w.
Proof.
  intros Hf Hlt. destruct (cache_getitem_hit k w e Hf Hlt) as [Hv Hb].
  unfold cached. destruct (cache_getitem k w) as [hit w']. simpl in *.
  by rewrite Hv.
Qed.

Lemma fetch_block_hit `{Deployment} c bl f w e :
  find_entry (hash_key [AStr c; AStr bl; AStr f] []) (cache w) = Some e ->
  timer w (ticks w) < entry_expires e ->
  value (fetch_block c bl f w) = Ok (entry_value e)
  /\ events (fetch_block c bl f w) = [Fetch FetchBlock (hash_key [AStr c; AStr bl; AStr f] [])]
  /\ bucket (after (fetch_block c bl f w)) = bucket w.
Proof.
  intros Hf Hlt. unfold fetch_block.
  set (k := hash_key [AStr c; AStr bl; AStr f] []) in *.
  match goal with
  | |- context [cached k ?b] => destruct (cached_hit k b w e Hf Hlt) as (Hv & He & Hb)
  end.
  rewrite (value_bind_Ok _ _ _ tt) by reflexivity.
  rewrite (events_bind_Ok _ _ _ tt) by reflexivity.
  rewrite (after_bind_Ok _ _ _ tt) by reflexivity.
  change (after (emit (Fetch FetchBlock k) w)) with w.
  rewrite Hv, He, Hb. done.
Qed.

(** C10.  When the cache holds an entry for the block under the empty
    selection whose time has not passed, and that entry is a block
    document, [create_response] does not read the block from the
    bucket: whatever the bucket holds for it, the document it writes
    back under the block's key is the cached one with the id of the
    new response appended to its [responseIds]. *)
Theorem C10_create_response_rewrites_cached_block `{Deployment}
    (conversation_id block_id : string) (partial_response : PartialResponse.t)
    (new_id : string) (epoch_time : Z) (w : world)
    (response : Response.t) (e : cache_entry) (cached_block : Block.t) :
  Response.validate
    (Dict.update [("id", JStr new_id); ("respondedAt", JInt epoch_time)]
                 (PartialResponse.dict_exclude_unset partial_response)) = Ok response ->
  find_entry (hash_key [AStr conversation_id; AStr block_id; AStr ""] []) (cache w)
  = Some e ->
  timer w (ticks w) < entry_expires e ->
  entry_value e = JDict (Block.dict cached_block) ->
  let o := create_response conversation_id block_id partial_response new_id epoch_time w in
  let written :=
    JDict (Dict.set "responseIds"
             (JList (map JStr (Block.responseIds cached_block ++ [Response.id response])))
             (Block.dict cached_block)) in
  value o = Ok response
  /\ events o
     = [S3Put (get_s3_key conversation_id (Some block_id) (Some (Response.id response)))
              (JDict (Response.dict response));
        Fetch FetchBlock (hash_key [AStr conversation_id; AStr block_id; AStr ""] []);
        S3Put (get_s3_key conversation_id (Some block_id) None) written]
  /\ bucket (after o) !! get_s3_key conversation_id (Some block_id) None = Some written.
Proof.
  intros Hresp Hf Hlt Hval o written. subst o. unfold create_response.
  rewrite Hresp.
  set (w1 := after (put_json_to_s3
                      (get_s3_key conversation_id (Some block_id)
                                  (Some (Response.id response)))
                      (JDict (Response.dict response)) w)).
  assert (find_entry (hash_key [AStr conversation_id; AStr block_id; AStr ""] [])
                     (cache w1) = Some e) as Hf1 by exact Hf.
  assert (timer w1 (ticks w1) < entry_expires e) as Hlt1 by exact Hlt.
  destruct (fetch_block_hit conversation_id block_id "" w1 e Hf1 Hlt1)
    as (Hv & He & Hb).
  assert (Block.validate (entry_value e) = Ok cached_block) as Hblock.
  { rewrite Hval. simpl. by rewrite Block_parse_dict. }
  rewrite (value_bind_Ok _ _ _ response) by reflexivity.
  rewrite (events_bind_Ok _ _ _ response) by reflexivity.
  rewrite (after_bind_Ok _ _ _ response) by reflexivity.
  rewrite (value_bind_Ok _ _ _ tt) by reflexivity.
  rewrite (events_bind_Ok _ _ _ tt) by reflexivity.
  rewrite (after_bind_Ok _ _ _ tt) by reflexivity.
  change (after (lift (Ok response) w)) with w. fold w1.
  rewrite (value_bind_Ok _ _ _ _ Hv), (events_bind_Ok _ _ _ _ Hv),
    (after_bind_Ok _ _ _ _ Hv).
  rewrite (value_bind_Ok _ _ _ cached_block) by (by rewrite value_lift, Hblock).
  rewrite (events_bind_Ok _ _ _ cached_block) by (by rewrite value_lift, Hblock).
  rewrite (after_bind_Ok _ _ _ cached_block) by (by rewrite value_lift, Hblock).
  rewrite !after_lift, !events_lift, He.
  split; [reflexivity|]. split; [reflexivity|].
  simpl. apply lookup_insert_eq.
Qed.

Lemma C10_create_response_rewrites_cached_block_witness :
  bucket (@after_first_response local_deployment)
  !! "history/conversations/c1/blocks/b1.json"
  = Some (JDict (Block.dict
                   {| Block.id := "b1"; Block.inputText := "hello";
                      Block.responseIds := ["r1"]; Block.createdBy := sample_user;
                      Block.createdAt := 100; Block.responses := None |}))
  /\ bucket (after (@create_response local_deployment "c1" "b1"
                      sample_partial_response "r2" 102
                      (@after_first_response local_deployment)))
     !! @get_s3_key local_deployment "c1" (Some "b1") None
     = Some (JDict (Dict.set "responseIds" (JList (map JStr ([] ++ ["r2"])))
                      (Block.dict
                         {| Block.id := "b1"; Block.inputText := "hello";
                            Block.responseIds := []; Block.createdBy := sample_user;
                            Block.createdAt := 100; Block.responses := None |}))).
Proof.
  split; [vm_compute; reflexivity|].
  edestruct (@C10_create_response_rewrites_cached_block local_deployment
               "c1" "b1" sample_partial_response "r2" 102
               (@after_first_response local_deployment)
               {| Response.id := "r2"; Response.source := "agent";
                  Response.responseType := "text"; Response.payload := JDict [];
                  Response.requestedAt := None; Response.respondedAt := Some 102 |}
               {| entry_key := hash_key [AStr "c1"; AStr "b1"; AStr ""] [];
                  entry_value :=
                    JDict (Block.dict
                             {| Block.id := "b1"; Block.inputText := "hello";
                                Block.responseIds := []; Block.createdBy := sample_user;
                                Block.createdAt := 100; Block.responses := None |});
                  entry_expires := 300000 |}
               {| Block.id := "b1"; Block.inputText := "hello";
                  Block.responseIds := []; Block.createdBy := sample_user;
                  Block.createdAt := 100; Block.responses := None |})
    as (_ & _ & Hb).
  - vm_compute; reflexivity.
  - vm_compute; reflexivity.
  - vm_compute; reflexivity.
  - reflexivity.
  - exact Hb.
Defined.

(** ** Reading a run backwards *)

Lemma value_bind_inv {A B} (m : M A) (k : A -> M B) w b :
  value (bind m k w) = Ok b ->
  exists a, value (m w) = Ok a /\ value (k a (after (m w))) = Ok b.
Proof.
  unfold bind. destruct (value (m w)) as [a|e]; simpl; [eauto | discriminate].
Qed.

Lemma value_lift_inv {A} (r : result A) w a : value (lift r w) = Ok a -> r = Ok a.
Proof. by rewrite value_lift. Qed.

Lemma C2_cache_key_is_arguments_only_witness :
  key_of_call (call_of (CallFetchBlocks "c1" ["b1"; "b2"] ""))
  <> key_of_call (call_of (CallFetchBlocks "c1" ["b2"; "b1"] "")).
Proof.
  destruct C2_cache_key_is_arguments_only as (_ & _ & Horder & _).
  apply Horder. discriminate.
Defined.

(** ** Object keys *)

Lemma append_inv_head (p x y : string) : p +:+ x = p +:+ y -> x = y.
Proof. induction p as [|a p IH]; simpl; [done|]. intros [= Heq]. auto. Qed.

Section Keys.
Context `{Deployment}.

(** With no block id, or an empty one, the key is the conversation's;
    with no response id, or an empty one, it is the block's. *)
Lemma get_s3_key_falls_back c b :
  get_s3_key c None None = get_s3_key c (Some "") None
  /\ get_s3_key c (Some "") (Some "") = get_s3_key c None None
  /\ get_s3_key c (Some b) (Some "") = get_s3_key c (Some b) None.
Proof. done. Qed.

Lemma block_key_ne_conversation_key c b :
  b <> "" -> get_s3_key c (Some b) None <> get_s3_key c None None.
Proof.
  intros Hb. unfold get_s3_key. simpl. unfold Str.truthy.
  apply String.eqb_neq in Hb. rewrite Hb. simpl.
  intros Heq. do 5 apply append_inv_head in Heq. discriminate.
Qed.

Lemma response_key_ne_block_key c b r :
  r <> "" -> get_s3_key c (Some b) (Some r) <> get_s3_key c (Some b) None.
Proof.
  intros Hr. unfold get_s3_key. simpl. unfold Str.truthy.
  apply String.eqb_neq in Hr. rewrite Hr. simpl.
  destruct (negb (b =? "")%string) eqn:Eb.
  - intros Heq. do 9 apply append_inv_head in Heq. discriminate.
  - intros Heq. do 5 apply append_inv_head in Heq. discriminate.
Qed.

Lemma response_key_ne_conversation_key c b r :
  r <> "" -> get_s3_key c (Some b) (Some r) <> get_s3_key c None None.
Proof.
  intros Hr. unfold get_s3_key. simpl. unfold Str.truthy.
  apply String.eqb_neq in Hr. rewrite Hr. simpl.
  intros Heq. do 5 apply append_inv_head in Heq. discriminate.
Qed.
End Keys.

Arguments get_s3_key : simpl never.

(** ** Running a handler step by step *)

Lemma bind_Ok {A B} (m : M A) (k : A -> M B) w a :
  value (m w) = Ok a ->
  bind m k w
  = {| value := value (k a (after (m w)));
       after := after (k a (after (m w)));
       events := events (m w) ++ events (k a (after (m w))) |}.
Proof. intros Hv. unfold bind. by rewrite Hv. Qed.

Lemma bind_Raise {A B} (m : M A) (k : A -> M B) w e :
  value (m w) = Raise e ->
  bind m k w = {| value := Raise e; after := after (m w); events := events (m w) |}.
Proof. intros Hv. unfold bind. by rewrite Hv. Qed.

Lemma lift_Ok {A} (a : A) w :
  lift (Ok a) w = {| value := Ok a; after := w; events := [] |}.
Proof. reflexivity. Qed.

Lemma get_Some `{Deployment} key w d :
  bucket w !! key = Some d ->
  get_json_from_s3 key w = {| value := Ok d; after := w; events := [S3Get key] |}.
Proof. intros Hd. unfold get_json_from_s3. by rewrite Hd. Qed.

Lemma get_None `{Deployment} key w :
  bucket w !! key = None ->
  get_json_from_s3 key w
  = {| value := Raise not_found_error; after := w; events := [S3Get key] |}.
Proof. intros Hd. unfold get_json_from_s3. by rewrite Hd. Qed.

Lemma value_get_None `{Deployment} key w :
  bucket w !! key = None -> value (get_json_from_s3 key w) = Raise not_found_error.
Proof. intros Hd. by rewrite get_None. Qed.

Tactic Notation "run_ok" constr(a) "by" tactic(tac) :=
  rewrite (bind_Ok _ _ _ a) by tac; cbv beta; cbn [value after events].

Tactic Notation "run_raise" constr(e) "by" tactic(tac) :=
  rewrite (bind_Raise _ _ _ e) by tac; cbn [value after events].

(** ** Creating a block under a conversation *)

Section CreateBlock.
Context `{Deployment}.
Variables (conversation_id : string) (partial_block : PartialBlock.t)
          (new_id : string) (epoch_time : Z) (w : world) (block : Block.t).

Hypothesis Hvalid :
  Block.validate
    (JDict
       (Dict.update
          [("id", JStr new_id); ("createdAt", JInt epoch_time);
           ("responseIds", JList []);
           ("createdBy",
            JDict (User.dict
                     (default default_creator (PartialBlock.createdBy partial_block))))]
          (PartialBlock.dict_exclude_unset partial_block)))
  = Ok block.

(** X3.  [create_block] writes the block before it reads the parent.
    When the conversation has no stored document the call raises the
    gateway's not-found exception, and the block it has written
    stays in the bucket: nothing is undone. *)
Theorem X3_create_block_orphan :
  Block.id block <> "" ->
  bucket w !! get_s3_key conversation_id None None = None ->
  value (create_block conversation_id partial_block new_id epoch_time w)
  = Raise not_found_error
  /\ events (create_block conversation_id partial_block new_id epoch_time w)
     = [S3Put (get_s3_key conversation_id (Some (Block.id block)) None)
              (JDict (Block.dict block));
        S3Get (get_s3_key conversation_id None None)]
  /\ bucket (after (create_block conversation_id partial_block new_id epoch_time w))
     = <[get_s3_key conversation_id (Some (Block.id block)) None
         := JDict (Block.dict block)]> (bucket w).
Proof.
  intros Hid Hmiss. unfold create_block. rewrite Hvalid.
  run_ok block by reflexivity. run_ok tt by reflexivity.
  rewrite after_lift.
  run_raise not_found_error by
    (apply value_get_None; simpl;
     rewrite lookup_insert_ne; [exact Hmiss|];
     by apply block_key_ne_conversation_key).
  done.
Qed.

(** X2.  When the conversation is stored with a list under
    [blockIds], [create_block] stores the block under its key and
    writes the conversation back with the block's id appended at the
    end of that list, every other entry of the document as it was;
    the cache is not touched. *)
Theorem X2_create_block_appends conversation ids :
  Block.id block <> "" ->
  bucket w !! get_s3_key conversation_id None None = Some (JDict conversation) ->
  Dict.get "blockIds" conversation = Some (JList ids) ->
  let conversation' :=
    JDict (Dict.set "blockIds" (JList (ids ++ [JStr (Block.id block)])) conversation) in
  value (create_block conversation_id partial_block new_id epoch_time w) = Ok block
  /\ events (create_block conversation_id partial_block new_id epoch_time w)
     = [S3Put (get_s3_key conversation_id (Some (Block.id block)) None)
              (JDict (Block.dict block));
        S3Get (get_s3_key conversation_id None None);
        S3Put (get_s3_key conversation_id None None) conversation']
  /\ bucket (after (create_block conversation_id partial_block new_id epoch_time w))
     = <[get_s3_key conversation_id None None := conversation']>
         (<[get_s3_key conversation_id (Some (Block.id block)) None
            := JDict (Block.dict block)]> (bucket w))
  /\ cache (after (create_block conversation_id partial_block new_id epoch_time w))
     = cache w.
Proof.
  intros Hid Hconv Hids conversation'. unfold create_block. rewrite Hvalid.
  run_ok block by reflexivity. run_ok tt by reflexivity.
  rewrite after_lift.
  run_ok (JDict conversation) by
    (apply value_get; simpl;
     rewrite lookup_insert_ne; [exact Hconv|];
     by apply block_key_ne_conversation_key).
  rewrite after_get.
  run_ok (JList ids) by (rewrite value_lift; simpl; by rewrite Hids).
  rewrite after_lift.
  run_ok (JList (ids ++ [JStr (Block.id block)]))
    by (rewrite value_lift; by destruct ids).
  rewrite after_lift.
  run_ok conversation' by reflexivity.
  run_ok tt by reflexivity.
  rewrite !events_lift. done.
Qed.
End CreateBlock.

Lemma X2_create_block_appends_witness :
  value (@create_block local_deployment "c1" sample_partial_block "b7" 200
           (@after_first_response local_deployment))
  = Ok {| Block.id := "b7"; Block.inputText := "again"; Block.responseIds := [];
          Block.createdBy := default_creator; Block.createdAt := 200;
          Block.responses := None |}
  /\ exists conversation,
       bucket (after (@create_block local_deployment "c1" sample_partial_block "b7" 200
                        (@after_first_response local_deployment)))
       !! @get_s3_key local_deployment "c1" None None = Some (JDict conversation)
       /\ Dict.get "blockIds" conversation = Some (JList [JStr "b1"; JStr "b7"]).
Proof.
  edestruct (@X2_create_block_appends local_deployment "c1" sample_partial_block
               "b7" 200 (@after_first_response local_deployment)
               {| Block.id := "b7"; Block.inputText := "again"; Block.responseIds := [];
                  Block.createdBy := default_creator; Block.createdAt := 200;
                  Block.responses := None |})
    as (Hv & _ & Hb & _).
  - vm_compute; reflexivity.
  - discriminate.
  - vm_compute; reflexivity.
  - vm_compute; reflexivity.
  - split; [exact Hv|]. eexists. split.
    + rewrite Hb. apply lookup_insert_eq.
    + vm_compute; reflexivity.
Defined.

Lemma X3_create_block_orphan_witness :
  value (@create_block local_deployment "nowhere" sample_partial_block "b7" 200 (start ∅))
  = Raise (@not_found_error local_deployment)
  /\ bucket (after (@create_block local_deployment "nowhere" sample_partial_block
                      "b7" 200 (start ∅)))
     !! "history/conversations/nowhere/blocks/b7.json"
     = Some (JDict (Block.dict
                      {| Block.id := "b7"; Block.inputText := "again";
                         Block.responseIds := []; Block.createdBy := default_creator;
                         Block.createdAt := 200; Block.responses := None |})).
Proof.
  edestruct (@X3_create_block_orphan local_deployment "nowhere" sample_partial_block
               "b7" 200 (start ∅)
               {| Block.id := "b7"; Block.inputText := "again"; Block.responseIds := [];
                  Block.createdBy := default_creator; Block.createdAt := 200;
                  Block.responses := None |})
    as (Hv & _ & Hb).
  - vm_compute; reflexivity.
  - discriminate.
  - vm_compute; reflexivity.
  - split; [exact Hv|]. rewrite Hb. vm_compute; reflexivity.
Defined.

(** X1.  What a model writes it reads back: validating the [dict()]
    of a user, a response, a block or a conversation succeeds and
    gives the same model, children included. *)
Theorem X1_models_round_trip :
  (forall u, User.parse (User.dict u) = Some u)
  /\ (forall r, Response.validate (Response.dict r) = Ok r)
  /\ (forall b, Block.validate (JDict (Block.dict b)) = Ok b)
  /\ (forall c, Conversation.validate (Conversation.dict c) = Ok c).
Proof.
  split; [apply User_parse_dict|]. split; [|split].
  - intros r. unfold Response.validate. by rewrite Response_parse_dict.
  - intros b. simpl. by rewrite Block_parse_dict.
  - intros c. unfold Conversation.validate. by rewrite Conversation_parse_dict.
Qed.

(** ** Misses of the cache *)

Lemma find_entry_app k l l' :
  find_entry k (l ++ l')
  = match find_entry k l with Some e => Some e | None => find_entry k l' end.
Proof.
  induction l as [|e l IH]; simpl; [reflexivity|].
  by destruct (decide (entry_key e = k)).
Qed.

Lemma find_entry_drop_entry k l : find_entry k (drop_entry k l) = None.
Proof.
  apply find_entry_None. intros e He. unfold drop_entry in He.
  apply list_elem_of_filter in He as [Hne _]. exact Hne.
Qed.

Lemma find_entry_drop_entry_ne k k' l :
  k <> k' -> find_entry k' (drop_entry k l) = find_entry k' l.
Proof.
  intros Hne. unfold drop_entry. induction l as [|e l IH]; [reflexivity|].
  rewrite filter_cons. destruct (decide (entry_key e <> k)) as [Hk|Hk]; simpl.
  - by rewrite IH.
  - destruct (decide (entry_key e = k')) as [Hk'|Hk']; [|exact IH].
    exfalso. apply Hk. congruence.
Qed.

Lemma find_entry_setitem k v w :
  find_entry k (cache (cache_setitem k v w))
  = Some {| entry_key := k; entry_value := v;
            entry_expires := timer w (ticks w) + ttl |}.
Proof.
  unfold cache_setitem. simpl. rewrite find_entry_app, find_entry_drop_entry.
  simpl. by rewrite decide_True.
Qed.

Lemma cache_getitem_miss k w :
  find_entry k (cache w) = None -> cache_getitem k w = (None, w).
Proof. intros Hf. unfold cache_getitem. by rewrite Hf. Qed.

Lemma cached_miss k body w :
  find_entry k (cache w) = None ->
  cached k body w
  = match value (body w) with
    | Ok v => {| value := Ok v; after := cache_setitem k v (after (body w));
                 events := events (body w) |}
    | Raise e => body w
    end.
Proof. intros Hf. unfold cached. by rewrite (cache_getitem_miss _ _ Hf). Qed.

Lemma fetch_block_miss_plain `{Deployment} c bl f w doc :
  find_entry (hash_key [AStr c; AStr bl; AStr f] []) (cache w) = None ->
  wants_responses f = false ->
  bucket w !! get_s3_key c (Some bl) None = Some doc ->
  fetch_block c bl f w
  = {| value := Ok doc;
       after := cache_setitem (hash_key [AStr c; AStr bl; AStr f] []) doc w;
       events := [Fetch FetchBlock (hash_key [AStr c; AStr bl; AStr f] []);
                  S3Get (get_s3_key c (Some bl) None)] |}.
Proof.
  intros Hf Hw Hdoc. unfold fetch_block. rewrite Hw.
  run_ok tt by reflexivity.
  change (after (emit _ w)) with w.
  rewrite (cached_miss _ _ _ Hf).
  rewrite (bind_Ok _ _ _ doc) by (by apply value_get).
  cbv beta. cbn [value after events]. rewrite after_get.
  unfold get_json_from_s3. simpl. reflexivity.
Qed.

Lemma fetch_block_miss_absent `{Deployment} c bl f w :
  find_entry (hash_key [AStr c; AStr bl; AStr f] []) (cache w) = None ->
  bucket w !! get_s3_key c (Some bl) None = None ->
  fetch_block c bl f w
  = {| value := Raise not_found_error; after := w;
       events := [Fetch FetchBlock (hash_key [AStr c; AStr bl; AStr f] []);
                  S3Get (get_s3_key c (Some bl) None)] |}.
Proof.
  intros Hf Hdoc. unfold fetch_block.
  run_ok tt by reflexivity.
  change (after (emit _ w)) with w.
  rewrite (cached_miss _ _ _ Hf).
  rewrite (bind_Raise _ _ _ not_found_error) by (by apply value_get_None).
  cbn [value after events]. rewrite after_get.
  unfold get_json_from_s3. simpl. reflexivity.
Qed.

(** ** Creating responses under a block *)

Section CreateResponse.
Context `{Deployment}.
Variables (conversation_id block_id : string).

Abbreviation block_key := (get_s3_key conversation_id (Some block_id) None).
Abbreviation the_key := (hash_key [AStr conversation_id; AStr block_id; AStr ""] []).

(** The parent block comes from the bucket. *)
Lemma create_response_miss partial_response new_id epoch_time w response b :
  Response.validate
    (Dict.update [("id", JStr new_id); ("respondedAt", JInt epoch_time)]
                 (PartialResponse.dict_exclude_unset partial_response)) = Ok response ->
  Response.id response <> "" ->
  find_entry the_key (cache w) = None ->
  bucket w !! block_key = Some (JDict (Block.dict b)) ->
  let response_key :=
    get_s3_key conversation_id (Some block_id) (Some (Response.id response)) in
  let b' := Block.append_response (Response.id response) b in
  let w1 :=
    {| bucket := <[response_key := JDict (Response.dict response)]> (bucket w);
       cache := cache w; timer := timer w; ticks := ticks w |} in
  create_response conversation_id block_id partial_response new_id epoch_time w
  = {| value := Ok response;
       after :=
         {| bucket := <[block_key := JDict (Block.dict b')]>
                        (<[response_key := JDict (Response.dict response)]> (bucket w));
            cache := cache (cache_setitem the_key (JDict (Block.dict b)) w1);
            timer := timer w; ticks := S (ticks w) |};
       events := [S3Put response_key (JDict (Response.dict response));
                  Fetch FetchBlock the_key; S3Get block_key;
                  S3Put block_key (JDict (Block.dict b'))] |}.
Proof.
  intros Hresp Hid Hf Hb response_key b' w1. unfold create_response. rewrite Hresp.
  run_ok response by reflexivity. run_ok tt by reflexivity.
  rewrite after_lift.
  change (after (put_json_to_s3 _ _ w)) with w1.
  assert (bucket w1 !! block_key = Some (JDict (Block.dict b))) as Hb1.
  { simpl. rewrite lookup_insert_ne; [exact Hb|].
    by apply response_key_ne_block_key. }
  pose proof (fetch_block_miss_plain _ _ _ w1 _ Hf eq_refl Hb1) as Hfetch.
  run_ok (JDict (Block.dict b)) by (by rewrite Hfetch).
  rewrite !Hfetch. cbn [value after events].
  run_ok b by (rewrite value_lift; simpl; by rewrite Block_parse_dict).
  rewrite !after_lift, !events_lift.
  run_ok tt by reflexivity. reflexivity.
Qed.

(** The parent block comes from the cache. *)
Lemma create_response_hit partial_response new_id epoch_time w response e b :
  Response.validate
    (Dict.update [("id", JStr new_id); ("respondedAt", JInt epoch_time)]
                 (PartialResponse.dict_exclude_unset partial_response)) = Ok response ->
  find_entry the_key (cache w) = Some e ->
  timer w (ticks w) < entry_expires e ->
  entry_value e = JDict (Block.dict b) ->
  value (create_response conversation_id block_id partial_response new_id epoch_time w)
  = Ok response
  /\ bucket (after (create_response conversation_id block_id partial_response new_id
                      epoch_time w)) !! block_key
     = Some (JDict (Block.dict (Block.append_response (Response.id response) b))).
Proof.
  intros Hresp Hf Hlt Hval. unfold create_response. rewrite Hresp.
  run_ok response by reflexivity. run_ok tt by reflexivity.
  rewrite after_lift.
  set (w1 := after (put_json_to_s3 _ _ w)).
  assert (find_entry the_key (cache w1) = Some e) as Hf1 by exact Hf.
  assert (timer w1 (ticks w1) < entry_expires e) as Hlt1 by exact Hlt.
  destruct (fetch_block_hit conversation_id block_id "" w1 e Hf1 Hlt1)
    as (Hv & He & Hbk).
  run_ok (JDict (Block.dict b)) by (by rewrite Hv, Hval).
  run_ok b by (rewrite value_lift; simpl; by rewrite Block_parse_dict).
  rewrite !after_lift.
  run_ok tt by reflexivity.
  split; [reflexivity|]. simpl. apply lookup_insert_eq.
Qed.

(** X4.  From a cache without an entry for the block,
    [create_response] stores the response, reads the block from the
    bucket and writes it back with the id of the response appended
    at the end of [responseIds]; the cache is left holding the block
    as it was before the id was appended. *)
Theorem X4_create_response_appends partial_response new_id epoch_time w response b :
  Response.validate
    (Dict.update [("id", JStr new_id); ("respondedAt", JInt epoch_time)]
                 (PartialResponse.dict_exclude_unset partial_response)) = Ok response ->
  Response.id response <> "" ->
  find_entry the_key (cache w) = None ->
  bucket w !! block_key = Some (JDict (Block.dict b)) ->
  let o := create_response conversation_id block_id partial_response new_id
             epoch_time w in
  value o = Ok response
  /\ bucket (after o) !! block_key
     = Some (JDict (Block.dict (Block.append_response (Response.id response) b)))
  /\ bucket (after o)
     !! get_s3_key conversation_id (Some block_id) (Some (Response.id response))
     = Some (JDict (Response.dict response))
  /\ find_entry the_key (cache (after o))
     = Some {| entry_key := the_key; entry_value := JDict (Block.dict b);
               entry_expires := timer w (ticks w) + ttl |}.
Proof.
  intros Hresp Hid Hf Hb o. subst o.
  rewrite (create_response_miss _ _ _ _ _ _ Hresp Hid Hf Hb).
  cbn [value after events bucket cache].
  split; [reflexivity|]. split; [apply lookup_insert_eq|]. split.
  - rewrite lookup_insert_ne; [apply lookup_insert_eq|].
    apply not_eq_sym. by apply response_key_ne_block_key.
  - rewrite find_entry_setitem. reflexivity.
Qed.

(** X5.  Two responses created one after the other, the second while
    the entry the first left in the cache has not expired: the
    second call takes the block from the cache, as it was before the
    first id was appended, and the block it writes back lists the
    second response id and not the first. *)
Theorem X5_second_response_drops_first
    partial1 id1 time1 response1 partial2 id2 time2 response2 w b :
  Response.validate
    (Dict.update [("id", JStr id1); ("respondedAt", JInt time1)]
                 (PartialResponse.dict_exclude_unset partial1)) = Ok response1 ->
  Response.validate
    (Dict.update [("id", JStr id2); ("respondedAt", JInt time2)]
                 (PartialResponse.dict_exclude_unset partial2)) = Ok response2 ->
  Response.id response1 <> "" ->
  find_entry the_key (cache w) = None ->
  bucket w !! block_key = Some (JDict (Block.dict b)) ->
  timer w (S (ticks w)) < timer w (ticks w) + ttl ->
  let w1 := after (create_response conversation_id block_id partial1 id1 time1 w) in
  let w2 := after (create_response conversation_id block_id partial2 id2 time2 w1) in
  bucket w1 !! block_key
  = Some (JDict (Block.dict (Block.append_response (Response.id response1) b)))
  /\ bucket w2 !! block_key
     = Some (JDict (Block.dict (Block.append_response (Response.id response2) b))).
Proof.
  intros Hr1 Hr2 Hid Hf Hb Hlt w1 w2.
  assert (bucket w1 !! block_key
          = Some (JDict (Block.dict (Block.append_response (Response.id response1) b)))
          /\ find_entry the_key (cache w1)
             = Some {| entry_key := the_key; entry_value := JDict (Block.dict b);
                       entry_expires := timer w (ticks w) + ttl |}
          /\ timer w1 = timer w /\ ticks w1 = S (ticks w)) as (Hb1 & Hf1 & Ht & Hk).
  { subst w1. rewrite (create_response_miss _ _ _ _ _ _ Hr1 Hid Hf Hb).
    cbn [value after events bucket cache timer ticks].
    split; [apply lookup_insert_eq|].
    split; [rewrite find_entry_setitem; reflexivity|]. done. }
  split; [exact Hb1|]. subst w2.
  eapply (create_response_hit _ _ _ w1); [exact Hr2 | exact Hf1 | | reflexivity].
  rewrite Ht, Hk. exact Hlt.
Qed.
End CreateResponse.

Lemma X4_create_response_appends_witness :
  bucket (after (@create_response local_deployment "c1" "b1" sample_partial_response
                   "r1" 101 (@after_create local_deployment)))
  !! @get_s3_key local_deployment "c1" (Some "b1") None
  = Some (JDict (Block.dict (Block.append_response "r1" first_block))).
Proof.
  edestruct (@X4_create_response_appends local_deployment "c1" "b1"
               sample_partial_response "r1" 101 (@after_create local_deployment)
               (response_at "r1" 101) first_block) as (_ & Hb & _).
  - vm_compute; reflexivity.
  - discriminate.
  - vm_compute; reflexivity.
  - vm_compute; reflexivity.
  - exact Hb.
Defined.

Lemma X5_second_response_drops_first_witness :
  bucket (after (@create_response local_deployment "c1" "b1" sample_partial_response
                   "r2" 102
                   (after (@create_response local_deployment "c1" "b1"
                             sample_partial_response "r1" 101
                             (@after_create local_deployment)))))
  !! @get_s3_key local_deployment "c1" (Some "b1") None
  = Some (JDict (Block.dict (Block.append_response "r2" first_block))).
Proof.
  edestruct (@X5_second_response_drops_first local_deployment "c1" "b1"
               sample_partial_response "r1" 101 (response_at "r1" 101)
               sample_partial_response "r2" 102 (response_at "r2" 102)
               (@after_create local_deployment) first_block) as (_ & Hb).
  - vm_compute; reflexivity.
  - vm_compute; reflexivity.
  - discriminate.
  - vm_compute; reflexivity.
  - vm_compute; reflexivity.
  - vm_compute; reflexivity.
  - exact Hb.
Defined.

(** ** Reading what is not there, and what was there *)

(** X6.  A document that is not stored: [read_block] and
    [read_response] raise the gateway's exception as it is, with the
    vendor's code as status, after one request to the gateway;
    [read_conversation] raises status 500 with the text of that
    exception.  None of them changes the world. *)
Theorem X6_read_of_missing_document `{SetOrder} `{Deployment}
    (w : world) (conversation_id block_id response_id : string)
    (fields : option string) :
  (bucket w !! get_s3_key conversation_id (Some block_id) None = None ->
   read_block conversation_id block_id fields w
   = {| value := Raise (HTTPException (StatusCode missing_key_code) missing_key_message);
        after := w;
        events := [S3Get (get_s3_key conversation_id (Some block_id) None)] |})
  /\ (bucket w !! get_s3_key conversation_id (Some block_id) (Some response_id) = None ->
      read_response conversation_id block_id response_id fields w
      = {| value := Raise (HTTPException (StatusCode missing_key_code)
                                         missing_key_message);
           after := w;
           events := [S3Get (get_s3_key conversation_id (Some block_id)
                                        (Some response_id))] |})
  /\ (bucket w !! get_s3_key conversation_id None None = None ->
      read_conversation conversation_id fields w
      = {| value := Raise (HTTPException (StatusNum 500)
                             (missing_key_code +:+ ": " +:+ missing_key_message));
           after := w;
           events := [S3Get (get_s3_key conversation_id None None)] |}).
Proof.
  split; [|split]; intros Hmiss.
  - unfold read_block.
    run_raise not_found_error by (by apply value_get_None).
    by rewrite after_get.
  - unfold read_response.
    run_raise not_found_error by (by apply value_get_None).
    by rewrite after_get.
  - unfold read_conversation, except_500.
    rewrite (bind_Raise _ _ _ not_found_error) by (by apply value_get_None).
    cbn [value after events]. by rewrite after_get.
Qed.

Lemma X6_read_of_missing_document_witness :
  value (@read_block first_seen_order local_deployment "c1" "b9" None
           (start sample_bucket))
  = Raise (HTTPException (StatusCode "NoSuchKey") "The specified key does not exist.").
Proof.
  destruct (@X6_read_of_missing_document first_seen_order local_deployment
              (start sample_bucket) "c1" "b9" "r9" None) as (Hblock & _).
  rewrite Hblock; [reflexivity|]. vm_compute; reflexivity.
Defined.


(** X8.  After [update_block] the document under the block's key is
    the [dict()] of the body, whatever id the body carries.  A
    [fetch_block] with no entry in the cache returns it, and it
    validates back to the body; one with an entry that has not
    expired returns that entry instead of what was just written. *)
Theorem X8_update_block_then_fetch `{Deployment}
    (w : world) (conversation_id block_id : string) (body : Block.t) :
  let w' := after (update_block conversation_id block_id body w) in
  let k := hash_key [AStr conversation_id; AStr block_id; AStr ""] [] in
  bucket w' !! get_s3_key conversation_id (Some block_id) None
  = Some (JDict (Block.dict body))
  /\ (find_entry k (cache w) = None ->
      value (fetch_block conversation_id block_id "" w') = Ok (JDict (Block.dict body))
      /\ result_bind (value (fetch_block conversation_id block_id "" w')) Block.validate
         = Ok body)
  /\ (forall e,
        find_entry k (cache w) = Some e ->
        timer w (ticks w) < entry_expires e ->
        value (fetch_block conversation_id block_id "" w') = Ok (entry_value e)).
Proof.
  intros w' k.
  assert (bucket w' !! get_s3_key conversation_id (Some block_id) None
          = Some (JDict (Block.dict body))) as Hb by apply lookup_insert_eq.
  split; [exact Hb|]. split.
  - intros Hf.
    rewrite (fetch_block_miss_plain conversation_id block_id "" w' _ Hf eq_refl Hb).
    cbn [value]. split; [reflexivity|]. simpl. by rewrite Block_parse_dict.
  - intros e Hf Hlt.
    by destruct (fetch_block_hit conversation_id block_id "" w' e Hf Hlt) as (Hv & _).
Qed.

Lemma X8_update_block_then_fetch_witness :
  value (@fetch_block local_deployment "c1" "b1" ""
           (after (@update_block local_deployment "c1" "b1"
                     (sample_block "zz" ["r1"]) (start sample_bucket))))
  = Ok (JDict (Block.dict (sample_block "zz" ["r1"]))).
Proof.
  destruct (@X8_update_block_then_fetch local_deployment (start sample_bucket)
              "c1" "b1" (sample_block "zz" ["r1"])) as (_ & Hmiss & _).
  apply Hmiss. reflexivity.
Defined.


(** ** The memoised fetches, hit and miss *)

Lemma find_entry_getitem k w e :
  find_entry k (cache w) = Some e ->
  find_entry k (cache (snd (cache_getitem k w))) = Some e.
Proof.
  intros Hf. unfold cache_getitem. rewrite Hf. simpl.
  rewrite find_entry_app, find_entry_drop_entry. simpl.
  apply find_entry_Some in Hf as [_ Hk]. by rewrite decide_True.
Qed.

Lemma cached_stores k body w v :
  value (cached k body w) = Ok v ->
  exists e,
    find_entry k (cache (after (cached k body w))) = Some e /\ entry_value e = v.
Proof.
  unfold cached. destruct (find_entry k (cache w)) as [e|] eqn:Ef.
  - pose proof (find_entry_getitem k w e Ef) as Hf'.
    unfold cache_getitem in *. rewrite Ef in *. cbn [fst snd] in *.
    destruct (timer w (ticks w) <? entry_expires e).
    + cbn [value after]. intros [= <-]. eauto.
    + destruct (value (body _)) as [v'|] eqn:Ev; cbn [value after];
        [|by rewrite Ev].
      intros [= <-]. rewrite find_entry_setitem. eauto.
  - rewrite (cache_getitem_miss _ _ Ef).
    destruct (value (body w)) as [v'|] eqn:Ev; cbn [value after]; [|by rewrite Ev].
    intros [= <-]. rewrite find_entry_setitem. eauto.
Qed.

Lemma memo_stores ev k body w v :
  value ((emit ev ;;; cached k body) w) = Ok v ->
  exists e,
    find_entry k (cache (after ((emit ev ;;; cached k body) w))) = Some e
    /\ entry_value e = v.
Proof.
  rewrite (bind_Ok _ _ _ tt) by reflexivity. cbn [value after].
  apply cached_stores.
Qed.

Lemma memo_hit ev k body w e :
  find_entry k (cache w) = Some e ->
  timer w (ticks w) < entry_expires e ->
  value ((emit ev ;;; cached k body) w) = Ok (entry_value e)
  /\ events ((emit ev ;;; cached k body) w) = [ev].
Proof.
  intros Hf Hlt. destruct (cached_hit k body w e Hf Hlt) as (Hv & He & _).
  rewrite (bind_Ok _ _ _ tt) by reflexivity. cbn [value after events].
  change (after (emit ev w)) with w. by rewrite Hv, He.
Qed.

Lemma memo_repeat ev k body w v :
  value ((emit ev ;;; cached k body) w) = Ok v ->
  exists e,
    find_entry k (cache (after ((emit ev ;;; cached k body) w))) = Some e
    /\ entry_value e = v
    /\ forall w',
         find_entry k (cache w') = Some e ->
         timer w' (ticks w') < entry_expires e ->
         value ((emit ev ;;; cached k body) w') = Ok v
         /\ events ((emit ev ;;; cached k body) w') = [ev].
Proof.
  intros Hv. destruct (memo_stores _ _ _ _ _ Hv) as (e & Hf & He).
  exists e. split; [exact Hf|]. split; [exact He|].
  intros w' Hf' Hlt.
  destruct (memo_hit ev k body w' e Hf' Hlt) as [Hv' He'].
  split; [by rewrite <- He | exact He'].
Qed.

(** X9.  A fetch that returned a value has left it in the cache
    under its key.  A later call with the same arguments that finds
    that entry still in the cache, neither evicted to make room nor
    replaced, and reads the timer before the entry expires, returns
    the same value and asks the gateway nothing, whatever has
    happened to the bucket and to the rest of the cache since.  This
    holds for each of the three fetches. *)
Theorem X9_repeated_fetch_is_served_from_cache `{Deployment} (w : world) (v : json) :
  (forall c ids f,
     value (fetch_blocks c ids f w) = Ok v ->
     exists e,
       find_entry (hash_key [AStr c; ATuple ids; AStr f] [])
                  (cache (after (fetch_blocks c ids f w))) = Some e
       /\ entry_value e = v
       /\ forall w',
            find_entry (hash_key [AStr c; ATuple ids; AStr f] []) (cache w') = Some e ->
            timer w' (ticks w') < entry_expires e ->
            value (fetch_blocks c ids f w') = Ok v
            /\ events (fetch_blocks c ids f w')
               = [Fetch FetchBlocks (hash_key [AStr c; ATuple ids; AStr f] [])])
  /\ (forall c b f,
        value (fetch_block c b f w) = Ok v ->
        exists e,
          find_entry (hash_key [AStr c; AStr b; AStr f] [])
                     (cache (after (fetch_block c b f w))) = Some e
          /\ entry_value e = v
          /\ forall w',
               find_entry (hash_key [AStr c; AStr b; AStr f] []) (cache w') = Some e ->
               timer w' (ticks w') < entry_expires e ->
               value (fetch_block c b f w') = Ok v
               /\ events (fetch_block c b f w')
                  = [Fetch FetchBlock (hash_key [AStr c; AStr b; AStr f] [])])
  /\ (forall c b ids,
        value (fetch_responses c b ids w) = Ok v ->
        exists e,
          find_entry (hash_key [AStr c; AStr b; ATuple ids] [])
                     (cache (after (fetch_responses c b ids w))) = Some e
          /\ entry_value e = v
          /\ forall w',
               find_entry (hash_key [AStr c; AStr b; ATuple ids] []) (cache w') = Some e ->
               timer w' (ticks w') < entry_expires e ->
               value (fetch_responses c b ids w') = Ok v
               /\ events (fetch_responses c b ids w')
                  = [Fetch FetchResponses (hash_key [AStr c; AStr b; ATuple ids] [])]).
Proof.
  split; [|split]; intros; by apply memo_repeat.
Qed.

Lemma X9_repeated_fetch_is_served_from_cache_witness :
  exists v,
    value (@fetch_blocks local_deployment "c1" ["b1"; "b2"] "" (start sample_bucket))
    = Ok v
    /\ value (@fetch_blocks local_deployment "c1" ["b1"; "b2"] ""
                (after (@delete_block local_deployment "c1" "b2"
                          (after (@fetch_blocks local_deployment "c1" ["b1"; "b2"] ""
                                    (start sample_bucket)))))) = Ok v.
Proof.
  eexists. split; [vm_compute; reflexivity|].
  edestruct (@X9_repeated_fetch_is_served_from_cache local_deployment
               (start sample_bucket)) as (Hblocks & _).
  edestruct (Hblocks "c1" ["b1"; "b2"] "") as (e & Hf & He & Hagain).
  - vm_compute; reflexivity.
  - vm_compute in Hf. injection Hf as <-.
    edestruct (Hagain (after (@delete_block local_deployment "c1" "b2"
                                (after (@fetch_blocks local_deployment "c1" ["b1"; "b2"]
                                          "" (start sample_bucket))))))
      as [Hv' _].
    + vm_compute; reflexivity.
    + vm_compute; reflexivity.
    + exact Hv'.
Defined.

Lemma for_each_get `{Deployment} (key : string -> string) ids w :
  for_each (fun id => get_json_from_s3 (key id)) ids w
  = {| value := collect (map (fun id => stored_doc (bucket w) (key id)) ids);
       after := w;
       events := map S3Get (asked (bucket w) (map key ids)) |}.
Proof.
  induction ids as [|id ids IH]; [reflexivity|].
  cbn [for_each map asked collect].
  destruct (bucket w !! key id) as [d|] eqn:Ed.
  - rewrite (bind_Ok _ _ _ d) by (by apply value_get).
    cbv beta. rewrite after_get.
    unfold stored_doc at 1. rewrite Ed. cbn [result_bind].
    destruct (collect (map (fun id => stored_doc (bucket w) (key id)) ids))
      as [ds|e] eqn:Ec.
    + rewrite (bind_Ok _ _ _ ds) by (by rewrite IH).
      rewrite IH. simpl. by rewrite app_nil_r.
    + rewrite (bind_Raise _ _ _ e) by (by rewrite IH).
      rewrite IH. simpl. reflexivity.
  - rewrite (bind_Raise _ _ _ not_found_error) by (by apply value_get_None).
    rewrite after_get. unfold stored_doc at 1. rewrite Ed. reflexivity.
Qed.

Lemma fetch_responses_body `{Deployment} c b ids w :
  (responses <-
     for_each (fun response_id =>
                 get_json_from_s3 (get_s3_key c (Some b) (Some response_id))) ids ;;
   ret (JList responses)) w
  = {| value := stored_responses (bucket w) c b ids;
       after := w;
       events := map S3Get
                   (asked (bucket w)
                          (map (fun id => get_s3_key c (Some b) (Some id)) ids)) |}.
Proof.
  unfold stored_responses.
  destruct (collect (map (fun id => stored_doc (bucket w)
                                      (get_s3_key c (Some b) (Some id))) ids))
    as [ds|e] eqn:Ec.
  - rewrite (bind_Ok _ _ _ ds) by (by rewrite for_each_get).
    rewrite for_each_get. cbn [value after events result_map result_bind].
    by rewrite app_nil_r.
  - rewrite (bind_Raise _ _ _ e) by (by rewrite for_each_get).
    rewrite for_each_get. reflexivity.
Qed.

(** X10.  With no entry for its key, [fetch_responses] asks the
    gateway for the responses in the order of the ids, one request
    each, and stops at the first that is not stored.  What it answers
    is what the bucket holds.  A list it returns is stored under the
    key until 300000 units after the timer's reading; a failure
    stores nothing and leaves the world as it was. *)
Theorem X10_fetch_responses_on_a_miss `{Deployment}
    (w : world) (c b : string) (ids : list string) :
  find_entry (hash_key [AStr c; AStr b; ATuple ids] []) (cache w) = None ->
  let o := fetch_responses c b ids w in
  let k := hash_key [AStr c; AStr b; ATuple ids] [] in
  value o = stored_responses (bucket w) c b ids
  /\ events o
     = Fetch FetchResponses k
       :: map S3Get (asked (bucket w)
                           (map (fun id => get_s3_key c (Some b) (Some id)) ids))
  /\ (forall v, value o = Ok v ->
                after o = cache_setitem k v w
                /\ find_entry k (cache (after o))
                   = Some {| entry_key := k; entry_value := v;
                             entry_expires := timer w (ticks w) + 300000 |})
  /\ (forall e, value o = Raise e -> after o = w).
Proof.
  intros Hf o k. subst o. unfold fetch_responses. fold k.
  rewrite (bind_Ok _ _ _ tt) by reflexivity. cbv beta.
  change (after (emit _ w)) with w. cbn [value after events].
  rewrite (cached_miss _ _ _ Hf), fetch_responses_body. cbn [value after events].
  destruct (stored_responses (bucket w) c b ids) as [v|e]; cbn [value after events].
  - split; [reflexivity|]. split; [reflexivity|]. split; [|discriminate].
    intros v' [= <-]. split; [reflexivity|]. apply find_entry_setitem.
  - split; [reflexivity|]. split; [reflexivity|]. split; [discriminate|].
    reflexivity.
Qed.

Lemma X10_fetch_responses_on_a_miss_witness :
  events (@fetch_responses local_deployment "c1" "b1" ["r1"; "r9"; "r2"]
            (start sample_bucket))
  = [Fetch FetchResponses (hash_key [AStr "c1"; AStr "b1"; ATuple ["r1"; "r9"; "r2"]] []);
     S3Get "history/conversations/c1/blocks/b1/responses/r1.json";
     S3Get "history/conversations/c1/blocks/b1/responses/r9.json"].
Proof.
  edestruct (@X10_fetch_responses_on_a_miss local_deployment (start sample_bucket)
               "c1" "b1" ["r1"; "r9"; "r2"]) as (_ & Hev & _).
  - reflexivity.
  - rewrite Hev. vm_compute; reflexivity.
Defined.

(** X11.  An entry whose time has passed is not used: the fetch reads
    the bucket again and answers what the bucket holds now, whatever
    the entry held. *)
Theorem X11_expired_entry_is_refetched `{Deployment}
    (w : world) (c b : string) (ids : list string) (e : cache_entry) :
  find_entry (hash_key [AStr c; AStr b; ATuple ids] []) (cache w) = Some e ->
  entry_expires e <= timer w (ticks w) ->
  value (fetch_responses c b ids w) = stored_responses (bucket w) c b ids
  /\ events (fetch_responses c b ids w)
     = Fetch FetchResponses (hash_key [AStr c; AStr b; ATuple ids] [])
       :: map S3Get (asked (bucket w)
                           (map (fun id => get_s3_key c (Some b) (Some id)) ids)).
Proof.
  intros Hf Hexp. unfold fetch_responses.
  rewrite (bind_Ok _ _ _ tt) by reflexivity. cbv beta.
  change (after (emit _ w)) with w. cbn [value after events].
  unfold cached, cache_getitem. rewrite Hf.
  apply Z.ltb_ge in Hexp. rewrite Hexp.
  rewrite fetch_responses_body. cbn [value after events bucket].
  by destruct (stored_responses (bucket w) c b ids).
Qed.

Lemma X11_expired_entry_is_refetched_witness :
  value (@fetch_responses local_deployment "c1" "b1" ["r1"]
           {| bucket := sample_bucket;
              cache := [{| entry_key := hash_key [AStr "c1"; AStr "b1"; ATuple ["r1"]] [];
                           entry_value := JList []; entry_expires := 5 |}];
              timer := fun _ => 10; ticks := 0 |})
  = Ok (JList [JDict (Response.dict (sample_response "r1"))]).
Proof.
  edestruct (@X11_expired_entry_is_refetched local_deployment
               {| bucket := sample_bucket;
                  cache := [{| entry_key :=
                                 hash_key [AStr "c1"; AStr "b1"; ATuple ["r1"]] [];
                               entry_value := JList []; entry_expires := 5 |}];
                  timer := fun _ => 10; ticks := 0 |}
               "c1" "b1" ["r1"]) as (Hv & _).
  - vm_compute; reflexivity.
  - vm_compute. discriminate.
  - rewrite Hv. vm_compute; reflexivity.
Defined.

(** ** Which keys the projector keeps *)

Lemma keys_get_Some {V} k (d : list (string * V)) :
  k ∈ Dict.keys d -> exists v, Dict.get k d = Some v.
Proof.
  intros Hin. destruct (Dict.get k d) as [v|] eqn:E; [eauto|].
  apply get_None_keys in E. contradiction.
Qed.

Lemma keys_set_inv {V} k (v : V) d k' :
  k' ∈ Dict.keys (Dict.set k v d) -> k' = k \/ k' ∈ Dict.keys d.
Proof.
  rewrite keys_set. destruct (Dict.mem k d); [by right|].
  intros Hin. apply elem_of_app in Hin as [Hin|Hin]; [by right|].
  apply list_elem_of_singleton in Hin. by left.
Qed.

Lemma keys_add_field_part_inv fp field k :
  k ∈ Dict.keys (add_field_part fp field) -> k = head_part field \/ k ∈ Dict.keys fp.
Proof.
  unfold add_field_part, head_part.
  set (p0 := hd "" (Str.split "." field)).
  set (fp' := if Dict.mem p0 fp then fp else Dict.set p0 [] fp).
  assert (k ∈ Dict.keys fp' -> k = p0 \/ k ∈ Dict.keys fp) as Hfp'.
  { unfold fp'. destruct (Dict.mem p0 fp); [by right|]. apply keys_set_inv. }
  destruct (1 <? _)%nat; [|exact Hfp'].
  destruct (Dict.get p0 fp'); [|exact Hfp'].
  intros Hin. apply keys_set_inv in Hin as [->|Hin]; [by left | auto].
Qed.

Lemma keys_fold_add_field_part_iff L : forall fp k,
  k ∈ Dict.keys (fold_left add_field_part L fp)
  <-> k ∈ Dict.keys fp \/ exists f, f ∈ L /\ head_part f = k.
Proof.
  induction L as [|g L IH]; intros fp k; simpl.
  - split; [by left|]. intros [Hk|(f & Hf & _)]; [done | inversion Hf].
  - rewrite IH. split.
    + intros [Hk|(f & Hf & Hh)].
      * apply keys_add_field_part_inv in Hk as [->|Hk]; [|by left].
        right. exists g. split; [left | reflexivity].
      * right. exists f. split; [by right | done].
    + intros [Hk|(f & Hf & Hh)].
      * left. by apply (proj2 (keys_add_field_part fp g)).
      * apply elem_of_cons in Hf as [->|Hf].
        -- left. rewrite <- Hh. apply (proj1 (keys_add_field_part fp g)).
        -- right. eauto.
Qed.

Lemma elem_of_include_fields `{SetOrder} D A f :
  f ∈ include_fields D A
  <-> f ∈ D
      \/ exists p dflt,
           p ∈ A /\ Dict.get (head_part p) nested_default_fields = Some dflt /\ f ∈ dflt.
Proof.
  unfold include_fields. rewrite elem_of_app. split.
  - intros [Hf|Hf]; [by left|]. right.
    apply list_elem_of_In, in_flat_map in Hf as (p & Hp & Hf).
    apply list_elem_of_In, set_iter_elem_1 in Hp.
    destruct (Dict.get (head_part p) nested_default_fields) as [dflt|] eqn:E;
      [|inversion Hf].
    exists p, dflt. split; [done|]. split; [done|]. by apply list_elem_of_In.
  - intros [Hf|(p & dflt & Hp & Hd & Hf)]; [by left|]. right.
    apply list_elem_of_In, in_flat_map. exists p. split.
    + by apply list_elem_of_In, set_iter_elem_2.
    + rewrite Hd. by apply list_elem_of_In.
Qed.

Lemma nested_default_fields_dot_free k dflt :
  Dict.get k nested_default_fields = Some dflt -> Forall dot_free dflt.
Proof.
  unfold nested_default_fields. simpl.
  destruct (k =? "blocks")%string; [intros [= <-]; repeat constructor|].
  destruct (k =? "responses")%string; [intros [= <-]; repeat constructor|].
  discriminate.
Qed.

Lemma dot_free_head_part f : dot_free f -> head_part f = f.
Proof. unfold dot_free, head_part. by intros ->. Qed.

Lemma keys_field_parts `{SetOrder} D A k :
  k ∈ Dict.keys (field_parts D A)
  <-> k ∈ map head_part D
      \/ k ∈ map head_part A
      \/ exists p dflt,
           p ∈ A /\ Dict.get (head_part p) nested_default_fields = Some dflt /\ k ∈ dflt.
Proof.
  unfold field_parts. rewrite keys_fold_add_field_part_iff. split.
  - intros [Hk|(f & Hf & Hh)]; [inversion Hk|].
    apply set_iter_elem_1, elem_of_app in Hf as [Hf|Hf].
    + apply elem_of_include_fields in Hf as [Hf|(p & dflt & Hp & Hd & Hf)].
      * left. apply list_elem_of_fmap. eauto.
      * right. right. exists p, dflt. split; [done|]. split; [done|].
        pose proof (nested_default_fields_dot_free _ _ Hd) as Hdf.
        rewrite Forall_forall in Hdf. rewrite <- Hh.
        by rewrite (dot_free_head_part f (Hdf f Hf)).
    + right. left. apply list_elem_of_fmap. eauto.
  - intros [Hk|[Hk|(p & dflt & Hp & Hd & Hk)]]; right.
    + apply list_elem_of_fmap in Hk as (f & -> & Hf). exists f. split; [|done].
      apply set_iter_elem_2, elem_of_app. left. apply elem_of_include_fields. by left.
    + apply list_elem_of_fmap in Hk as (f & -> & Hf). exists f. split; [|done].
      apply set_iter_elem_2, elem_of_app. by right.
    + exists k. split.
      * apply set_iter_elem_2, elem_of_app. left. apply elem_of_include_fields.
        right. eauto.
      * pose proof (nested_default_fields_dot_free _ _ Hd) as Hdf.
        rewrite Forall_forall in Hdf. by apply dot_free_head_part, Hdf.
Qed.

Lemma keys_projected `{SetOrder} entries D A out k :
  filter_nested_fields (JDict entries) D A = Ok (JDict out) ->
  k ∈ Dict.keys out <-> k ∈ Dict.keys entries /\ k ∈ Dict.keys (field_parts D A).
Proof.
  intros Hf. split.
  - intros Hk. apply keys_get_Some in Hk as [v Hv]. split.
    + destruct (filter_nested_fields_source _ _ _ _ _ _ Hf Hv) as (value & Hval & _).
      by apply get_Some_keys in Hval.
    + destruct (projected_lookups _ _ _ _ Hf) as (ls & -> & Hall).
      destruct (get_concat_Some _ _ _ Hv) as (i & l & Hi & Hkl).
      destruct (Forall2_lookup_r _ _ _ _ _ Hall Hi) as (kn & Hfp & Hone & _).
      apply project_one_shape in Hone as [->|[r ->]]; [inversion Hkl|].
      simpl in Hkl. apply list_elem_of_singleton in Hkl as ->.
      apply list_elem_of_fmap. exists kn. split; [done|].
      by apply list_elem_of_lookup_2 in Hfp.
  - intros [Hke Hkf].
    apply keys_get_Some in Hke as [value Hval].
    apply keys_get_Some in Hkf as [nested Hn].
    destruct (filter_nested_fields_lookup _ _ _ _ _ _ _ Hf Hn Hval) as (v & Hv & _).
    by apply get_Some_keys in Hv.
Qed.

(** X12.  The keys of a projected document are those keys of the
    source that are the first segment of a default field or of a
    requested path, or a default field of [blocks] or [responses]
    when a requested path starts with that name: a field the source
    does not have gives no key, and asking for [blocks] also keeps
    [inputText] and [responseIds] of the document itself. *)
Theorem X12_keys_of_a_projection `{SetOrder} (entries : list (string * json))
    (D A : list string) (out : list (string * json)) (k : string) :
  filter_nested_fields (JDict entries) D A = Ok (JDict out) ->
  k ∈ Dict.keys out
  <-> k ∈ Dict.keys entries
      /\ (k ∈ map head_part D
          \/ k ∈ map head_part A
          \/ exists p dflt,
               p ∈ A
               /\ Dict.get (head_part p) nested_default_fields = Some dflt
               /\ k ∈ dflt).
Proof.
  intros Hf. rewrite (keys_projected _ _ _ _ _ Hf). by rewrite keys_field_parts.
Qed.

Lemma X12_keys_of_a_projection_witness :
  "inputText"
  ∈ Dict.keys [("id", JStr "c1"); ("inputText", JStr "stray"); ("blocks", JList [])].
Proof.
  apply (@X12_keys_of_a_projection first_seen_order
           [("id", JStr "c1"); ("inputText", JStr "stray"); ("other", JInt 1);
            ("blocks", JList [])]
           default_conversation_fields ["blocks"]).
  - vm_compute; reflexivity.
  - split; [apply list_elem_of_In; vm_compute; tauto|].
    right. right. exists "blocks", default_block_fields.
    split; [left|]. split; [reflexivity|].
    apply list_elem_of_In. vm_compute. tauto.
Defined.

(** ** Dotted paths: where they lead and where they fail *)

Lemma collect_Raise_inv {A} (rs : list (result A)) e :
  collect rs = Raise e -> exists r, r ∈ rs /\ r = Raise e.
Proof.
  induction rs as [|r rs IH]; simpl; [discriminate|].
  destruct r as [a|e']; simpl.
  - destruct (collect rs) as [xs|e''] eqn:E; simpl; [discriminate|].
    intros [= <-]. destruct (IH eq_refl) as (r & Hr & ->).
    exists (Raise e''). split; [by right | done].
  - intros [= <-]. exists (Raise e'). split; [left | done].
Qed.

Lemma get_Some_elem {V} k (v : V) d : Dict.get k d = Some v -> (k, v) ∈ d.
Proof.
  intros Hg. apply get_Some_lookup in Hg as [i Hi].
  by apply list_elem_of_lookup_2 in Hi.
Qed.

Lemma filter_nested_fields_raises `{SetOrder} data : raises_type_error data.
Proof.
  cut (raises_type_error data
       /\ match data with JList items => Forall raises_type_error items | _ => True end).
  { tauto. }
  induction data as [| | | |items IH|entries IH] using json_ind.
  1-3: split; [|exact I]; intros D A e; unfold filter_nested_fields;
       destruct (is_nil _); intros; by simplify_eq.
  - split; [|exact I]. intros D A e. unfold filter_nested_fields.
    destruct (existsb _ _); intros; by simplify_eq.
  - split.
    + intros D A e. unfold filter_nested_fields.
      destruct (existsb _ _); intros; by simplify_eq.
    + eapply Forall_impl; [exact IH|]. simpl. tauto.
  - split; [|exact I]. intros D A e. rewrite filter_nested_fields_collect.
    destruct (collect _) as [ls|e'] eqn:E; simpl; [discriminate|].
    intros [= <-]. apply collect_Raise_inv in E as (r & Hr & ->).
    apply list_elem_of_fmap in Hr as ([key nested] & Hone & _).
    symmetry in Hone. unfold project_one in Hone. simpl in Hone.
    rewrite get_sub_of in Hone.
    destruct (Dict.get key entries) as [value|] eqn:Ev; simpl in Hone; [|discriminate].
    destruct (is_nil nested); [discriminate|].
    destruct (recurse value _ nested) as [r|e''] eqn:Er; simpl in Hone; [discriminate|].
    injection Hone as <-.
    rewrite Forall_forall in IH.
    destruct (IH _ (get_Some_elem _ _ _ Ev)) as [Hv Hitems]. simpl in Hv, Hitems.
    destruct value as [| | | |items|entries'];
      try (rewrite recurse_not_list in Er by exact I; by apply Hv in Er).
    simpl in Er. destruct (collect _) as [xs|e3] eqn:Ec; simpl in Er; [discriminate|].
    injection Er as <-. apply collect_Raise_inv in Ec as (r & Hr & ->).
    apply list_elem_of_fmap in Hr as (item & Hitem & Hin). symmetry in Hitem.
    rewrite Forall_forall in Hitems. by apply (Hitems item Hin) in Hitem.
Qed.

Lemma add_field_part_get_mono fp field k n :
  Dict.get k fp = Some n ->
  exists n', Dict.get k (add_field_part fp field) = Some (n ++ n').
Proof.
  intros Hk. unfold add_field_part.
  set (p0 := hd "" (Str.split "." field)).
  set (fp' := if Dict.mem p0 fp then fp else Dict.set p0 [] fp).
  assert (Dict.get k fp' = Some n) as Hk'.
  { unfold fp', Dict.mem. destruct (Dict.get p0 fp) eqn:E; [done|].
    rewrite get_set. destruct (String.eqb k p0) eqn:Ek; [|done].
    apply String.eqb_eq in Ek as ->. congruence. }
  destruct (1 <? _)%nat; [|exists []; by rewrite app_nil_r].
  destruct (Dict.get p0 fp') as [l|] eqn:El; [|exists []; by rewrite app_nil_r].
  rewrite get_set. destruct (String.eqb k p0) eqn:Ek.
  - apply String.eqb_eq in Ek as ->. assert (l = n) as -> by congruence. eauto.
  - exists []. by rewrite app_nil_r.
Qed.

Lemma add_field_part_get_path fp path :
  (1 < length (Str.split "." path))%nat ->
  exists n,
    Dict.get (head_part path) (add_field_part fp path) = Some n /\ n <> [].
Proof.
  intros Hlen. unfold add_field_part, head_part.
  set (p0 := hd "" (Str.split "." path)).
  set (fp' := if Dict.mem p0 fp then fp else Dict.set p0 [] fp).
  assert (exists l, Dict.get p0 fp' = Some l) as [l Hl].
  { unfold fp', Dict.mem. destruct (Dict.get p0 fp) eqn:E; [eauto|].
    exists []. by rewrite get_set, String.eqb_refl. }
  apply Nat.ltb_lt in Hlen. rewrite Hlen, Hl.
  eexists. rewrite get_set, String.eqb_refl. split; [reflexivity|].
  by destruct l.
Qed.

Lemma fold_add_field_part_get_mono L : forall fp k n,
  Dict.get k fp = Some n -> n <> [] ->
  exists n', Dict.get k (fold_left add_field_part L fp) = Some n' /\ n' <> [].
Proof.
  induction L as [|g L IH]; intros fp k n Hk Hn; simpl; [eauto|].
  destruct (add_field_part_get_mono fp g k n Hk) as [n' Hk'].
  eapply IH; [exact Hk'|]. by destruct n.
Qed.

Lemma fold_add_field_part_get_path L : forall fp path,
  path ∈ L -> (1 < length (Str.split "." path))%nat ->
  exists n,
    Dict.get (head_part path) (fold_left add_field_part L fp) = Some n /\ n <> [].
Proof.
  induction L as [|g L IH]; intros fp path Hin Hlen; [inversion Hin|]. simpl.
  apply elem_of_cons in Hin as [->|Hin]; [|by apply IH].
  destruct (add_field_part_get_path fp g Hlen) as (n & Hn & Hne).
  by eapply fold_add_field_part_get_mono.
Qed.

Lemma field_parts_dotted `{SetOrder} D A path :
  path ∈ A -> (1 < length (Str.split "." path))%nat ->
  exists nested,
    Dict.get (head_part path) (field_parts D A) = Some nested /\ nested <> [].
Proof.
  intros Hin Hlen. unfold field_parts.
  apply fold_add_field_part_get_path; [|exact Hlen].
  apply set_iter_elem_2, elem_of_app. by right.
Qed.

Lemma field_parts_nonempty `{SetOrder} D A : A <> [] -> field_parts D A <> [].
Proof.
  intros HA. destruct A as [|f A]; [done|].
  destruct (field_parts_requested D (f :: A) f) as [nested Hn]; [left|].
  intros Hnil. by rewrite Hnil in Hn.
Qed.

Lemma filter_nested_fields_scalar `{SetOrder} v D A :
  match v with JNull | JBool _ | JInt _ => True | _ => False end ->
  filter_nested_fields v D A
  = if is_nil (field_parts D A) then Ok (JDict []) else Raise (Builtin TypeError).
Proof. by destruct v. Qed.

(** X13.  A requested path with more than one segment whose first
    segment names a field that is null, a boolean or a number makes
    the projection of the document raise [TypeError]; and
    [TypeError] is the only exception a projection ever raises. *)
Theorem X13_dotted_path_into_a_scalar `{SetOrder}
    (entries : list (string * json)) (D A : list string) (path : string) (v : json) :
  path ∈ A ->
  (1 < length (Str.split "." path))%nat ->
  Dict.get (head_part path) entries = Some v ->
  match v with JNull | JBool _ | JInt _ => True | _ => False end ->
  filter_nested_fields (JDict entries) D A = Raise (Builtin TypeError)
  /\ forall data D' A' e,
       filter_nested_fields data D' A' = Raise e -> e = Builtin TypeError.
Proof.
  intros Hin Hlen Hv Hscalar. split; [|intros; by eapply filter_nested_fields_raises].
  destruct (filter_nested_fields (JDict entries) D A) as [r|e] eqn:Ef.
  - exfalso. destruct (filter_nested_fields_is_dict _ _ _ _ Ef) as [out ->].
    destruct (field_parts_dotted D A path Hin Hlen) as (nested & Hn & Hne).
    destruct (filter_nested_fields_lookup _ _ _ _ _ _ _ Ef Hn Hv) as (r & _ & Hr).
    destruct nested as [|f nested]; [done|]. cbn [is_nil] in Hr.
    pose proof (field_parts_nonempty
                  (default [] (Dict.get (head_part path) nested_default_fields))
                  (f :: nested) ltac:(done)) as Hfp.
    rewrite recurse_not_list in Hr by (by destruct v).
    rewrite filter_nested_fields_scalar in Hr by exact Hscalar.
    destruct (field_parts _ (f :: nested)); done.
  - f_equal. by eapply filter_nested_fields_raises.
Qed.

Lemma X13_dotted_path_into_a_scalar_witness :
  @filter_nested_fields first_seen_order
    (JDict (Response.dict (response_at "r1" 7))) default_response_fields
    ["respondedAt.seconds"]
  = Raise (Builtin TypeError).
Proof.
  edestruct (@X13_dotted_path_into_a_scalar first_seen_order
               (Response.dict (response_at "r1" 7)) default_response_fields
               ["respondedAt.seconds"] "respondedAt.seconds" (JInt 7)) as [Hr _].
  - left.
  - vm_compute. lia.
  - vm_compute; reflexivity.
  - exact I.
  - exact Hr.
Defined.

(** ** Object keys of one conversation *)

Lemma append_assoc (s t u : string) : (s +:+ t) +:+ u = s +:+ (t +:+ u).
Proof.
  induction s as [|a s IH]; [done|].
  change (String a ((s +:+ t) +:+ u) = String a (s +:+ (t +:+ u))). by f_equal.
Qed.

Lemma length_append (s t : string) :
  String.length (s +:+ t) = (String.length s + String.length t)%nat.
Proof.
  induction s as [|a s IH]; [done|].
  change (S (String.length (s +:+ t)) = S (String.length s + String.length t)).
  by f_equal.
Qed.

Lemma append_inv_tail (t s1 s2 : string) : s1 +:+ t = s2 +:+ t -> s1 = s2.
Proof.
  revert s2. induction s1 as [|a s1 IH]; intros [|a' s2] Heq.
  - done.
  - apply (f_equal String.length) in Heq.
    change (String.length t = S (String.length (s2 +:+ t))) in Heq.
    rewrite length_append in Heq. lia.
  - apply (f_equal String.length) in Heq.
    change (S (String.length (s1 +:+ t)) = String.length t) in Heq.
    rewrite length_append in Heq. lia.
  - change (String a (s1 +:+ t) = String a' (s2 +:+ t)) in Heq.
    injection Heq as -> Heq. f_equal. by apply IH.
Qed.

Section KeysOfOneConversation.
Context `{Deployment}.

Lemma get_s3_key_block c b :
  b <> "" ->
  get_s3_key c (Some b) None
  = bucket_base_folder +:+ "/" +:+ conversations_dir_name +:+ "/" +:+ c
    +:+ "/" +:+ blocks_dir_name +:+ "/" +:+ b +:+ ".json".
Proof.
  intros Hb. unfold get_s3_key. simpl. unfold Str.truthy.
  apply String.eqb_neq in Hb. by rewrite Hb.
Qed.

Lemma get_s3_key_response c b r :
  r <> "" ->
  get_s3_key c b (Some r)
  = bucket_base_folder +:+ "/" +:+ conversations_dir_name +:+ "/" +:+ c
    +:+ "/" +:+ blocks_dir_name +:+ "/" +:+ opt_format b
    +:+ "/" +:+ responses_dir_name +:+ "/" +:+ r +:+ ".json".
Proof.
  intros Hr. unfold get_s3_key. simpl. unfold Str.truthy.
  apply String.eqb_neq in Hr. by rewrite Hr.
Qed.

(** X14.  Within one conversation the keys tell the objects apart:
    two blocks with different non-empty ids have different keys, so
    have two responses of one block, and the key of a response, of
    its block and of the conversation are three different keys. *)
Theorem X14_keys_within_a_conversation (c b b' r r' : string) :
  b <> "" -> b' <> "" -> r <> "" -> r' <> "" ->
  (get_s3_key c (Some b) None = get_s3_key c (Some b') None -> b = b')
  /\ (get_s3_key c (Some b) (Some r) = get_s3_key c (Some b) (Some r') -> r = r')
  /\ get_s3_key c (Some b) None <> get_s3_key c None None
  /\ get_s3_key c (Some b) (Some r) <> get_s3_key c (Some b) None
  /\ get_s3_key c (Some b) (Some r) <> get_s3_key c None None.
Proof.
  intros Hb Hb' Hr Hr'. repeat split.
  - rewrite !get_s3_key_block by done. intros Heq.
    do 8 apply append_inv_head in Heq. by apply append_inv_tail in Heq.
  - rewrite !get_s3_key_response by done. intros Heq.
    do 12 apply append_inv_head in Heq. by apply append_inv_tail in Heq.
  - by apply block_key_ne_conversation_key.
  - by apply response_key_ne_block_key.
  - by apply response_key_ne_conversation_key.
Qed.

(** X15.  Ids are pasted into the key as they are.  A conversation id
    that spells the path of a block is the key of that block, a block
    id that spells the path of a response is the key of that
    response, and a response asked for without a block is looked up
    under the block named [None]. *)
Theorem X15_ids_are_not_escaped (c b r : string) :
  b <> "" -> r <> "" ->
  get_s3_key (c +:+ "/" +:+ blocks_dir_name +:+ "/" +:+ b) None None
  = get_s3_key c (Some b) None
  /\ get_s3_key c (Some (b +:+ "/" +:+ responses_dir_name +:+ "/" +:+ r)) None
     = get_s3_key c (Some b) (Some r)
  /\ get_s3_key c None (Some r) = get_s3_key c (Some "None") (Some r).
Proof.
  intros Hb Hr. repeat split.
  - rewrite get_s3_key_block by done. unfold get_s3_key. simpl.
    by rewrite !append_assoc.
  - rewrite get_s3_key_response by done. rewrite get_s3_key_block.
    + simpl. by rewrite !append_assoc.
    + destruct b; [done | discriminate].
  - by rewrite !get_s3_key_response.
Qed.
End KeysOfOneConversation.

Lemma X14_keys_within_a_conversation_witness :
  @get_s3_key local_deployment "c1" (Some "b1") (Some "r1")
  <> @get_s3_key local_deployment "c1" (Some "b1") None.
Proof.
  edestruct (@X14_keys_within_a_conversation local_deployment "c1" "b1" "b2" "r1" "r2")
    as (_ & _ & _ & Hne & _); [discriminate..|].
  exact Hne.
Defined.

Lemma X15_ids_are_not_escaped_witness :
  @get_s3_key local_deployment "c1/blocks/b1" None None
  = @get_s3_key local_deployment "c1" (Some "b1") None.
Proof.
  edestruct (@X15_ids_are_not_escaped local_deployment "c1" "b1" "r1")
    as (Heq & _); [discriminate..|].
  exact Heq.
Defined.

(** ** What a computation keeps

    The handlers are built from a few steps; a relation between the
    worlds that every step keeps, and a property of events that every
    step has, carry over to the handlers. *)

Section Keeps.
Context (R : world -> world -> Prop) (P : event -> Prop).
Hypothesis R_refl : forall w, R w w.
Hypothesis R_trans : forall w1 w2 w3, R w1 w2 -> R w2 w3 -> R w1 w3.

Lemma keeps_ret {A} (a : A) : keeps R P (ret a).
Proof. intros w. split; [apply R_refl | constructor]. Qed.

Lemma keeps_raise {A} e : keeps R P (@raise A e).
Proof. intros w. split; [apply R_refl | constructor]. Qed.

Lemma keeps_lift {A} (r : result A) : keeps R P (lift r).
Proof. destruct r; [apply keeps_ret | apply keeps_raise]. Qed.

Lemma keeps_emit ev : P ev -> keeps R P (emit ev).
Proof. intros Hev w. split; [apply R_refl | by repeat constructor]. Qed.

Lemma keeps_bind {A B} (m : M A) (k : A -> M B) :
  keeps R P m -> (forall a, keeps R P (k a)) -> keeps R P (bind m k).
Proof.
  intros Hm Hk w. destruct (Hm w) as [HR HP]. unfold bind.
  destruct (value (m w)) as [a|e]; [|done].
  destruct (Hk a (after (m w))) as [HR' HP']. cbn [after events]. split.
  - by eapply R_trans.
  - by apply Forall_app.
Qed.

Lemma keeps_for_each {A B} (f : A -> M B) xs :
  (forall x, keeps R P (f x)) -> keeps R P (for_each f xs).
Proof.
  intros Hf. induction xs as [|x xs IH]; simpl; [apply keeps_ret|].
  apply keeps_bind; [apply Hf|]. intros y.
  apply keeps_bind; [exact IH|]. intros ys. apply keeps_ret.
Qed.

Lemma keeps_except_500 `{Deployment} {A} (m : M A) :
  keeps R P m -> keeps R P (except_500 m).
Proof.
  intros Hm w. destruct (Hm w) as [HR HP]. unfold except_500.
  by destruct (value (m w)).
Qed.

Lemma keeps_forget {A} (m : M A) : keeps R P m -> keeps R P (forget m).
Proof. intros Hm w. exact (Hm w). Qed.

Lemma keeps_get_json_from_s3 `{Deployment} key :
  (forall key, P (S3Get key)) -> keeps R P (get_json_from_s3 key).
Proof. intros HP w. split; [apply R_refl | by repeat constructor]. Qed.

Section Cached.
Hypothesis R_getitem : forall k w, R w (snd (cache_getitem k w)).
Hypothesis R_setitem : forall k v w, R w (cache_setitem k v w).

Lemma keeps_cached k body : keeps R P body -> keeps R P (cached k body).
Proof.
  intros Hb w. unfold cached. pose proof (R_getitem k w) as Hg.
  destruct (cache_getitem k w) as [[v|] w']; simpl in Hg.
  - split; [exact Hg | constructor].
  - destruct (Hb w') as [HR HP].
    destruct (value (body w')) as [v|e]; cbn [after events].
    + split; [|exact HP]. eapply R_trans; [exact Hg|].
      eapply R_trans; [exact HR | apply R_setitem].
    + split; [by eapply R_trans | exact HP].
Qed.

Context `{Deployment}.
Hypothesis P_get : forall key, P (S3Get key).
Hypothesis P_blocks : forall k, P (Fetch FetchBlocks k).
Hypothesis P_block : forall k, P (Fetch FetchBlock k).

Lemma keeps_fetch_block_plain c b : keeps R P (fetch_block c b "").
Proof.
  unfold fetch_block. apply keeps_bind; [by apply keeps_emit|]. intros _.
  apply keeps_cached. apply keeps_bind; [by apply keeps_get_json_from_s3|].
  intros block. change (wants_responses "") with false. apply keeps_ret.
Qed.

Lemma keeps_fetch_blocks_default c ids : keeps R P (fetch_blocks_default c ids).
Proof.
  unfold fetch_blocks_default. apply keeps_bind; [by apply keeps_emit|]. intros _.
  apply keeps_cached. apply keeps_bind.
  - apply keeps_for_each. intros b. apply keeps_fetch_block_plain.
  - intros blocks. apply keeps_ret.
Qed.

Lemma keeps_list_loop `{SetOrder} fields keys : forall acc,
  keeps R P (list_loop fields keys acc).
Proof.
  induction keys as [|key keys IH]; intros acc; simpl; [apply keeps_ret|].
  destruct (is_conversation_key key); [|apply IH].
  apply keeps_bind; [by apply keeps_get_json_from_s3|]. intros conversation.
  apply keeps_bind; [apply keeps_lift|]. intros id_v.
  apply keeps_bind; [apply keeps_lift|]. intros conversation_id.
  apply keeps_bind; [apply keeps_lift|]. intros ids_v.
  apply keeps_bind; [apply keeps_lift|]. intros ids.
  apply keeps_bind; [apply keeps_fetch_blocks_default|]. intros blocks.
  apply keeps_bind; [apply keeps_lift|]. intros conversation'.
  apply keeps_bind; [apply keeps_lift|]. intros filtered.
  apply IH.
Qed.

Lemma keeps_list_conversations `{SetOrder} contents fields :
  keeps R P (list_conversations contents fields).
Proof.
  unfold list_conversations. apply keeps_except_500.
  destruct contents as [keys|]; [|apply keeps_ret].
  apply keeps_bind; [apply keeps_list_loop|]. intros cs. apply keeps_ret.
Qed.

Hypothesis P_responses : forall k, P (Fetch FetchResponses k).

Lemma keeps_fetch_responses c b ids : keeps R P (fetch_responses c b ids).
Proof.
  unfold fetch_responses. apply keeps_bind; [by apply keeps_emit|]. intros _.
  apply keeps_cached. apply keeps_bind.
  - apply keeps_for_each. intros r. by apply keeps_get_json_from_s3.
  - intros responses. apply keeps_ret.
Qed.

Lemma keeps_fetch_block c b f : keeps R P (fetch_block c b f).
Proof.
  unfold fetch_block. apply keeps_bind; [by apply keeps_emit|]. intros _.
  apply keeps_cached. apply keeps_bind; [by apply keeps_get_json_from_s3|].
  intros block. destruct (wants_responses f); [|apply keeps_ret].
  apply keeps_bind; [apply keeps_lift|]. intros ids_v.
  apply keeps_bind; [apply keeps_lift|]. intros ids.
  apply keeps_bind; [apply keeps_fetch_responses|]. intros responses.
  apply keeps_lift.
Qed.

Lemma keeps_fetch_blocks c ids f : keeps R P (fetch_blocks c ids f).
Proof.
  unfold fetch_blocks. apply keeps_bind; [by apply keeps_emit|]. intros _.
  apply keeps_cached. apply keeps_bind.
  - apply keeps_for_each. intros b. apply keeps_fetch_block.
  - intros blocks. apply keeps_ret.
Qed.

Lemma keeps_read_conversation `{SetOrder} c f : keeps R P (read_conversation c f).
Proof.
  unfold read_conversation. apply keeps_except_500.
  apply keeps_bind; [by apply keeps_get_json_from_s3|]. intros conversation.
  apply keeps_bind; [|intros conversation'; apply keeps_lift].
  destruct (wants_blocks f); [|apply keeps_ret].
  apply keeps_bind; [apply keeps_lift|]. intros ids_v.
  apply keeps_bind; [apply keeps_lift|]. intros ids.
  apply keeps_bind; [apply keeps_fetch_blocks|]. intros blocks.
  apply keeps_lift.
Qed.

Lemma keeps_read_block `{SetOrder} c b f : keeps R P (read_block c b f).
Proof.
  unfold read_block.
  apply keeps_bind; [by apply keeps_get_json_from_s3|]. intros block.
  apply keeps_bind; [apply keeps_lift|]. intros ids_v.
  apply keeps_bind; [apply keeps_lift|]. intros ids.
  apply keeps_bind; [apply keeps_fetch_responses|]. intros responses.
  apply keeps_bind; [apply keeps_lift|]. intros block'.
  apply keeps_lift.
Qed.

Lemma keeps_read_response `{SetOrder} c b r f : keeps R P (read_response c b r f).
Proof.
  unfold read_response.
  apply keeps_bind; [by apply keeps_get_json_from_s3|]. intros response.
  apply keeps_lift.
Qed.

Lemma keeps_read_call `{SetOrder} c : is_read_call c = true -> keeps R P (handle c).
Proof.
  destruct c; try discriminate; intros _; simpl; apply keeps_forget.
  - apply keeps_read_conversation.
  - apply keeps_list_conversations.
  - apply keeps_read_block.
  - apply keeps_read_response.
Qed.

Hypothesis R_bucket : forall w b,
  R w {| bucket := b; cache := cache w; timer := timer w; ticks := ticks w |}.
Hypothesis P_put : forall key data, P (S3Put key data).
Hypothesis P_delete : forall key, P (S3Delete key).

Lemma keeps_put_json_to_s3 key data : keeps R P (put_json_to_s3 key data).
Proof. intros w. split; [apply R_bucket | by repeat constructor]. Qed.

Lemma keeps_delete_json_from_s3 key : keeps R P (delete_json_from_s3 key).
Proof. intros w. split; [apply R_bucket | by repeat constructor]. Qed.

Lemma keeps_handle `{SetOrder} c : keeps R P (handle c).
Proof.
  destruct (is_read_call c) eqn:Hread; [by apply keeps_read_call|].
  destruct c; try discriminate; simpl;
    try apply keeps_forget; try apply keeps_delete_json_from_s3.
  - unfold create_conversation. apply keeps_except_500. cbv zeta.
    apply keeps_bind; [apply keeps_lift|]. intros conversation.
    apply keeps_bind; [apply keeps_put_json_to_s3|]. intros _.
    apply keeps_bind; [apply keeps_put_json_to_s3|]. intros _.
    apply keeps_ret.
  - unfold update_conversation.
    apply keeps_bind; [apply keeps_put_json_to_s3|]. intros _. apply keeps_ret.
  - unfold create_block. cbv zeta.
    apply keeps_bind; [apply keeps_lift|]. intros block.
    apply keeps_bind; [apply keeps_put_json_to_s3|]. intros _.
    apply keeps_bind; [by apply keeps_get_json_from_s3|]. intros conversation.
    apply keeps_bind; [apply keeps_lift|]. intros ids.
    apply keeps_bind; [apply keeps_lift|]. intros ids'.
    apply keeps_bind; [apply keeps_lift|]. intros conversation'.
    apply keeps_bind; [apply keeps_put_json_to_s3|]. intros _.
    apply keeps_ret.
  - unfold update_block.
    apply keeps_bind; [apply keeps_put_json_to_s3|]. intros _. apply keeps_ret.
  - unfold create_response. cbv zeta.
    apply keeps_bind; [apply keeps_lift|]. intros response.
    apply keeps_bind; [apply keeps_put_json_to_s3|]. intros _.
    apply keeps_bind; [apply keeps_fetch_block|]. intros cached_block.
    apply keeps_bind; [apply keeps_lift|]. intros block.
    apply keeps_bind; [apply keeps_put_json_to_s3|]. intros _.
    apply keeps_ret.
  - unfold update_response.
    apply keeps_bind; [apply keeps_put_json_to_s3|]. intros _. apply keeps_ret.
Qed.

End Cached.
End Keeps.

(** ** The bucket under reads *)

Lemma same_bucket_getitem k w : same_bucket w (snd (cache_getitem k w)).
Proof. unfold same_bucket, cache_getitem. by destruct (find_entry k (cache w)). Qed.

Lemma same_bucket_trans w1 w2 w3 :
  same_bucket w1 w2 -> same_bucket w2 w3 -> same_bucket w1 w3.
Proof. unfold same_bucket. congruence. Qed.

(** X16.  A [GET] handler, the listing included, leaves the bucket
    as it found it: all it does to the outside is getting objects
    and calling the memoised fetches. *)
Theorem X16_reads_leave_the_bucket_alone `{SetOrder} `{Deployment}
    (c : api_call) (w : world) :
  is_read_call c = true ->
  bucket (after (handle c w)) = bucket w
  /\ Forall (fun ev => is_read_event ev = true) (events (handle c w)).
Proof.
  intros Hread.
  apply (keeps_read_call same_bucket (fun ev => is_read_event ev = true)); try done.
  - apply same_bucket_trans.
  - apply same_bucket_getitem.
Qed.

Lemma X16_reads_leave_the_bucket_alone_witness :
  bucket (after (@handle first_seen_order local_deployment
                   (GetConversation "c1" (Some "blocks.responses"))
                   (start sample_bucket)))
  = sample_bucket.
Proof.
  edestruct (@X16_reads_leave_the_bucket_alone first_seen_order local_deployment
               (GetConversation "c1" (Some "blocks.responses")) (start sample_bucket))
    as [Hb _]; [reflexivity|].
  exact Hb.
Defined.

(** ** The listing *)

Lemma except_500_raises `{Deployment} {A} (m : M A) w e :
  value (except_500 m w) = Raise e ->
  exists detail, e = HTTPException (StatusNum 500) detail.
Proof.
  unfold except_500. destruct (value (m w)) as [a|e'] eqn:E; simpl.
  - rewrite E. discriminate.
  - intros [= <-]. eauto.
Qed.

(** X17.  [list_conversations] never calls [fetch_responses],
    whatever [fields] asks for, and whatever goes wrong reaches the
    caller as an [HTTPException] with status 500. *)
Theorem X17_listing_never_fetches_responses `{SetOrder} `{Deployment}
    (contents : option (list string)) (fields : option string) (w : world) :
  Forall (fun ev => is_responses_fetch ev = false)
         (events (list_conversations contents fields w))
  /\ forall e,
       value (list_conversations contents fields w) = Raise e ->
       exists detail, e = HTTPException (StatusNum 500) detail.
Proof.
  split; [|apply except_500_raises].
  by apply (keeps_list_conversations (fun _ _ => True)
              (fun ev => is_responses_fetch ev = false)).
Qed.

Lemma bind_ext {A B} (m : M A) (k k' : A -> M B) w :
  (forall a w', k a w' = k' a w') -> bind m k w = bind m k' w.
Proof. intros Hk. unfold bind. destruct (value (m w)); [by rewrite Hk | done]. Qed.

Lemma list_loop_filter `{SetOrder} `{Deployment} fields keys : forall acc w,
  list_loop fields keys acc w
  = list_loop fields (List.filter is_conversation_key keys) acc w.
Proof.
  induction keys as [|key keys IH]; intros acc w; simpl; [reflexivity|].
  destruct (is_conversation_key key) eqn:E; simpl; [rewrite E | apply IH].
  repeat (apply bind_ext; intros ? ?). apply IH.
Qed.

(** X18.  Listed keys that fail the test on the key are passed over
    without a trace: the listing answers, leaves the world and acts
    on the outside as it does on the keys that pass.  A listing with
    no [Contents] answers as one with none listed. *)
Theorem X18_listing_skips_other_keys `{SetOrder} `{Deployment}
    (keys : list string) (fields : option string) (w : world) :
  list_conversations (Some keys) fields w
  = list_conversations (Some (List.filter is_conversation_key keys)) fields w
  /\ list_conversations None fields w = list_conversations (Some []) fields w.
Proof.
  split; [|reflexivity]. unfold list_conversations, except_500.
  replace (bind (list_loop fields keys []) (fun cs => ret (JList cs)) w)
    with (bind (list_loop fields (List.filter is_conversation_key keys) [])
               (fun cs => ret (JList cs)) w); [reflexivity|].
  unfold bind. by rewrite <- list_loop_filter.
Qed.

(** ** Which listed keys are taken for conversations *)

Lemma strip_prefix_app p s : PyStr.strip_prefix p (p +:+ s) = Some s.
Proof.
  induction p as [|a p IH]; [by destruct s|].
  change (PyStr.strip_prefix (String a p) (String a (p +:+ s)) = Some s).
  simpl. by rewrite Ascii.eqb_refl.
Qed.

Lemma count_app c s t :
  PyStr.count c (s +:+ t) = (PyStr.count c s + PyStr.count c t)%nat.
Proof.
  induction s as [|a s IH]; [done|].
  change (PyStr.count c (String a (s +:+ t))
          = (PyStr.count c (String a s) + PyStr.count c t)%nat).
  simpl. rewrite IH. lia.
Qed.

Lemma endswith_unfold p s :
  PyStr.endswith p s
  = String.eqb p s
    || match s with
       | EmptyString => false
       | String _ s' => PyStr.endswith p s'
       end.
Proof. by destruct s. Qed.

Lemma endswith_refl p : PyStr.endswith p p = true.
Proof. by rewrite endswith_unfold, String.eqb_refl. Qed.

Lemma endswith_app p s t : PyStr.endswith p t = true -> PyStr.endswith p (s +:+ t) = true.
Proof.
  intros Ht. induction s as [|a s IH]; [exact Ht|].
  change (PyStr.endswith p (String a (s +:+ t)) = true).
  rewrite endswith_unfold, IH. apply orb_true_r.
Qed.

Section ListedKeys.
Context `{Deployment}.

Lemma is_conversation_key_app rest :
  is_conversation_key
    (bucket_base_folder +:+ "/" +:+ conversations_dir_name +:+ "/" +:+ rest +:+ ".json")
  = Nat.eqb (PyStr.count "/" rest) 0.
Proof.
  unfold is_conversation_key.
  replace (PyStr.endswith ".json" _) with true
    by (symmetry; do 5 apply endswith_app; apply endswith_refl).
  simpl andb.
  replace (bucket_base_folder +:+ "/" +:+ conversations_dir_name +:+ "/" +:+ rest
           +:+ ".json")
    with ((bucket_base_folder +:+ "/" +:+ conversations_dir_name +:+ "/")
          +:+ (rest +:+ ".json")) by (by rewrite !append_assoc).
  unfold PyStr.removeprefix. rewrite strip_prefix_app. simpl default.
  rewrite count_app. change (PyStr.count "/" ".json") with 0%nat.
  by rewrite Nat.add_0_r.
Qed.

(** X19.  The key of a conversation passes the test of the listing
    exactly when its id has no slash in it; the key of a block and
    the key of a response never pass. *)
Theorem X19_which_keys_are_listed (c b r : string) (ob : option string) :
  b <> "" -> r <> "" ->
  is_conversation_key (get_s3_key c None None) = Nat.eqb (PyStr.count "/" c) 0
  /\ is_conversation_key (get_s3_key c (Some b) None) = false
  /\ is_conversation_key (get_s3_key c ob (Some r)) = false.
Proof.
  intros Hb Hr. repeat split.
  - unfold get_s3_key. simpl. apply is_conversation_key_app.
  - rewrite get_s3_key_block by done.
    replace (bucket_base_folder +:+ "/" +:+ conversations_dir_name +:+ "/" +:+ c
             +:+ "/" +:+ blocks_dir_name +:+ "/" +:+ b +:+ ".json")
      with (bucket_base_folder +:+ "/" +:+ conversations_dir_name +:+ "/"
            +:+ (c +:+ "/" +:+ blocks_dir_name +:+ "/" +:+ b) +:+ ".json")
      by (by rewrite !append_assoc).
    rewrite is_conversation_key_app, !count_app.
    change (PyStr.count "/" "/") with 1%nat.
    apply Nat.eqb_neq. lia.
  - rewrite get_s3_key_response by done.
    replace (bucket_base_folder +:+ "/" +:+ conversations_dir_name +:+ "/" +:+ c
             +:+ "/" +:+ blocks_dir_name +:+ "/" +:+ opt_format ob
             +:+ "/" +:+ responses_dir_name +:+ "/" +:+ r +:+ ".json")
      with (bucket_base_folder +:+ "/" +:+ conversations_dir_name +:+ "/"
            +:+ (c +:+ "/" +:+ blocks_dir_name +:+ "/" +:+ opt_format ob
                 +:+ "/" +:+ responses_dir_name +:+ "/" +:+ r) +:+ ".json")
      by (by rewrite !append_assoc).
    rewrite is_conversation_key_app, !count_app.
    change (PyStr.count "/" "/") with 1%nat.
    apply Nat.eqb_neq. lia.
Qed.
End ListedKeys.

Lemma X19_which_keys_are_listed_witness :
  @is_conversation_key local_deployment
    (@get_s3_key local_deployment "c1" (Some "b1") None) = false.
Proof.
  edestruct (@X19_which_keys_are_listed local_deployment "c1" "b1" "r1" None)
    as (_ & Hb & _); [discriminate..|].
  exact Hb.
Defined.

(** ** The bounds of the cache *)

Lemma cache_ok_getitem k w : cache_stays_ok w (snd (cache_getitem k w)).
Proof.
  unfold cache_stays_ok, cache_getitem.
  destruct (find_entry k (cache w)) as [e|] eqn:Hf; [|done]. simpl.
  apply find_entry_Some in Hf as [Hin Hk]. intros [Hlen Hnd]. split.
  - rewrite length_app. simpl.
    assert (length (drop_entry k (cache w)) < length (cache w))%nat.
    { unfold drop_entry. apply (length_filter_lt _ _ e Hin). intros Hne. by apply Hne. }
    lia.
  - rewrite fmap_app. apply NoDup_app. split; [|split].
    + eapply sublist_NoDup; [exact Hnd|]. apply fmap_sublist, sublist_filter.
    + intros x Hx Hx'. simpl in Hx'. apply list_elem_of_singleton in Hx'. subst x.
      apply list_elem_of_fmap in Hx as (e' & He' & Hin').
      apply list_elem_of_filter in Hin' as [Hne _]. congruence.
    + apply NoDup_singleton.
Qed.

Lemma maxsize_pos : (0 < maxsize)%nat.
Proof. unfold maxsize. lia. Qed.

Lemma cache_ok_setitem k v w : cache_stays_ok w (cache_setitem k v w).
Proof.
  unfold cache_stays_ok, cache_setitem. intros [Hlen Hnd]. cbn [cache].
  set (live := expire (timer w (ticks w)) (cache w)).
  assert (length live <= maxsize)%nat as Hlive.
  { unfold live, expire. pose proof (length_filter (fun e => timer w (ticks w) < entry_expires e) (cache w)). lia. }
  assert (NoDup (entry_key <$> live)) as Hnd_live.
  { eapply sublist_NoDup; [exact Hnd|]. apply fmap_sublist, sublist_filter. }
  assert (NoDup (entry_key <$> make_room k live)) as Hnd_room.
  { unfold make_room. destruct (find_entry k live); [done|].
    eapply sublist_NoDup; [exact Hnd_live|]. apply fmap_sublist, sublist_drop. }
  assert (length (drop_entry k (make_room k live)) < maxsize)%nat as Hroom.
  { pose proof maxsize_pos. unfold make_room.
    destruct (find_entry k live) as [e|] eqn:Hf.
    - apply find_entry_Some in Hf as [Hin Hk].
      assert (length (drop_entry k live) < length live)%nat; [|lia].
      unfold drop_entry. apply (length_filter_lt _ _ e Hin). intros Hne. by apply Hne.
    - pose proof (length_filter (fun e => entry_key e <> k)
                    (drop (S (length live) - maxsize) live)) as Hle.
      unfold drop_entry. rewrite length_drop in Hle. lia. }
  split.
  - rewrite length_app. simpl. lia.
  - rewrite fmap_app. apply NoDup_app. split; [|split].
    + eapply sublist_NoDup; [exact Hnd_room|]. apply fmap_sublist, sublist_filter.
    + intros x Hx Hx'. simpl in Hx'. apply list_elem_of_singleton in Hx'. subst x.
      apply list_elem_of_fmap in Hx as (e' & He' & Hin').
      apply list_elem_of_filter in Hin' as [Hne _]. congruence.
    + apply NoDup_singleton.
Qed.

Lemma cache_stays_ok_trans w1 w2 w3 :
  cache_stays_ok w1 w2 -> cache_stays_ok w2 w3 -> cache_stays_ok w1 w3.
Proof. unfold cache_stays_ok. tauto. Qed.

Lemma cache_stays_ok_refl w : cache_stays_ok w w.
Proof. by intros Hok. Qed.

Lemma cache_stays_ok_bucket w b :
  cache_stays_ok w {| bucket := b; cache := cache w; timer := timer w; ticks := ticks w |}.
Proof. by intros Hok. Qed.

Lemma cache_ok_handle `{SetOrder} `{Deployment} c w :
  cache_ok (cache w) -> cache_ok (cache (after (handle c w))).
Proof.
  assert (keeps cache_stays_ok (fun _ => True) (handle c)) as Hk.
  { apply keeps_handle; try done.
    - apply cache_stays_ok_refl.
    - apply cache_stays_ok_trans.
    - apply cache_ok_getitem.
    - apply cache_ok_setitem.
    - apply cache_stays_ok_bucket. }
  apply (Hk w).
Qed.

(** X20.  Whatever calls the API serves, in whatever order and
    whatever they answer, the cache never holds more than [maxsize]
    entries and never two entries under one key. *)
Theorem X20_cache_within_bounds `{SetOrder} `{Deployment}
    (calls : list api_call) (w : world) :
  cache_ok (cache w) ->
  (length (cache (world_after_all calls w)) <= 2048)%nat
  /\ NoDup (entry_key <$> cache (world_after_all calls w)).
Proof.
  revert w. induction calls as [|c calls IH]; intros w Hok; simpl.
  - exact Hok.
  - apply IH. by apply cache_ok_handle.
Qed.

Lemma X20_cache_within_bounds_witness :
  NoDup (entry_key <$>
         cache (@world_after_all first_seen_order local_deployment
                  [GetConversation "c1" (Some "blocks.responses");
                   DeleteBlock "c1" "b1";
                   GetBlock "c1" "b2" None]
                  (start sample_bucket))).
Proof.
  edestruct (@X20_cache_within_bounds first_seen_order local_deployment
               [GetConversation "c1" (Some "blocks.responses");
                DeleteBlock "c1" "b1";
                GetBlock "c1" "b2" None]
               (start sample_bucket)) as [_ Hnd].
  - split; [simpl; unfold maxsize; lia | constructor].
  - exact Hnd.
Defined.

(** ** What the write handlers store *)

Lemma value_get_inv `{Deployment} key w d :
  value (get_json_from_s3 key w) = Ok d -> bucket w !! key = Some d.
Proof.
  unfold get_json_from_s3. simpl. destruct (bucket w !! key); [|discriminate].
  by intros [= ->].
Qed.

Tactic Notation "run_on" ident(Hv) "as" ident(a) ident(Ha) :=
  destruct (value_bind_inv _ _ _ _ Hv) as (a & Ha & _);
  rewrite (bind_Ok _ _ _ a Ha) in Hv |- *;
  cbv beta in Hv |- *; cbn [value after events] in Hv |- *.

Section Written.
Context `{Deployment}.

Lemma create_block_writes conversation_id partial_block new_id epoch_time w block :
  value (create_block conversation_id partial_block new_id epoch_time w) = Ok block ->
  exists stored ids,
    <[get_s3_key conversation_id (Some (Block.id block)) None
      := JDict (Block.dict block)]> (bucket w)
    !! get_s3_key conversation_id None None = Some (JDict stored)
    /\ events (create_block conversation_id partial_block new_id epoch_time w)
       = [S3Put (get_s3_key conversation_id (Some (Block.id block)) None)
                (JDict (Block.dict block));
          S3Get (get_s3_key conversation_id None None);
          S3Put (get_s3_key conversation_id None None)
                (JDict (Dict.set "blockIds" (JList (ids ++ [JStr (Block.id block)]))
                                 stored))].
Proof.
  unfold create_block. cbv zeta. intros Hv.
  run_on Hv as b Hb. rewrite after_lift in *.
  run_on Hv as u Hput. destruct u.
  run_on Hv as conv Hconv. rewrite after_get in *.
  apply value_get_inv in Hconv. simpl in Hconv.
  run_on Hv as ids0 Hids0. rewrite after_lift in *.
  apply value_lift_inv in Hids0.
  run_on Hv as ids1 Hids1. rewrite after_lift in *.
  apply value_lift_inv in Hids1.
  run_on Hv as conv' Hconv'. rewrite after_lift in *.
  apply value_lift_inv in Hconv'.
  run_on Hv as u Hput'. destruct u.
  injection Hv as <-. rewrite !events_lift. simpl.
  destruct conv as [| | | | |stored]; try discriminate.
  injection Hconv' as <-.
  assert (exists ids, ids1 = JList (ids ++ [JStr (Block.id b)])) as [ids ->].
  { destruct (py_truthy ids0).
    - destruct ids0; try discriminate. injection Hids1 as <-. eauto.
    - injection Hids1 as <-. by exists []. }
  exists stored, ids. done.
Qed.

Lemma create_response_writes conversation_id block_id partial_response new_id
    epoch_time w response :
  value (create_response conversation_id block_id partial_response new_id
           epoch_time w) = Ok response ->
  exists fetched block,
    events (create_response conversation_id block_id partial_response new_id
              epoch_time w)
    = S3Put (get_s3_key conversation_id (Some block_id) (Some (Response.id response)))
            (JDict (Response.dict response))
      :: fetched
      ++ [S3Put (get_s3_key conversation_id (Some block_id) None)
                (JDict (Block.dict block))]
    /\ Forall (fun ev => is_read_event ev = true) fetched.
Proof.
  unfold create_response. cbv zeta. intros Hv.
  run_on Hv as r Hr. rewrite after_lift in *.
  run_on Hv as u Hput. destruct u.
  run_on Hv as cached_block Hfetch.
  run_on Hv as blk Hblk. rewrite after_lift in *.
  run_on Hv as u Hput'. destruct u.
  injection Hv as <-. rewrite !events_lift.
  match goal with
  | |- context [events (fetch_block ?c ?b ?f ?w1)] =>
      exists (events (fetch_block c b f w1))
  end.
  eexists. split.
  - cbn [app]. rewrite ?app_nil_r. reflexivity.
  - by apply (keeps_fetch_block_plain (fun _ _ => True)
                (fun ev => is_read_event ev = true)).
Qed.
End Written.

(** C1, as amended.  A conversation or block that a write handler
    builds from a model is stored as the [dict()] of that model, and
    that always lists the model's transient field: [blocks] of a
    conversation and [responses] of a block are keys of every such
    document, bound to null when the model has no children and to
    the children's documents otherwise.  So it is for the two
    documents of [create_conversation], whose block has none, for
    the documents of [update_conversation] and [update_block], for
    the block of [create_block], and for the block [create_response]
    writes back, its only write besides the response.  The
    conversation that [create_block] writes back is not built from a
    model: it is the document just read from the bucket with
    [blockIds] replaced, so it lists [blocks] exactly when the stored
    document does, with the value stored there. *)
Theorem C1_transient_fields_are_stored `{Deployment} :
  (forall c : Conversation.t,
     Dict.get "blocks" (Conversation.dict c)
     = Some (dump_opt (fun bs => JList (map (fun b => JDict (Block.dict b)) bs))
                      (Conversation.blocks c)))
  /\ (forall b : Block.t,
        Dict.get "responses" (Block.dict b)
        = Some (dump_opt (fun rs => JList (map (fun r => JDict (Response.dict r)) rs))
                         (Block.responses b)))
  /\ (forall query partial_conversation new_id new_block_id epoch_time w conversation,
        value (create_conversation query partial_conversation new_id new_block_id
                 epoch_time w) = Ok conversation ->
        exists block,
          Block.responses block = None
          /\ events (create_conversation query partial_conversation new_id
                       new_block_id epoch_time w)
             = [S3Put (get_s3_key new_id None None)
                      (JDict (Conversation.dict conversation));
                S3Put (get_s3_key new_id (Some new_block_id) None)
                      (JDict (Block.dict block))])
  /\ (forall conversation_id conversation w,
        events (update_conversation conversation_id conversation w)
        = [S3Put (get_s3_key conversation_id None None)
                 (JDict (Conversation.dict conversation))])
  /\ (forall conversation_id partial_block new_id epoch_time w block,
        value (create_block conversation_id partial_block new_id epoch_time w)
        = Ok block ->
        exists stored ids,
          let written :=
            Dict.set "blockIds" (JList (ids ++ [JStr (Block.id block)])) stored in
          <[get_s3_key conversation_id (Some (Block.id block)) None
            := JDict (Block.dict block)]> (bucket w)
          !! get_s3_key conversation_id None None = Some (JDict stored)
          /\ events (create_block conversation_id partial_block new_id epoch_time w)
             = [S3Put (get_s3_key conversation_id (Some (Block.id block)) None)
                      (JDict (Block.dict block));
                S3Get (get_s3_key conversation_id None None);
                S3Put (get_s3_key conversation_id None None) (JDict written)]
          /\ Dict.get "blocks" written = Dict.get "blocks" stored)
  /\ (forall conversation_id block_id block w,
        events (update_block conversation_id block_id block w)
        = [S3Put (get_s3_key conversation_id (Some block_id) None)
                 (JDict (Block.dict block))])
  /\ (forall conversation_id block_id partial_response new_id epoch_time w response,
        value (create_response conversation_id block_id partial_response new_id
                 epoch_time w) = Ok response ->
        exists fetched block,
          events (create_response conversation_id block_id partial_response new_id
                    epoch_time w)
          = S3Put (get_s3_key conversation_id (Some block_id)
                              (Some (Response.id response)))
                  (JDict (Response.dict response))
            :: fetched
            ++ [S3Put (get_s3_key conversation_id (Some block_id) None)
                      (JDict (Block.dict block))]
          /\ Forall (fun ev => is_read_event ev = true) fetched).
Proof.
  repeat split.
  - intros query p new_id new_block_id t w conv Hv.
    destruct (create_conversation_Ok _ _ _ _ _ _ _ Hv) as (c0 & _ & _ & _ & Hev & _).
    eexists. split; [|exact Hev]. reflexivity.
  - intros c p i t w block Hv.
    destruct (create_block_writes _ _ _ _ _ _ Hv) as (stored & ids & Hst & Hev).
    exists stored, ids. cbv zeta. split; [exact Hst|]. split; [exact Hev|].
    by rewrite get_set.
  - apply create_response_writes.
Qed.

Lemma C1_transient_fields_are_stored_witness :
  exists block,
    Block.responses block = None
    /\ events (@create_conversation local_deployment "hello"
                 sample_partial_conversation "c1" "b1" 100 (start ∅))
       = [S3Put "history/conversations/c1.json"
                (JDict (Conversation.dict
                          {| Conversation.id := "c1";
                             Conversation.createdBy := sample_user;
                             Conversation.createdAt := 100;
                             Conversation.updatedAt := 100;
                             Conversation.status := "OPEN";
                             Conversation.summaryText := Some "hello";
                             Conversation.summaryType := Some "UNKNOWN";
                             Conversation.blockIds := ["b1"];
                             Conversation.blocks := None |}));
          S3Put "history/conversations/c1/blocks/b1.json" (JDict (Block.dict block))].
Proof.
  destruct (@C1_transient_fields_are_stored local_deployment)
    as (_ & _ & Hcreate & _).
  edestruct (Hcreate "hello" sample_partial_conversation "c1" "b1" 100 (start ∅))
    as (block & Hnone & Hev).
  - vm_compute; reflexivity.
  - exists block. split; [exact Hnone | exact Hev].
Defined.
(** C1 as stated fails: the conversation that [create_conversation]
    stores has the key [blocks], bound to null. *)
Lemma C1_counterexample :
  ~ (forall (query : string) (partial_conversation : PartialConversation.t)
            (new_id new_block_id : string) (epoch_time : Z) (w : world)
            (conversation : Conversation.t) (entries : list (string * json)),
       value (@create_conversation local_deployment query partial_conversation
                new_id new_block_id epoch_time w) = Ok conversation ->
       bucket (after (@create_conversation local_deployment query partial_conversation
                        new_id new_block_id epoch_time w))
       !! @get_s3_key local_deployment new_id None None = Some (JDict entries) ->
       Dict.get "blocks" entries = None).
Proof.
  intros Hclaim.
  assert (Dict.get "blocks"
            (Conversation.dict
               {| Conversation.id := "c1"; Conversation.createdBy := sample_user;
                  Conversation.createdAt := 100; Conversation.updatedAt := 100;
                  Conversation.status := "OPEN";
                  Conversation.summaryText := Some "hello";
                  Conversation.summaryType := Some "UNKNOWN";
                  Conversation.blockIds := ["b1"];
                  Conversation.blocks := None |}) = None) as Habs;
    [|discriminate Habs].
  eapply (Hclaim "hello" sample_partial_conversation "c1" "b1" 100 (start ∅)).
  - vm_compute; reflexivity.
  - vm_compute; reflexivity.
Qed.

(** ** Missing children and the entries that could stand in for them *)








Section NoNewEntry.
Context (K : cache_key -> Prop).

End NoNewEntry.


Section MissingChild.
Context `{Deployment}.
Variables (c b f : string).





End MissingChild.




(** ** Where the children of a read come from *)

Lemma value_except_500_inv `{Deployment} {A} (m : M A) w a :
  value (except_500 m w) = Ok a -> value (m w) = Ok a.
Proof.
  unfold except_500. destruct (value (m w)) as [a'|e] eqn:E; simpl.
  - by rewrite E.
  - discriminate.
Qed.

Section Tracks.
Context `{Deployment} (S : string -> json -> Prop).

Lemma tracks_ret {A} (a : A) (Q : A -> Prop) : Q a -> tracks S (ret a) Q.
Proof. intros HQ w Hs _. split; [exact Hs|]. by intros a' [= <-]. Qed.

Lemma tracks_lift {A} (r : result A) : tracks S (lift r) (fun a => r = Ok a).
Proof.
  intros w Hs _. rewrite after_lift, value_lift. split; [exact Hs | done].
Qed.

Lemma tracks_emit ev : tracks S (emit ev) (fun _ => True).
Proof. intros w Hs _. split; [exact Hs | done]. Qed.

Lemma tracks_weaken {A} (m : M A) (Q Q' : A -> Prop) :
  (forall a, Q a -> Q' a) -> tracks S m Q -> tracks S m Q'.
Proof.
  intros HQ Hm w Hs Hput. destruct (Hm w Hs Hput) as [Hs' Hv]. split; [exact Hs'|].
  intros a Ha. by apply HQ, Hv.
Qed.

Lemma tracks_bind {A B} (m : M A) (k : A -> M B) (Q : A -> Prop) (Q' : B -> Prop) :
  tracks S m Q -> (forall a, Q a -> tracks S (k a) Q') -> tracks S (bind m k) Q'.
Proof.
  intros Hm Hk w Hs Hput. unfold bind in *.
  destruct (value (m w)) as [a|e] eqn:Ea; cbn [value after events] in *.
  - destruct (Hm w Hs) as [Hs' Hv].
    { intros key doc Hin. apply Hput, elem_of_app. by left. }
    rewrite Ea in Hv.
    apply (Hk a (Hv a eq_refl) (after (m w)) Hs').
    intros key doc Hin. apply Hput, elem_of_app. by right.
  - destruct (Hm w Hs Hput) as [Hs' _]. split; [exact Hs' | discriminate].
Qed.

Lemma tracks_seq {A B} (m : M A) (k : A -> M B) (Q : A -> Prop) (Q' : B -> Prop) :
  tracks S m Q -> (forall a, tracks S (k a) Q') -> tracks S (bind m k) Q'.
Proof. intros Hm Hk. apply (tracks_bind _ _ Q); [exact Hm | auto]. Qed.

Lemma tracks_for_each {A B} (f : A -> M B) (Q : A -> B -> Prop) xs :
  (forall x, tracks S (f x) (Q x)) ->
  tracks S (for_each f xs) (fun ys => Forall2 Q xs ys).
Proof.
  intros Hf. induction xs as [|x xs IH]; simpl.
  - apply tracks_ret. constructor.
  - apply (tracks_bind _ _ (Q x)); [apply Hf|]. intros y Hy.
    apply (tracks_bind _ _ (fun ys => Forall2 Q xs ys)); [exact IH|]. intros ys Hys.
    apply tracks_ret. by constructor.
Qed.

Lemma tracks_except_500 {A} (m : M A) Q : tracks S m Q -> tracks S (except_500 m) Q.
Proof.
  intros Hm w Hs Hput. unfold except_500 in *.
  destruct (value (m w)) as [a|e] eqn:Ea.
  - destruct (Hm w Hs Hput) as [Hs' Hv]. split; [exact Hs' | exact Hv].
  - cbn [value after events] in *. destruct (Hm w Hs Hput) as [Hs' _].
    split; [exact Hs' | discriminate].
Qed.

Lemma tracks_forget {A} (m : M A) Q : tracks S m Q -> tracks S (forget m) (fun _ => True).
Proof. intros Hm w Hs Hput. destruct (Hm w Hs Hput) as [Hs' _]. done. Qed.

Lemma tracks_get_json_from_s3 key :
  tracks S (get_json_from_s3 key) (fun doc => S key doc).
Proof.
  intros w Hs _. split; [exact Hs|]. intros doc Hv.
  apply value_get_inv in Hv. by apply Hs.
Qed.

Lemma tracks_put_json_to_s3 key data :
  tracks S (put_json_to_s3 key data) (fun _ => True).
Proof.
  intros w [Hb Hc] Hput. split; [|done]. split; [|exact Hc].
  simpl. intros key' doc Hl. destruct (decide (key' = key)) as [->|Hne].
  - rewrite lookup_insert_eq in Hl. injection Hl as <-. apply Hput. simpl. left.
  - rewrite lookup_insert_ne in Hl by done. by apply Hb.
Qed.

Lemma tracks_delete_json_from_s3 key :
  tracks S (delete_json_from_s3 key) (fun _ => True).
Proof.
  intros w [Hb Hc] _. split; [|done]. split; [|exact Hc].
  simpl. intros key' doc Hl. apply lookup_delete_Some in Hl as [_ Hl]. by apply Hb.
Qed.

Lemma tracks_cached k body :
  tracks S body (entry_from S k) -> tracks S (cached k body) (entry_from S k).
Proof.
  intros Hbody w [Hb Hc] Hput. unfold cached in *.
  destruct (cache_getitem_spec k w) as (Hbk & Hsub & Hhit).
  destruct (cache_getitem k w) as [[v|] w']; simpl in Hbk, Hsub, Hhit.
  - cbn [value after events] in *. split.
    + split; [by rewrite Hbk | auto].
    + intros a [= <-]. destruct (Hhit v eq_refl) as (e & He & <- & <-). by apply Hc.
  - assert (sound S w') as Hs' by (split; [by rewrite Hbk | auto]).
    destruct (value (body w')) as [v|e] eqn:Ev; cbn [value after events] in *.
    + destruct (Hbody w' Hs' Hput) as [[Hb' Hc'] Hv]. rewrite Ev in Hv.
      pose proof (Hv v eq_refl) as HQ.
      destruct (cache_setitem_spec k v (after (body w'))) as (Hbs & Hsubs).
      split; [|by intros a [= <-]]. split; [by rewrite Hbs|].
      intros e He. destruct (Hsubs e He) as [Hin|[-> ->]]; [by apply Hc' | exact HQ].
    + destruct (Hbody w' Hs' Hput) as [Hs'' _]. rewrite Ev.
      split; [exact Hs'' | discriminate].
Qed.

Lemma tracks_fetch_responses c b ids :
  tracks S (fetch_responses c b ids) (responses_from S c b ids).
Proof.
  unfold fetch_responses. eapply tracks_seq; [apply tracks_emit|]. intros _.
  apply (tracks_cached (hash_key [AStr c; AStr b; ATuple ids] [])).
  eapply tracks_bind.
  - apply (tracks_for_each _ (fun id r => S (get_s3_key c (Some b) (Some id)) r)).
    intros id. apply tracks_get_json_from_s3.
  - intros rs Hrs. apply tracks_ret. by exists rs.
Qed.

Lemma tracks_fetch_block c b f : tracks S (fetch_block c b f) (block_from S c b f).
Proof.
  unfold fetch_block. eapply tracks_seq; [apply tracks_emit|]. intros _.
  apply (tracks_cached (hash_key [AStr c; AStr b; AStr f] [])).
  eapply tracks_bind; [apply tracks_get_json_from_s3|]. intros block Hblock.
  change (entry_from S (hash_key [AStr c; AStr b; AStr f] []))
    with (block_from S c b f).
  unfold block_from. destruct (wants_responses f).
  - eapply tracks_bind; [apply tracks_lift|]. intros ids_v Hids_v.
    eapply tracks_bind; [apply tracks_lift|]. intros ids Hids.
    eapply tracks_bind; [apply tracks_fetch_responses|]. intros rs Hrs.
    eapply tracks_weaken; [|apply tracks_lift].
    intros v Hv. exists block. split; [exact Hblock|]. by exists ids_v, ids, rs.
  - apply tracks_ret. by exists block.
Qed.

Lemma tracks_fetch_blocks c ids f :
  tracks S (fetch_blocks c ids f) (blocks_from S c ids f).
Proof.
  unfold fetch_blocks. eapply tracks_seq; [apply tracks_emit|]. intros _.
  apply (tracks_cached (hash_key [AStr c; ATuple ids; AStr f] [])).
  eapply tracks_bind.
  - apply (tracks_for_each _ (fun id blk => block_from S c id f blk)).
    intros id. apply tracks_fetch_block.
  - intros blks Hblks. apply tracks_ret. by exists blks.
Qed.

Lemma tracks_fetch_blocks_default c ids :
  tracks S (fetch_blocks_default c ids) (blocks_from S c ids "").
Proof.
  unfold fetch_blocks_default. eapply tracks_seq; [apply tracks_emit|]. intros _.
  apply (tracks_cached (hash_key [AStr c; ATuple ids] [])).
  eapply tracks_bind.
  - apply (tracks_for_each _ (fun id blk => block_from S c id "" blk)).
    intros id. apply tracks_fetch_block.
  - intros blks Hblks. apply tracks_ret. by exists blks.
Qed.

Lemma tracks_lift_any {A} (r : result A) : tracks S (lift r) (fun _ => True).
Proof. eapply tracks_weaken; [|apply tracks_lift]. done. Qed.

Lemma tracks_list_loop `{SetOrder} fields keys : forall acc,
  tracks S (list_loop fields keys acc) (fun _ => True).
Proof.
  induction keys as [|key keys IH]; intros acc; simpl; [by apply tracks_ret|].
  destruct (is_conversation_key key); [|apply IH].
  eapply tracks_seq; [apply tracks_get_json_from_s3|]. intros conversation.
  eapply tracks_seq; [apply tracks_lift|]. intros id_v.
  eapply tracks_seq; [apply tracks_lift|]. intros conversation_id.
  eapply tracks_seq; [apply tracks_lift|]. intros ids_v.
  eapply tracks_seq; [apply tracks_lift|]. intros ids.
  eapply tracks_seq; [apply tracks_fetch_blocks_default|]. intros blocks.
  eapply tracks_seq; [apply tracks_lift|]. intros conversation'.
  eapply tracks_seq; [apply tracks_lift|]. intros filtered.
  apply IH.
Qed.

Lemma tracks_handle `{SetOrder} call : tracks S (handle call) (fun _ => True).
Proof.
  destruct call; simpl;
    try (eapply tracks_forget with (Q := fun _ => True));
    try apply tracks_delete_json_from_s3.
  - unfold create_conversation. apply tracks_except_500. cbv zeta.
    eapply tracks_seq; [apply tracks_lift|]. intros conversation.
    eapply tracks_seq; [apply tracks_put_json_to_s3|]. intros _.
    eapply tracks_seq; [apply tracks_put_json_to_s3|]. intros _.
    by apply tracks_ret.
  - unfold read_conversation. apply tracks_except_500.
    eapply tracks_seq; [apply tracks_get_json_from_s3|]. intros conversation.
    eapply tracks_seq with (Q := fun _ => True);
      [|intros conversation'; apply tracks_lift_any].
    destruct (wants_blocks fields); [|by apply tracks_ret].
    eapply tracks_seq; [apply tracks_lift|]. intros ids_v.
    eapply tracks_seq; [apply tracks_lift|]. intros ids.
    eapply tracks_seq; [apply tracks_fetch_blocks|]. intros blocks.
    apply tracks_lift_any.
  - unfold update_conversation.
    eapply tracks_seq; [apply tracks_put_json_to_s3|]. intros _. by apply tracks_ret.
  - unfold list_conversations. apply tracks_except_500.
    destruct contents as [keys|]; [|by apply tracks_ret].
    eapply tracks_seq; [apply tracks_list_loop|]. intros cs.
    by apply tracks_ret.
  - unfold create_block. cbv zeta.
    eapply tracks_seq; [apply tracks_lift|]. intros block.
    eapply tracks_seq; [apply tracks_put_json_to_s3|]. intros _.
    eapply tracks_seq; [apply tracks_get_json_from_s3|]. intros conversation.
    eapply tracks_seq; [apply tracks_lift|]. intros ids.
    eapply tracks_seq; [apply tracks_lift|]. intros ids'.
    eapply tracks_seq; [apply tracks_lift|]. intros conversation'.
    eapply tracks_seq; [apply tracks_put_json_to_s3|]. intros _.
    by apply tracks_ret.
  - unfold read_block.
    eapply tracks_seq; [apply tracks_get_json_from_s3|]. intros block.
    eapply tracks_seq; [apply tracks_lift|]. intros ids_v.
    eapply tracks_seq; [apply tracks_lift|]. intros ids.
    eapply tracks_seq; [apply tracks_fetch_responses|]. intros responses.
    eapply tracks_seq; [apply tracks_lift|]. intros block'.
    apply tracks_lift_any.
  - unfold update_block.
    eapply tracks_seq; [apply tracks_put_json_to_s3|]. intros _.
    by apply tracks_ret.
  - unfold create_response. cbv zeta.
    eapply tracks_seq; [apply tracks_lift|]. intros response.
    eapply tracks_seq; [apply tracks_put_json_to_s3|]. intros _.
    eapply tracks_seq; [apply tracks_fetch_block|]. intros cached_block.
    eapply tracks_seq; [apply tracks_lift|]. intros block.
    eapply tracks_seq; [apply tracks_put_json_to_s3|]. intros _.
    by apply tracks_ret.
  - unfold read_response.
    eapply tracks_seq; [apply tracks_get_json_from_s3|]. intros response.
    apply tracks_lift_any.
  - unfold update_response.
    eapply tracks_seq; [apply tracks_put_json_to_s3|]. intros _.
    by apply tracks_ret.
Qed.

Lemma sound_run `{SetOrder} calls : forall w,
  sound S w ->
  (forall key doc, S3Put key doc ∈ run_events calls w -> S key doc) ->
  sound S (world_after_all calls w).
Proof.
  induction calls as [|call calls IH]; intros w Hs Hput; simpl; [exact Hs|].
  apply IH.
  - apply (tracks_handle call w Hs). intros key doc Hin.
    apply Hput. simpl. apply elem_of_app. by left.
  - intros key doc Hin. apply Hput. simpl. apply elem_of_app. by right.
Qed.
End Tracks.

Lemma sound_cold `{Deployment} w evs : cache w = [] -> sound (seen (bucket w) evs) w.
Proof.
  intros Hc. split.
  - intros key doc Hl. by left.
  - intros e He. rewrite Hc in He. inversion He.
Qed.

Lemma fetch_blocks_puts_nothing `{Deployment} c ids f w key doc :
  S3Put key doc ∉ events (fetch_blocks c ids f w).
Proof.
  intros Hin.
  assert (Forall (fun ev => is_read_event ev = true) (events (fetch_blocks c ids f w)))
    as Hall by (by apply (keeps_fetch_blocks (fun _ _ => True)
                            (fun ev => is_read_event ev = true))).
  rewrite Forall_forall in Hall. by apply Hall in Hin.
Qed.

(** C8, as amended.  Start the service with an empty cache on any
    bucket and let it serve any calls, reads and writes, in any
    order: the cache is filled and the bucket changed in whatever way
    they do it.  A conversation read whose selection names a path
    under [blocks] then returns, under the key [blocks], one element
    per id of the [blockIds] stored now, in that order: the element
    at the place of an id is a document the bucket has held under
    the key of that id, at the start or put since, as it is or
    projected; when the selection asks for responses, it was given
    one response per id of its own [responseIds], in that order, each
    a document held under the key of that response id.  And whatever
    list the projector finds under a key of a document, it returns a
    list of the same elements, each as it is or projected, in the
    same order. *)
Theorem C8_children_in_stored_order `{SetOrder} `{Deployment}
    (calls : list api_call) (w0 : world)
    (conversation_id fields : string) (entries : list (string * json))
    (block_ids : list string) (out : json) :
  cache w0 = [] ->
  bucket (world_after_all calls w0) !! get_s3_key conversation_id None None
  = Some (JDict entries) ->
  py_tuple (default (JList []) (Dict.get "blockIds" entries)) = Ok block_ids ->
  (exists path, path ∈ Str.split "," fields /\ head_part path = "blocks") ->
  value (read_conversation conversation_id (Some fields) (world_after_all calls w0))
  = Ok out ->
  (exists blocks,
     py_getitem out "blocks" = Ok (JList blocks)
     /\ Forall2
          (fun block_id v =>
             exists blk,
               block_from (seen (bucket w0) (run_events calls w0))
                          conversation_id block_id fields blk
               /\ (v = blk
                   \/ exists nested,
                       filter_nested_fields blk default_block_fields nested = Ok v))
          block_ids blocks)
  /\ (forall data D A projected k items v,
        filter_nested_fields (JDict data) D A = Ok (JDict projected) ->
        Dict.get k data = Some (JList items) ->
        Dict.get k projected = Some v ->
        exists items',
          v = JList items'
          /\ Forall2 (fun item item' =>
                        item' = item
                        \/ exists D' A', filter_nested_fields item D' A' = Ok item')
                     items items').
Proof.
  intros Hcold Hconv Hids (path & Hpath & Hhead) Hread.
  split; [|intros; by eapply filter_nested_fields_keeps_order].
  set (S := seen (bucket w0) (run_events calls w0)).
  set (w := world_after_all calls w0) in *.
  assert (sound S w) as Hs.
  { apply sound_run; [by apply sound_cold|]. intros key doc Hin. by right. }
  pose proof (requests_wants_blocks _ _ Hpath Hhead) as Hw.
  apply value_except_500_inv in Hread. unfold read_conversation in Hread.
  apply value_bind_inv in Hread as (conv & Hget & Hread).
  apply value_get_inv in Hget. rewrite Hconv in Hget. injection Hget as <-.
  rewrite after_get, Hw in Hread.
  apply value_bind_inv in Hread as (conv' & Hinner & Hread).
  apply value_lift_inv in Hread. rewrite (wants_blocks_requested _ Hw) in Hread.
  apply value_bind_inv in Hinner as (ids_v & Hids_v & Hinner).
  apply value_lift_inv in Hids_v. simpl in Hids_v. injection Hids_v as <-.
  rewrite after_lift in Hinner.
  apply value_bind_inv in Hinner as (ids & Hids' & Hinner).
  apply value_lift_inv in Hids'. rewrite Hids in Hids'. injection Hids' as <-.
  rewrite after_lift in Hinner.
  apply value_bind_inv in Hinner as (bv & Hfetch & Hinner).
  apply value_lift_inv in Hinner. simpl in Hinner. injection Hinner as <-.
  destruct (tracks_fetch_blocks S conversation_id block_ids fields w Hs) as [_ Hfrom].
  { intros key doc Hin. by apply fetch_blocks_puts_nothing in Hin. }
  destruct (Hfrom bv Hfetch) as (blks & -> & Hblks).
  destruct (filter_nested_fields_is_dict _ _ _ _ Hread) as [o ->].
  destruct (field_parts_requested default_conversation_fields _ _ Hpath)
    as [nested Hnested].
  rewrite Hhead in Hnested.
  destruct (filter_nested_fields_lookup _ _ _ _ "blocks" nested (JList blks)
              Hread Hnested) as (v & Hv & Hcase).
  { by rewrite get_set, String.eqb_refl. }
  destruct (is_nil nested).
  - injection Hcase as <-. exists blks. split; [simpl; by rewrite Hv|].
    eapply Forall2_impl; [exact Hblks|]. intros bid blk Hblk.
    exists blk. split; [exact Hblk | by left].
  - destruct (recurse_list _ _ _ _ Hcase) as (items' & -> & Hall).
    exists items'. split; [simpl; by rewrite Hv|].
    clear -Hblks Hall. revert items' Hall.
    induction Hblks as [|bid blk ids blks Hblk Hblks IH]; intros items' Hall.
    + inversion Hall. constructor.
    + inversion Hall as [|? item' ? items'' Hitem Hrest]; subst.
      constructor; [|by apply IH].
      exists blk. split; [exact Hblk|]. right. eexists. exact Hitem.
Qed.

Lemma C8_children_in_stored_order_witness :
  exists out,
    value (@read_conversation first_seen_order local_deployment "c1"
             (Some "blocks.responses")
             (@world_after_all first_seen_order local_deployment
                sample_run_blocks_turned (start sample_bucket))) = Ok out
    /\ exists blocks,
         py_getitem out "blocks" = Ok (JList blocks)
         /\ length blocks = 2%nat.
Proof.
  eexists. split; [vm_compute; reflexivity|].
  edestruct (@C8_children_in_stored_order first_seen_order local_deployment
               sample_run_blocks_turned (start sample_bucket) "c1" "blocks.responses"
               (Conversation.dict sample_turned_conversation) ["b2"; "b1"])
    as [(blocks & Hb & Hall) _].
  - reflexivity.
  - vm_compute; reflexivity.
  - vm_compute; reflexivity.
  - exists "blocks.responses". split; [|vm_compute; reflexivity].
    apply list_elem_of_In. vm_compute. tauto.
  - vm_compute; reflexivity.
  - exists blocks. split; [exact Hb|].
    symmetry. exact (Forall2_length _ _ _ Hall).
Defined.

(** C8 as stated fails for the responses: a block that is answered
    from the cache has the responses it was given when the entry was
    made.  After a read has filled the cache and [update_block] has
    turned the order of [responseIds], the same read still returns
    the responses in the old order: the first response it returns
    has not the id of the document stored under the first of the
    [responseIds] stored now. *)
Lemma C8_counterexample :
  ~ (forall (calls : list api_call) (w0 : world) (conversation_id fields : string)
            (entries : list (string * json)) (block_ids : list string) (out : json),
       cache w0 = [] ->
       let w := @world_after_all first_seen_order local_deployment calls w0 in
       bucket w !! @get_s3_key local_deployment conversation_id None None
       = Some (JDict entries) ->
       py_tuple (default (JList []) (Dict.get "blockIds" entries)) = Ok block_ids ->
       wants_responses fields = true ->
       value (@read_conversation first_seen_order local_deployment conversation_id
                (Some fields) w) = Ok out ->
       exists blocks,
         py_getitem out "blocks" = Ok (JList blocks)
         /\ Forall2
              (fun block_id v =>
                 exists doc response_ids responses,
                   bucket w !! @get_s3_key local_deployment conversation_id
                                  (Some block_id) None = Some (JDict doc)
                   /\ py_tuple (default (JList []) (Dict.get "responseIds" doc))
                      = Ok response_ids
                   /\ py_getitem v "responses" = Ok (JList responses)
                   /\ Forall2
                        (fun response_id r =>
                           exists stored,
                             bucket w !! @get_s3_key local_deployment conversation_id
                                            (Some block_id) (Some response_id)
                             = Some stored
                             /\ py_getitem r "id" = py_getitem stored "id")
                        response_ids responses)
              block_ids blocks).
Proof.
  intros Hclaim.
  edestruct (Hclaim sample_run_responses_turned (start sample_bucket) "c1"
               "blocks.responses") as (blocks & Hb & Hall).
  - reflexivity.
  - vm_compute; reflexivity.
  - vm_compute; reflexivity.
  - vm_compute; reflexivity.
  - vm_compute; reflexivity.
  - vm_compute in Hb. injection Hb as <-.
    apply Forall2_cons_1 in Hall as [(doc & rids & rs & Hdoc & Hrids & Hrs & Hord) _].
    vm_compute in Hdoc. injection Hdoc as <-.
    vm_compute in Hrids. injection Hrids as <-.
    vm_compute in Hrs. injection Hrs as <-.
    apply Forall2_cons_1 in Hord as [(stored & Hstored & Hfirst) _].
    vm_compute in Hstored. injection Hstored as <-.
    vm_compute in Hfirst. discriminate.
Qed.
